(** * BuzzMarketing Media Converter: image batch and video job orchestration

    A shallow embedding of the conversion logic of the two React components
    [ImageConverter] and [VideoConverter]: the argument planner (the ffmpeg
    argument lists), the per-item state of the image queue, the sequential
    batch loop of [convertImages] with its virtual file system and its ZIP
    folder, and the custom-resolution handlers of the video form.

    Conventions.
    - JavaScript numbers are IEEE-754 binary64 values.  Those that hold
      pixel sizes, qualities and counts are integers on every path modelled
      here and are represented by [Z]; the aspect ratio is represented by
      the rational [Q] that the double holds exactly.  Module [Double] is
      the rounding to binary64 (53 significant bits, ties to even, gradual
      underflow): the aspect ratio and every size recomputed from it pass
      through it, and [parseInt] applies it to the integer it has read.
      The quality mapping and the even rounding of the video size are
      evaluated exactly.  Module [Binary64] states the numeric expressions
      of the source over Rocq's primitive floats, so that the model can be
      compared with the hardware by evaluation.
      [NaN] and the infinities have no counterpart in [Z] and [Q]:
      statements about a size recomputed from the aspect ratio assume a
      positive ratio, as media of non-zero width and height have, and
      magnitudes below the largest finite double.
    - JavaScript strings are [string]s, one [ascii] per code unit.
    - [useState] cells are record fields; a synchronous handler is a
      function from the component state to the next state.  The
      asynchronous [convertImages] is suspended at each of its [await]s:
      module [Async] runs it from one [await] to the next, and a session
      interleaves these steps with the other handlers.  [convertImages]
      itself, as a function, is a run with nothing in between.
    - The ffmpeg engine is an external collaborator: it is a parameter of
      the model, constrained only at its boundary. *)

From Stdlib Require Import ZArith QArith Qround Qabs Qpower String Ascii List
  Floats DecimalString Lia Lqa.
From stdpp Require Import gmap strings list fin_maps.
From Stdlib Require Import DecimalPos.

Open Scope Z_scope.

(* ===================================================================== *)
(** * Rounding to IEEE-754 binary64                                       *)
(* ===================================================================== *)

Module Double.

Definition pow2 (e : Z) : Q := (2 ^ e)%Q.

(** The integer part of the base-2 logarithm of a positive rational. *)
Definition ilog2 (x : Q) : Z :=
  let k := Z.log2 (Qnum x) - Z.log2 (Z.pos (Qden x)) in
  if Qle_bool (pow2 k) x then k else k - 1.

(** The exponent of the last place of the doubles around [x]: 53
    significant bits, but no exponent below -1074. *)
Definition quantum (x : Q) : Z := Z.max (ilog2 (Qabs x) - 52) (-1074).

(** The nearest integer, the even one on a tie. *)
Definition nearestEven (x : Q) : Z :=
  let f := Qfloor x in
  match (x - inject_Z f ?= 1 # 2)%Q with
  | Lt => f
  | Gt => f + 1
  | Eq => if Z.even f then f else f + 1
  end.

(** The double nearest to [x], as the rational it holds.  Magnitudes
    beyond the largest finite double (about 1.8e308) round to an infinity
    in the source and are outside this function's domain. *)
Definition fl (x : Q) : Q :=
  if Qeq_bool x 0 then 0%Q
  else (inject_Z (nearestEven (x / pow2 (quantum x))) * pow2 (quantum x))%Q.

(** The Number value of a mathematical integer. *)
Definition integer (n : Z) : Z := Qfloor (fl (inject_Z n)).

(** Half the distance between 1 and the next double: 2^-53. *)
Definition u : Q := 1 # 9007199254740992.

End Double.

(* ===================================================================== *)
(** * JavaScript primitives used by the source                            *)
(* ===================================================================== *)

Module JS.

(** ** Numbers *)

(** [Math.floor] and [Math.round] (ties go towards +infinity). *)
Definition floor (x : Q) : Z := Qfloor x.

Definition round (x : Q) : Z := Qfloor (x + (1 # 2))%Q.

Definition max (a b : Z) : Z := Z.max a b.

(** [Number.prototype.toString] and template interpolation of an
    integer-valued number: decimal digits with a leading minus sign. *)
Definition toString (n : Z) : string := NilZero.string_of_int (Z.to_int n).

(** ** Characters *)

Definition code (c : ascii) : N := N_of_ascii c.

Definition between (lo hi : N) (c : ascii) : bool :=
  ((lo <=? code c) && (code c <=? hi))%N.

Definition isDigit (c : ascii) : bool := between 48 57 c.
Definition isLower (c : ascii) : bool := between 97 122 c.
Definition isUpper (c : ascii) : bool := between 65 90 c.

(** White space of [String.prototype.trim] and of [parseInt] within the
    one-byte range: TAB, LF, VT, FF, CR, space and NBSP. *)
Definition isSpace (c : ascii) : bool :=
  (between 9 13 c || (code c =? 32) || (code c =? 160))%N.

(** ** Strings *)

Fixpoint trimStart (s : string) : string :=
  match s with
  | EmptyString => EmptyString
  | String c s' => if isSpace c then trimStart s' else s
  end.

Fixpoint trimEnd (s : string) : string :=
  match s with
  | EmptyString => EmptyString
  | String c s' =>
      match trimEnd s' with
      | EmptyString => if isSpace c then EmptyString else String c EmptyString
      | r => String c r
      end
  end.

Definition trim (s : string) : string := trimEnd (trimStart s).

(** [s.split(sep)] for a one-character separator: never the empty list. *)
Fixpoint split (sep : ascii) (s : string) : list string :=
  match s with
  | EmptyString => [EmptyString]
  | String c s' =>
      if Ascii.eqb c sep then EmptyString :: split sep s'
      else match split sep s' with
           | h :: t => String c h :: t
           | [] => [String c EmptyString]
           end
  end.

(** [parts.join(sep)]. *)
Fixpoint join (sep : string) (parts : list string) : string :=
  match parts with
  | [] => EmptyString
  | [p] => p
  | p :: rest => p +:+ sep +:+ join sep rest
  end.

(** [parts.slice(0, -1)]: everything but the last element. *)
Definition sliceInit (parts : list string) : list string := removelast parts.

(** [s.replace(/[^...]/g, by)] for a character class given by [keep]. *)
Fixpoint replaceOutside (keep : ascii -> bool) (by_ : ascii) (s : string) : string :=
  match s with
  | EmptyString => EmptyString
  | String c s' =>
      String (if keep c then c else by_) (replaceOutside keep by_ s')
  end.

(** ** [parseInt(s)] with no radix argument

    Leading white space is skipped, one sign is accepted, a [0x]/[0X]
    prefix selects radix 16, and the longest prefix of digits is read;
    the result is the Number value of the integer read, that is the
    nearest double; [None] stands for [NaN]. *)

Definition digitValue (radix : Z) (c : ascii) : option Z :=
  let n := Z.of_N (code c) in
  let v := if isDigit c then Some (n - 48)
           else if isLower c then Some (n - 97 + 10)
           else if isUpper c then Some (n - 65 + 10)
           else None in
  match v with
  | Some d => if d <? radix then Some d else None
  | None => None
  end.

Fixpoint readDigits (radix : Z) (acc : option Z) (s : string) : option Z :=
  match s with
  | EmptyString => acc
  | String c s' =>
      match digitValue radix c with
      | Some d =>
          readDigits radix
            (Some (match acc with Some a => a * radix + d | None => d end)) s'
      | None => acc
      end
  end.

Definition isX (c : ascii) : bool := ((code c =? 120) || (code c =? 88))%N.

Definition readMagnitude (s : string) : option Z :=
  match s with
  | String z (String x s') =>
      if ((code z =? 48)%N && isX x)%bool then readDigits 16 None s'
      else readDigits 10 None s
  | _ => readDigits 10 None s
  end.

(** The mathematical integer that the digits denote. *)
Definition mathInt (s : string) : option Z :=
  match trimStart s with
  | String c s' =>
      if (code c =? 45)%N then option_map Z.opp (readMagnitude s')
      else if (code c =? 43)%N then readMagnitude s'
      else readMagnitude (String c s')
  | EmptyString => None
  end.

Definition parseInt (s : string) : option Z :=
  option_map Double.integer (mathInt s).

(** The number read is finite.  Beyond the largest finite double
    [parseInt] yields an infinity, which has no counterpart in [Z]:
    statements about texts of any length assume a magnitude below
    2^1023. *)
Definition finite (s : string) : Prop :=
  match mathInt s with
  | Some n => Z.abs n < 2 ^ 1023
  | None => True
  end.

(** [parseInt(s) || 0]: [NaN] and [0] are falsy, every other number is
    kept, negative ones included. *)
Definition parseIntOrZero (s : string) : Z :=
  match parseInt s with
  | Some n => if n =? 0 then 0 else n
  | None => 0
  end.

End JS.

(* ===================================================================== *)
(** * The same numeric expressions over IEEE-754 binary64                 *)
(* ===================================================================== *)

Module Binary64.

Definition ofZ (n : Z) : float :=
  SF2Prim (binary_normalize prec emax n 0 false).

(** The rational that a finite double [m * 2^e] holds; [None] for NaN
    and the infinities. *)
Definition exact (x : float) : option Q :=
  match Prim2SF x with
  | S754_zero _ => Some 0%Q
  | S754_finite s m e =>
      Some (inject_Z (if s then Z.neg m else Z.pos m) * Double.pow2 e)%Q
  | _ => None
  end.

(** The integer below a finite double [m * 2^e]; [None] for NaN and the
    infinities. *)
Definition floor (x : float) : option Z :=
  match Prim2SF x with
  | S754_zero _ => Some 0
  | S754_finite s m e =>
      let v := if s then Z.neg m else Z.pos m in
      Some (if 0 <=? e then v * 2 ^ e else Z.shiftr v (- e))
  | _ => None
  end.

(** [Math.round]: the integer below [x + 1/2], computed exactly on the
    dyadic value of [x]. *)
Definition round (x : float) : option Z :=
  match Prim2SF x with
  | S754_zero _ => Some 0
  | S754_finite s m e =>
      let v := if s then Z.neg m else Z.pos m in
      Some (if 0 <=? e then v * 2 ^ e
            else Z.shiftr (2 * v + 2 ^ (- e)) (- e + 1))
  | _ => None
  end.

(** [Math.max(2, Math.floor(31 - ((quality - 1) * (29) / 99)))] *)
Definition jpegQuality (quality : Z) : option Z :=
  option_map (Z.max 2)
    (floor (31 - ((ofZ quality - 1) * 29 / 99))%float).

(** [Math.round(value / aspectRatio)] with [aspectRatio = w / h] *)
Definition heightFor (w h value : Z) : option Z :=
  round (ofZ value / (ofZ w / ofZ h))%float.

(** [Math.round(value * aspectRatio)] with [aspectRatio = w / h] *)
Definition widthFor (w h value : Z) : option Z :=
  round (ofZ value * (ofZ w / ofZ h))%float.

(** [Math.round(custom / 2) * 2] *)
Definition evenRound (custom : Z) : option Z :=
  option_map (fun r => r * 2) (round (ofZ custom / 2)%float).

(** [Double] against the hardware: the conversion of an integer, the
    quotient of two integers, and the product of such a quotient and an
    integer. *)
Definition sameInteger (a : Z) : bool :=
  match exact (ofZ a) with
  | Some q => Qeq_bool q (inject_Z (Double.integer a))
  | None => false
  end.

Definition sameQuotient (a b : Z) : bool :=
  match exact (ofZ a / ofZ b)%float with
  | Some q =>
      Qeq_bool q (Double.fl (inject_Z (Double.integer a)
                             / inject_Z (Double.integer b)))
  | None => false
  end.

Definition sameProduct (a b c : Z) : bool :=
  match exact (ofZ a / ofZ b * ofZ c)%float with
  | Some q =>
      Qeq_bool q
        (Double.fl (Double.fl (inject_Z (Double.integer a)
                               / inject_Z (Double.integer b))
                    * inject_Z (Double.integer c)))
  | None => false
  end.

(** Integers around the limits of the format: small ones, the last
    integers that are all representable, integers that must be rounded,
    and magnitudes whose quotients are subnormal or close to the largest
    double. *)
Definition samples : list Z :=
  [1; 3; 7; 10; 1025; 99999; 4503599627370497; 9007199254740991;
   9007199254740993; 18014398509481987; 123456789012345678901234567890;
   2 ^ 200 + 12345; 3 * 2 ^ 1021; 2 ^ 1023 + 2 ^ 970; -7;
   -9007199254740993].

End Binary64.

(* ===================================================================== *)
(** * ImageConverter                                                      *)
(* ===================================================================== *)

Module Status.
(** ['idle' | 'processing' | 'done' | 'error'] *)
Inductive t := idle | processing | done | error.

Definition eqb (a b : t) : bool :=
  match a, b with
  | idle, idle | processing, processing | done, done | error, error => true
  | _, _ => false
  end.
End Status.

Module ImageConverter.

Record File := { name : string; bytes : list Byte.byte }.

(** A [Blob] and the object URL created for it are identified. *)
Record Blob := { blobParts : list Byte.byte; type : string }.

Record ImageItem := {
  file : File;
  id : string;
  originalWidth : Z;
  originalHeight : Z;
  targetWidth : Z;
  targetHeight : Z;
  aspectRatio : Q;
  keyword : string;
  status : Status.t;
  outputUrl : option Blob;
  outputName : option string
}.

Definition withKeyword (v : string) (img : ImageItem) : ImageItem :=
  {| file := file img; id := id img;
     originalWidth := originalWidth img; originalHeight := originalHeight img;
     targetWidth := targetWidth img; targetHeight := targetHeight img;
     aspectRatio := aspectRatio img; keyword := v; status := status img;
     outputUrl := outputUrl img; outputName := outputName img |}.

Definition withTarget (w h : Z) (img : ImageItem) : ImageItem :=
  {| file := file img; id := id img;
     originalWidth := originalWidth img; originalHeight := originalHeight img;
     targetWidth := w; targetHeight := h;
     aspectRatio := aspectRatio img; keyword := keyword img;
     status := status img;
     outputUrl := outputUrl img; outputName := outputName img |}.

Definition withStatus (s : Status.t) (img : ImageItem) : ImageItem :=
  {| file := file img; id := id img;
     originalWidth := originalWidth img; originalHeight := originalHeight img;
     targetWidth := targetWidth img; targetHeight := targetHeight img;
     aspectRatio := aspectRatio img; keyword := keyword img; status := s;
     outputUrl := outputUrl img; outputName := outputName img |}.

Definition withOutput (url : Blob) (nm : string) (img : ImageItem) : ImageItem :=
  {| file := file img; id := id img;
     originalWidth := originalWidth img; originalHeight := originalHeight img;
     targetWidth := targetWidth img; targetHeight := targetHeight img;
     aspectRatio := aspectRatio img; keyword := keyword img;
     status := status img;
     outputUrl := Some url; outputName := Some nm |}.

(** The [useState] cells of the component. *)
Record Component := {
  images : list ImageItem;
  outputFormat : string;
  quality : Z;
  processing : bool;
  zipUrl : option (gmap string (list Byte.byte))
}.

(** The component together with what it acts upon: the engine's virtual
    file system, the alerts raised, and every list handed to [setImages]
    so far (oldest first). *)
Record World := {
  ui : Component;
  vfs : gmap string (list Byte.byte);
  alerts : list string;
  rendered : list (list ImageItem)
}.

Definition setImages (l : list ImageItem) (w : World) : World :=
  {| ui := {| images := l; outputFormat := outputFormat (ui w);
              quality := quality (ui w); processing := processing (ui w);
              zipUrl := zipUrl (ui w) |};
     vfs := vfs w; alerts := alerts w;
     rendered := rendered w ++ [l] |}.

Definition setProcessing (b : bool) (w : World) : World :=
  {| ui := {| images := images (ui w); outputFormat := outputFormat (ui w);
              quality := quality (ui w); processing := b;
              zipUrl := zipUrl (ui w) |};
     vfs := vfs w; alerts := alerts w; rendered := rendered w |}.

Definition setZipUrl (z : option (gmap string (list Byte.byte))) (w : World) : World :=
  {| ui := {| images := images (ui w); outputFormat := outputFormat (ui w);
              quality := quality (ui w); processing := processing (ui w);
              zipUrl := z |};
     vfs := vfs w; alerts := alerts w; rendered := rendered w |}.

Definition setVfs (fs : gmap string (list Byte.byte)) (w : World) : World :=
  {| ui := ui w; vfs := fs; alerts := alerts w; rendered := rendered w |}.

Definition alert (msg : string) (w : World) : World :=
  {| ui := ui w; vfs := vfs w; alerts := alerts w ++ [msg];
     rendered := rendered w |}.

(** ** processFiles, removeImage, handleKeywordChange *)

(** One uploaded file with the identifier drawn for it and the size the
    browser reports once the image has loaded. *)
Record Upload := { upFile : File; upId : string; upW : Z; upH : Z }.

Definition newImage (u : Upload) : ImageItem :=
  {| file := upFile u; id := upId u;
     originalWidth := upW u; originalHeight := upH u;
     targetWidth := upW u; targetHeight := upH u;
     aspectRatio := Double.fl (inject_Z (upW u) / inject_Z (upH u));
     keyword := EmptyString; status := Status.idle;
     outputUrl := None; outputName := None |}.

Definition processFiles (files : list Upload) (w : World) : World :=
  setImages (images (ui w) ++ map newImage files) w.

Definition removeImage (i : string) (w : World) : World :=
  setImages (List.filter (fun img => negb (String.eqb (id img) i)) (images (ui w))) w.

Definition handleKeywordChange (i : string) (value : string) (w : World) : World :=
  setImages
    (map (fun img => if String.eqb (id img) i then withKeyword value img else img)
         (images (ui w))) w.

(** ** handleDimensionChange *)

Inductive Dimension := width | height.

Definition changeDimension (dimension : Dimension) (value : Z)
    (img : ImageItem) : ImageItem :=
  match dimension with
  | width =>
      withTarget value
        (JS.round (Double.fl (inject_Z value / aspectRatio img))) img
  | height =>
      withTarget (JS.round (Double.fl (inject_Z value * aspectRatio img)))
        value img
  end.

Definition handleDimensionChange (i : string) (dimension : Dimension)
    (value : Z) (w : World) : World :=
  setImages
    (map (fun img => if negb (String.eqb (id img) i) then img
                     else changeDimension dimension value img)
         (images (ui w))) w.

(** ** The argument list built inside convertImages *)

(** [Math.max(2, Math.floor(31 - ((quality - 1) * (29) / 99)))] *)
Definition jpegQuality (quality : Z) : Z :=
  JS.max 2 (JS.floor (31 - inject_Z ((quality - 1) * 29) / 99)%Q).

Definition metaTags : list string :=
  ["title"; "description"; "comment"; "author"; "copyright"; "ICRD"].

(** [img.keyword && img.keyword.trim() !== ""] *)
Definition hasKeyword (img : ImageItem) : bool :=
  negb (String.eqb (keyword img) "") && negb (String.eqb (JS.trim (keyword img)) "").

Definition planImage (outputFormat : string) (quality : Z) (img : ImageItem)
    (inputName outputName : string) : list string :=
  let args := ["-i"; inputName] in
  let args :=
    if negb (targetWidth img =? originalWidth img)
       || negb (targetHeight img =? originalHeight img)
    then args ++ ["-vf"; "scale=" +:+ JS.toString (targetWidth img) +:+ ":"
                           +:+ JS.toString (targetHeight img)]
    else args in
  let args :=
    if String.eqb outputFormat "jpg" || String.eqb outputFormat "jpeg"
    then args ++ ["-q:v"; JS.toString (jpegQuality quality)]
    else if String.eqb outputFormat "webp"
    then args ++ ["-quality"; JS.toString quality]
    else args in
  let args :=
    if hasKeyword img
    then args ++ flat_map (fun tag => ["-metadata"; tag +:+ "=" +:+ keyword img])
                          metaTags
    else args in
  args ++ [outputName].

(** ** Output names *)

(** [/[^a-zA-Z0-9-_]/]: the characters the sanitizer keeps. *)
Definition keepInName (c : ascii) : bool :=
  JS.isLower c || JS.isUpper c || JS.isDigit c
  || (JS.code c =? 45)%N || (JS.code c =? 95)%N.

Definition hyphen : ascii := ascii_of_N 45.
Definition dot : ascii := ascii_of_N 46.

(** [img.file.name.split('.').slice(0, -1).join('.')] *)
Definition originalName (img : ImageItem) : string :=
  JS.join "." (JS.sliceInit (JS.split dot (name (file img)))).

(** The name under which the converted bytes go into the ZIP folder. *)
Definition folderEntryName (outputFormat : string) (img : ImageItem) : string :=
  originalName img +:+ "." +:+ outputFormat.

(** [finalName]: [img.file.name.split('.')[0]], or the sanitized keyword. *)
Definition finalName (img : ImageItem) : string :=
  if hasKeyword img
  then JS.replaceOutside keepInName hyphen (JS.trim (keyword img))
  else match JS.split dot (name (file img)) with
       | first :: _ => first
       | [] => "undefined"
       end.

(** ** The engine at its boundary *)

(** What one invocation does, as a function of its argument list: it
    throws ([None]) or it produces the bytes of the output file. *)
Definition Engine := list string -> option (list Byte.byte).

(** [ffmpeg.exec(args)]: the output file is the last argument. *)
Definition exec (engine : Engine) (args : list string)
    (fs : gmap string (list Byte.byte)) : option (gmap string (list Byte.byte)) :=
  match engine args with
  | Some out => Some (<[List.last args EmptyString := out]> fs)
  | None => None
  end.

Definition writeFile (path : string) (data : list Byte.byte)
    (fs : gmap string (list Byte.byte)) : gmap string (list Byte.byte) :=
  <[path := data]> fs.

(** [ffmpeg.readFile(path)] throws when the file does not exist. *)
Definition readFile (path : string) (fs : gmap string (list Byte.byte))
    : option (list Byte.byte) :=
  fs !! path.

(** [ffmpeg.deleteFile(path)] throws when the file does not exist. *)
Definition deleteFile (path : string) (fs : gmap string (list Byte.byte))
    : option (gmap string (list Byte.byte)) :=
  match fs !! path with
  | Some _ => Some (delete path fs)
  | None => None
  end.

(** ** convertImages *)

(** How a block of statements ends: normally, or by a thrown exception;
    either way with the effects performed so far. *)
Inductive Completion (A : Type) :=
| Normal (a : A)
| Thrown (a : A).
Arguments Normal {A} a.
Arguments Thrown {A} a.

(** The variables of one run: the world ([setImages] and the engine's
    files), the array [updatedImages], the ZIP folder and the counter. *)
Record Frame := {
  world : World;
  updatedImages : list ImageItem;
  folder : gmap string (list Byte.byte);
  processedCount : nat
}.

Definition inputNameOf (img : ImageItem) : string := "input_" +:+ id img.

Definition outputNameOf (outputFormat : string) (img : ImageItem) : string :=
  "output_" +:+ id img +:+ "." +:+ outputFormat.

(** The body of the [for] loop at index [i]. *)
Definition iteration (engine : Engine) (i : nat) (f : Frame) : Completion Frame :=
  let fmt := outputFormat (ui (world f)) in
  match updatedImages f !! i with
  | None => Thrown f
  | Some img0 =>
      (* updatedImages[i].status = 'processing'; setImages([...updatedImages]) *)
      let img := withStatus Status.processing img0 in
      let imgs1 := <[i := img]> (updatedImages f) in
      let w1 := setImages imgs1 (world f) in
      let inputName := inputNameOf img in
      let outputName := outputNameOf fmt img in
      (* await ffmpeg.writeFile(inputName, await fetchFile(img.file)) *)
      let w2 := setVfs (writeFile inputName (bytes (file img)) (vfs w1)) w1 in
      let args := planImage fmt (quality (ui w2)) img inputName outputName in
      let f2 := {| world := w2; updatedImages := imgs1; folder := folder f;
                   processedCount := processedCount f |} in
      match exec engine args (vfs w2) with
      | None => Thrown f2
      | Some fs3 =>
          let w3 := setVfs fs3 w2 in
          let f3 := {| world := w3; updatedImages := imgs1; folder := folder f;
                       processedCount := processedCount f |} in
          match readFile outputName fs3 with
          | None => Thrown f3
          | Some data =>
              let url := {| blobParts := data; type := "image/" +:+ fmt |} in
              (* if (folder): zip.folder(...) returns the folder object *)
              let folder' := <[folderEntryName fmt img := data]> (folder f) in
              let img' := withOutput url (finalName img +:+ "." +:+ fmt)
                            (withStatus Status.done img) in
              let imgs2 := <[i := img']> imgs1 in
              let w4 := setImages imgs2 w3 in
              let f4 := {| world := w4; updatedImages := imgs2;
                           folder := folder'; processedCount := processedCount f |} in
              match deleteFile inputName (vfs w4) with
              | None => Thrown f4
              | Some fs5 =>
                  let w5 := setVfs fs5 w4 in
                  match deleteFile outputName fs5 with
                  | None =>
                      Thrown {| world := w5; updatedImages := imgs2;
                                folder := folder'; processedCount := processedCount f |}
                  | Some fs6 =>
                      Normal {| world := setVfs fs6 w5; updatedImages := imgs2;
                                folder := folder';
                                processedCount := S (processedCount f) |}
                  end
              end
          end
      end
  end.

(** [for (let i = ...; i < updatedImages.length; i++)] with [n] indices
    still to visit. *)
Fixpoint loop (engine : Engine) (n : nat) (i : nat) (f : Frame) : Completion Frame :=
  match n with
  | O => Normal f
  | S n' =>
      match iteration engine i f with
      | Normal f' => loop engine n' (S i) f'
      | Thrown f' => Thrown f'
      end
  end.

Definition convertImages (loaded : bool) (engine : Engine) (w : World) : World :=
  if negb loaded || (length (images (ui w)) =? 0)%nat then w
  else
    let w := setZipUrl None (setProcessing true w) in
    let f := {| world := w; updatedImages := images (ui w); folder := ∅;
                processedCount := 0 |} in
    let w :=
      match loop engine (length (updatedImages f)) 0 f with
      | Normal f' => setZipUrl (Some (folder f')) (world f')
      | Thrown f' => alert "Error during conversion" (world f')
      end in
    setProcessing false w.

End ImageConverter.

(* ===================================================================== *)
(** * VideoConverter                                                      *)
(* ===================================================================== *)

Module VideoConverter.

(** The [useState] cells that the argument list and the custom-size
    handlers read or write. *)
Record Component := {
  outputFormat : string;
  resolution : string;
  customWidth : Z;
  customHeight : Z;
  aspectRatio : Q;
  codec : string
}.

Definition setCustomWidth (w : Z) (c : Component) : Component :=
  {| outputFormat := outputFormat c; resolution := resolution c;
     customWidth := w; customHeight := customHeight c;
     aspectRatio := aspectRatio c; codec := codec c |}.

Definition setCustomHeight (h : Z) (c : Component) : Component :=
  {| outputFormat := outputFormat c; resolution := resolution c;
     customWidth := customWidth c; customHeight := h;
     aspectRatio := aspectRatio c; codec := codec c |}.

(** [Math.round(custom / 2) * 2] *)
Definition evenRound (custom : Z) : Z := JS.round (inject_Z custom / 2)%Q * 2.

Definition preset (resolution name filter : string) (args : list string)
    : list string :=
  if String.eqb resolution name then args ++ ["-vf"; filter] else args.

(** The argument list that [convert] hands to [ffmpeg.exec]. *)
Definition convertArgs (c : Component) : list string :=
  let outputFilename := "output." +:+ outputFormat c in
  let args := ["-i"; "input"] in
  let args :=
    if String.eqb (resolution c) "custom" then
      let finalW := evenRound (customWidth c) in
      let finalH := evenRound (customHeight c) in
      args ++ ["-vf"; "scale=" +:+ JS.toString finalW +:+ ":" +:+ JS.toString finalH]
    else if negb (String.eqb (resolution c) "original") then
      preset (resolution c) "360p" "scale=-1:360"
        (preset (resolution c) "480p" "scale=-1:480"
          (preset (resolution c) "720p" "scale=-1:720"
            (preset (resolution c) "1080p" "scale=-1:1080"
              (preset (resolution c) "1440p" "scale=-1:1440"
                (preset (resolution c) "4k" "scale=-1:2160" args)))))
    else args in
  let args :=
    if negb (String.eqb (codec c) "copy") then
      let args := args ++ ["-c:v"; codec c] in
      if String.eqb (outputFormat c) "mp4" && String.eqb (codec c) "libx264"
      then args ++ ["-preset"; "fast"] else args
    else args ++ ["-c:v"; "copy"] in
  args ++ [outputFilename].

(** [handleWidthChange], on the text of the input field. *)
Definition handleWidthChange (value : string) (c : Component) : Component :=
  let w := JS.parseIntOrZero value in
  let c := setCustomWidth w c in
  if 0 <? w
  then setCustomHeight (JS.round (Double.fl (inject_Z w / aspectRatio c))) c
  else c.

(** [handleHeightChange], on the text of the input field. *)
Definition handleHeightChange (value : string) (c : Component) : Component :=
  let h := JS.parseIntOrZero value in
  let c := setCustomHeight h c in
  if 0 <? h
  then setCustomWidth (JS.round (Double.fl (inject_Z h * aspectRatio c))) c
  else c.

End VideoConverter.

(* ===================================================================== *)
(** * convertImages, from one await to the next                           *)
(* ===================================================================== *)

Module Async.
Import ImageConverter.

(** The [await]s of [convertImages], in program order. *)
Inductive Await :=
| fetchFile       (* await fetchFile(img.file) *)
| writeInput      (* await ffmpeg.writeFile(inputName, ...) *)
| execute         (* await ffmpeg.exec(args) *)
| readOutput      (* await ffmpeg.readFile(outputName) *)
| deleteInput     (* await ffmpeg.deleteFile(inputName) *)
| deleteOutput    (* await ffmpeg.deleteFile(outputName) *)
| generateZip.    (* await zip.generateAsync({ type: "blob" }) *)

(** A suspended call of [convertImages]: the engine, the output format
    and the quality that its closure captured from the rendering in which
    the button was clicked, its local variables, and the [await] at which
    it waits. *)
Record Run := {
  ffmpeg : Engine;
  outputFormat : string;
  quality : Z;
  updatedImages : list ImageItem;
  folder : gmap string (list Byte.byte);
  processedCount : nat;
  i : nat;
  awaiting : Await
}.

(** The component and the call of [convertImages] in progress, if any. *)
Record Live := { now : World; pending : option Run }.

Definition at_ (a : Await) (r : Run) : Run :=
  {| ffmpeg := ffmpeg r; outputFormat := outputFormat r; quality := quality r;
     updatedImages := updatedImages r; folder := folder r;
     processedCount := processedCount r; i := i r; awaiting := a |}.

Definition withImages (l : list ImageItem) (r : Run) : Run :=
  {| ffmpeg := ffmpeg r; outputFormat := outputFormat r; quality := quality r;
     updatedImages := l; folder := folder r;
     processedCount := processedCount r; i := i r; awaiting := awaiting r |}.

Definition withFolder (z : gmap string (list Byte.byte)) (r : Run) : Run :=
  {| ffmpeg := ffmpeg r; outputFormat := outputFormat r; quality := quality r;
     updatedImages := updatedImages r; folder := z;
     processedCount := processedCount r; i := i r; awaiting := awaiting r |}.

(** [processedCount++] and [i++] *)
Definition next (r : Run) : Run :=
  {| ffmpeg := ffmpeg r; outputFormat := outputFormat r; quality := quality r;
     updatedImages := updatedImages r; folder := folder r;
     processedCount := S (processedCount r); i := S (i r);
     awaiting := awaiting r |}.

(** [catch (error) { alert(...) } finally { setProcessing(false) }] *)
Definition caught (w : World) : Live :=
  {| now := setProcessing false (alert "Error during conversion" w);
     pending := None |}.

(** The loop test and, when it holds, the body up to its first [await]:
    the item is marked and the array is rendered. *)
Definition enter (r : Run) (w : World) : Live :=
  match updatedImages r !! i r with
  | Some img0 =>
      let imgs1 := <[i r := withStatus Status.processing img0]> (updatedImages r) in
      {| now := setImages imgs1 w;
         pending := Some (at_ fetchFile (withImages imgs1 r)) |}
  | None => {| now := w; pending := Some (at_ generateZip r) |}
  end.

(** The call itself, up to its first [await]. *)
Definition click (loaded : bool) (engine : Engine) (w : World) : Live :=
  if negb loaded || (length (images (ui w)) =? 0)%nat
  then {| now := w; pending := None |}
  else
    let w := setZipUrl None (setProcessing true w) in
    enter {| ffmpeg := engine;
             outputFormat := ImageConverter.outputFormat (ui w);
             quality := ImageConverter.quality (ui w);
             updatedImages := images (ui w); folder := ∅;
             processedCount := 0; i := 0; awaiting := fetchFile |} w.

(** The awaited promise settles and the call runs on to its next
    [await], or to its end.  [img] is [updatedImages[i]], the item that
    the body of the loop is working on. *)
Definition resume (r : Run) (w : World) : Live :=
  let fmt := outputFormat r in
  match awaiting r, updatedImages r !! i r with
  | generateZip, _ =>
      (* setZipUrl(url); finally { setProcessing(false) } *)
      {| now := setProcessing false (setZipUrl (Some (folder r)) w);
         pending := None |}
  | _, None => caught w
  | fetchFile, Some img =>
      {| now := w; pending := Some (at_ writeInput r) |}
  | writeInput, Some img =>
      {| now := setVfs (writeFile (inputNameOf img) (bytes (file img)) (vfs w)) w;
         pending := Some (at_ execute r) |}
  | execute, Some img =>
      let args := planImage fmt (quality r) img
                    (inputNameOf img) (outputNameOf fmt img) in
      match exec (ffmpeg r) args (vfs w) with
      | None => caught w
      | Some fs => {| now := setVfs fs w; pending := Some (at_ readOutput r) |}
      end
  | readOutput, Some img =>
      match readFile (outputNameOf fmt img) (vfs w) with
      | None => caught w
      | Some data =>
          let url := {| blobParts := data; type := "image/" +:+ fmt |} in
          let folder' := <[folderEntryName fmt img := data]> (folder r) in
          let img' := withOutput url (finalName img +:+ "." +:+ fmt)
                        (withStatus Status.done img) in
          let imgs2 := <[i r := img']> (updatedImages r) in
          {| now := setImages imgs2 w;
             pending := Some (at_ deleteInput
                                (withFolder folder' (withImages imgs2 r))) |}
      end
  | deleteInput, Some img =>
      match deleteFile (inputNameOf img) (vfs w) with
      | None => caught w
      | Some fs => {| now := setVfs fs w; pending := Some (at_ deleteOutput r) |}
      end
  | deleteOutput, Some img =>
      match deleteFile (outputNameOf fmt img) (vfs w) with
      | None => caught w
      | Some fs => enter (next r) (setVfs fs w)
      end
  end.

(** The call runs on for [fuel] awaits with nothing in between. *)
Fixpoint settle (fuel : nat) (s : Live) : Live :=
  match fuel with
  | O => s
  | S fuel' =>
      match pending s with
      | None => s
      | Some r => settle fuel' (resume r (now s))
      end
  end.

(** The variables of a run as a frame of the loop, and back. *)
Definition frameOf (r : Run) (w : World) : Frame :=
  {| world := w;
     ImageConverter.updatedImages := updatedImages r;
     ImageConverter.folder := folder r;
     ImageConverter.processedCount := processedCount r |}.

Definition onward (r : Run) (f : Frame) : Run :=
  {| ffmpeg := ffmpeg r; outputFormat := outputFormat r; quality := quality r;
     updatedImages := ImageConverter.updatedImages f;
     folder := ImageConverter.folder f;
     processedCount := ImageConverter.processedCount f;
     i := S (i r); awaiting := awaiting r |}.

(** How the call ends once the loop has completed or thrown. *)
Definition ended (c : Completion Frame) : Live :=
  match c with
  | Normal f =>
      {| now := setProcessing false
                  (setZipUrl (Some (ImageConverter.folder f)) (world f));
         pending := None |}
  | Thrown f => caught (world f)
  end.

End Async.

(* ===================================================================== *)
(** * Sessions, observations and fixtures                                 *)
(* ===================================================================== *)

Module Session.
Import ImageConverter.

(** What can happen to the image queue: the user's actions, and the
    continuation of the pending call of [convertImages] when the promise
    it awaits settles.  The Convert button is disabled while [processing]
    is set or the queue is empty; the discard buttons, the keyword and
    size fields and the drop zone are never disabled. *)
Inductive Op :=
| Enqueue (files : list Upload)
| Discard (i : string)
| Keyword (i : string) (value : string)
| Resize (i : string) (dimension : Dimension) (value : Z)
| Convert (loaded : bool) (engine : Engine)
| Resume.

(** A synchronous handler acts on the component and leaves the pending
    call alone. *)
Definition handled (h : World -> World) (s : Async.Live) : Async.Live :=
  {| Async.now := h (Async.now s); Async.pending := Async.pending s |}.

(** One operation.  A click on Convert reaches [convertImages] only when
    the button is enabled: [disabled={images.length === 0 || processing}]. *)
Definition perform (op : Op) (s : Async.Live) : Async.Live :=
  match op with
  | Enqueue files => handled (processFiles files) s
  | Discard i => handled (removeImage i) s
  | Keyword i value => handled (handleKeywordChange i value) s
  | Resize i dimension value => handled (handleDimensionChange i dimension value) s
  | Convert loaded engine =>
      if (length (images (ui (Async.now s))) =? 0)%nat
         || processing (ui (Async.now s))
      then s
      else Async.click loaded engine (Async.now s)
  | Resume =>
      match Async.pending s with
      | Some r => Async.resume r (Async.now s)
      | None => s
      end
  end.

(** A session: the operations in the order in which they happen, from a
    component with no call in progress. *)
Definition play (ops : list Op) (w : World) : Async.Live :=
  fold_left (fun s op => perform op s) ops
    {| Async.now := w; Async.pending := None |}.

Definition session (ops : list Op) (w : World) : World :=
  Async.now (play ops w).

(** A click on Convert followed by the continuations of a run of [n]
    items that nothing interrupts. *)
Definition uninterrupted (loaded : bool) (engine : Engine) (n : nat) : list Op :=
  Convert loaded engine :: repeat Resume (n * 6 + 1).

(** ** Status changes *)

(** The array whose items a step of a run writes: the [updatedImages] of
    the pending run, or the rendered list when a click starts a run. *)
Definition held (s : Async.Live) : list ImageItem :=
  match Async.pending s with
  | Some r => Async.updatedImages r
  | None => images (ui (Async.now s))
  end.

Definition kept (x y : ImageItem) : Prop :=
  id x = id y /\ status x = status y.

(** While a run is pending: [processing] is set, the item the run is
    converting is marked [processing], and every rendered item has the
    identifier and status of an item of the run's array, or is idle. *)
Definition coherent (s : Async.Live) : Prop :=
  match Async.pending s with
  | Some r =>
      processing (ui (Async.now s)) = true
      /\ (match Async.awaiting r with
          | Async.fetchFile | Async.writeInput | Async.execute | Async.readOutput =>
              exists x, Async.updatedImages r !! Async.i r = Some x
                        /\ status x = Status.processing
          | _ => True
          end)
      /\ Forall (fun y => (exists x, x ∈ Async.updatedImages r /\ kept x y)
                          \/ status y = Status.idle)
                (images (ui (Async.now s)))
  | None => True
  end.

(** One item of the array is written: to [processing], or from
    [processing] to [done]. *)
Definition writes (arr arr' : list ImageItem) : Prop :=
  exists j x y,
    arr !! j = Some x /\ arr' = <[j := y]> arr /\ id y = id x
    /\ (status y = Status.processing
        \/ (status x = Status.processing /\ status y = Status.done)).

(** The claimed discipline, for comparison: no way back from [done] or
    [error], and no way back to [idle]. *)
Definition forwardOnly (a b : Status.t) : Prop :=
  match a, b with
  | Status.idle, _ => True
  | Status.processing, Status.idle => False
  | Status.processing, _ => True
  | Status.done, Status.done => True
  | Status.error, Status.error => True
  | _, _ => False
  end.

End Session.

Module Observe.

(** The value that follows the first occurrence of an option flag. *)
Fixpoint argAfter (flag : string) (args : list string) : option string :=
  match args with
  | [] => None
  | a :: rest =>
      if String.eqb a flag then List.head rest else argAfter flag rest
  end.

(** The values of every occurrence of an option flag, in order. *)
Fixpoint valuesOf (flag : string) (args : list string) : list string :=
  match args with
  | [] => []
  | a :: rest =>
      if String.eqb a flag
      then match rest with
           | v :: rest' => v :: valuesOf flag rest'
           | [] => []
           end
      else valuesOf flag rest
  end.

Fixpoint countChar (c : ascii) (s : string) : nat :=
  match s with
  | EmptyString => 0
  | String c' s' => (if Ascii.eqb c' c then 1 else 0) + countChar c s'
  end.

Definition clamp (x lo hi : Z) : Z := Z.max lo (Z.min x hi).

(** The arguments of the invocation for one queued item. *)
Definition argsFor (outputFormat : string) (quality : Z)
    (img : ImageConverter.ImageItem) : list string :=
  ImageConverter.planImage outputFormat quality img
    (ImageConverter.inputNameOf img)
    (ImageConverter.outputNameOf outputFormat img).

End Observe.

Module Fixtures.
Import ImageConverter.

Definition upload (nm i : string) (w h : Z) : Upload :=
  {| upFile := {| name := nm; bytes := [] |}; upId := i; upW := w; upH := h |}.

Definition item (nm i kw : string) (w h : Z) : ImageItem :=
  withKeyword kw (newImage (upload nm i w h)).

Definition start (l : list ImageItem) (fmt : string) (q : Z) : World :=
  {| ui := {| images := l; outputFormat := fmt; quality := q;
              processing := false; zipUrl := None |};
     vfs := ∅; alerts := []; rendered := [] |}.

(** An engine that converts everything, and one that throws on the
    invocations that mention a given argument. *)
Definition converts : Engine := fun _ => Some [].

Definition throwsOn (arg : string) : Engine :=
  fun args => if existsb (String.eqb arg) args then None else Some [].

(** A queue of three items; the second one carries a keyword. *)
Definition batch3 : list ImageItem :=
  [item "a.b.png" "x1" "" 1920 1080;
   item "photo.png" "x2" "Summer Sale!!" 800 600;
   item "logo.png" "x3" "" 64 64].

Definition statuses (w : World) : list Status.t := map status (images (ui w)).

Definition files (w : World) : list string := map fst (map_to_list (vfs w)).

Definition entries (w : World) : option (list string) :=
  option_map (fun z => map fst (map_to_list z)) (zipUrl (ui w)).

(** Sizes on which the rounding of the model is compared with the
    doubles of the hardware: the same edit evaluated with primitive
    floats. *)
Definition sizes : list Z :=
  [3; 64; 90; 192; 600; 800; 1024; 1125; 1200; 1366].

Definition sameAsHardware (W H v : Z) : bool :=
  let img := item "a.png" "x1" "" W H in
  match Binary64.heightFor W H v, Binary64.widthFor W H v with
  | Some h, Some w =>
      (h =? targetHeight (changeDimension width v img))
      && (w =? targetWidth (changeDimension height v img))
  | _, _ => false
  end.

Definition video (w h : Z) : VideoConverter.Component :=
  {| VideoConverter.outputFormat := "mp4";
     VideoConverter.resolution := "custom";
     VideoConverter.customWidth := w;
     VideoConverter.customHeight := h;
     VideoConverter.aspectRatio := Double.fl (16 # 9);
     VideoConverter.codec := "libx264" |}.

End Fixtures.

Module Steps.
Import ImageConverter.

(** The engine quality for JPEG as the planner's contract words it:
    floor(31 - (q - 1) * 29 / 99), clamped to the range 2..31. *)
Definition jpegQualitySpec (q : Z) : Z :=
  Observe.clamp (Qfloor (31 - inject_Z (q - 1) * 29 / 99)%Q) 2 31.

(** The frame in which the engine is invoked for the item at index [i]:
    the item is marked, the list is rendered, the input file is written. *)
Definition started (i : nat) (img0 : ImageItem) (f : Frame) : Frame :=
  let img := withStatus Status.processing img0 in
  let imgs1 := <[i := img]> (updatedImages f) in
  {| world := setVfs (<[inputNameOf img := bytes (file img)]> (vfs (world f)))
                (setImages imgs1 (world f));
     updatedImages := imgs1; folder := folder f;
     processedCount := processedCount f |}.

(** The item as a successful iteration leaves it. *)
Definition converted (fmt : string) (img0 : ImageItem) (out : list Byte.byte)
    : ImageItem :=
  withOutput {| blobParts := out; type := "image/" +:+ fmt |}
    (finalName img0 +:+ "." +:+ fmt) (withStatus Status.done img0).

(** The frame at the end of a successful iteration at index [i]. *)
Definition finished (i : nat) (img0 : ImageItem) (out : list Byte.byte)
    (f : Frame) : Frame :=
  let fmt := outputFormat (ui (world f)) in
  let imgs1 := <[i := withStatus Status.processing img0]> (updatedImages f) in
  let imgs2 := <[i := converted fmt img0 out]> imgs1 in
  {| world :=
       setVfs (delete (outputNameOf fmt img0)
                 (delete (inputNameOf img0)
                    (<[outputNameOf fmt img0 := out]>
                       (<[inputNameOf img0 := bytes (file img0)]>
                          (vfs (world f))))))
         (setImages imgs2 (setImages imgs1 (world f)));
     updatedImages := imgs2;
     folder := <[folderEntryName fmt img0 := out]> (folder f);
     processedCount := S (processedCount f) |}.

Definition outcome (c : Completion Frame) : Frame :=
  match c with Normal f | Thrown f => f end.

Definition fmtOf (f : Frame) : string := outputFormat (ui (world f)).
Definition qualityOf (f : Frame) : Z := quality (ui (world f)).

(** What a loop that throws at index [k], having started at index [i],
    leaves behind. *)
Definition abortedAt (k : nat) (i : nat) (f f' : Frame) : Prop :=
  length (updatedImages f') = length (updatedImages f)
  /\ images (ui (world f')) = updatedImages f'
  /\ (forall j x, (i <= j < k)%nat -> updatedImages f' !! j = Some x ->
        status x = Status.done)
  /\ (forall j, (j < i \/ k < j)%nat ->
        updatedImages f' !! j = updatedImages f !! j)
  /\ zipUrl (ui (world f')) = zipUrl (ui (world f))
  /\ processing (ui (world f')) = processing (ui (world f))
  /\ alerts (world f') = alerts (world f).

End Steps.

Module Plan.
Import ImageConverter.

(** The three optional groups of the image plan, each as the source
    appends it. *)
Definition scaleArgs (img : ImageItem) : list string :=
  if (targetWidth img =? originalWidth img) && (targetHeight img =? originalHeight img)
  then []
  else ["-vf"; "scale=" +:+ JS.toString (targetWidth img) +:+ ":"
                 +:+ JS.toString (targetHeight img)].

Definition qualityArgs (outputFormat : string) (quality : Z) : list string :=
  if String.eqb outputFormat "jpg" || String.eqb outputFormat "jpeg"
  then ["-q:v"; JS.toString (jpegQuality quality)]
  else if String.eqb outputFormat "webp"
  then ["-quality"; JS.toString quality]
  else [].

Definition metadataArgs (img : ImageItem) : list string :=
  if hasKeyword img
  then flat_map (fun tag => ["-metadata"; tag +:+ "=" +:+ keyword img]) metaTags
  else [].

End Plan.

Module Batch.
Import ImageConverter.

(** What a run in which no invocation throws does to one item, to the
    ZIP folder and to the engine's files. *)
Definition convertItem (engine : Engine) (fmt : string) (q : Z)
    (x : ImageItem) : ImageItem :=
  match engine (Observe.argsFor fmt q x) with
  | Some out => Steps.converted fmt x out
  | None => x
  end.

Definition register (engine : Engine) (fmt : string) (q : Z)
    (z : gmap string (list Byte.byte)) (x : ImageItem)
    : gmap string (list Byte.byte) :=
  match engine (Observe.argsFor fmt q x) with
  | Some out => <[folderEntryName fmt x := out]> z
  | None => z
  end.

(** The ZIP folder after a run in which no invocation throws. *)
Definition bundleOf (engine : Engine) (fmt : string) (q : Z)
    (imgs : list ImageItem) : gmap string (list Byte.byte) :=
  fold_left (register engine fmt q) imgs ∅.

Definition cleaned (fmt : string) (fs : gmap string (list Byte.byte))
    (x : ImageItem) : gmap string (list Byte.byte) :=
  delete (outputNameOf fmt x) (delete (inputNameOf x) fs).

(** The engine converts every item of the list. *)
Definition convertsAll (engine : Engine) (fmt : string) (q : Z)
    (imgs : list ImageItem) : Prop :=
  Forall (fun x => is_Some (engine (Observe.argsFor fmt q x))) imgs.

(** [images.filter(img => img.status !== 'done')] and
    [images.filter(img => img.status === 'done')] *)
Definition activeImages (imgs : list ImageItem) : list ImageItem :=
  List.filter (fun img => negb (Status.eqb (status img) Status.done)) imgs.

Definition completedImages (imgs : list ImageItem) : list ImageItem :=
  List.filter (fun img => Status.eqb (status img) Status.done) imgs.

End Batch.

Module Queue.
Import ImageConverter.

(** What identifies an item and is fixed when it is created. *)
Definition sameSource (x y : ImageItem) : Prop :=
  id x = id y /\ file x = file y
  /\ originalWidth x = originalWidth y /\ originalHeight x = originalHeight y
  /\ aspectRatio x = aspectRatio y.

(** What the plan of an item is computed from. *)
Definition sameRequest (x y : ImageItem) : Prop :=
  sameSource x y /\ keyword x = keyword y
  /\ targetWidth x = targetWidth y /\ targetHeight x = targetHeight y.

(** The characters of a string. *)
Definition chars (s : string) : list ascii := list_ascii_of_string s.

End Queue.

Module VideoPlan.

(** The named resolutions and the height each one fixes. *)
Definition presetHeights : list (string * string) :=
  [("4k", "2160"); ("1440p", "1440"); ("1080p", "1080");
   ("720p", "720"); ("480p", "480"); ("360p", "360")].

Fixpoint heightOf (resolution : string) (table : list (string * string))
    : option string :=
  match table with
  | [] => None
  | (name, h) :: rest =>
      if String.eqb resolution name then Some h else heightOf resolution rest
  end.

(** The filter of the video plan as one table lookup. *)
Definition filterArgs (c : VideoConverter.Component) : list string :=
  if String.eqb (VideoConverter.resolution c) "custom"
  then ["-vf"; "scale="
                 +:+ JS.toString (VideoConverter.evenRound (VideoConverter.customWidth c))
                 +:+ ":"
                 +:+ JS.toString (VideoConverter.evenRound (VideoConverter.customHeight c))]
  else match heightOf (VideoConverter.resolution c) presetHeights with
       | Some h => ["-vf"; "scale=-1:" +:+ h]
       | None => []
       end.

Definition presetArgs (c : VideoConverter.Component) : list string :=
  if String.eqb (VideoConverter.outputFormat c) "mp4"
     && String.eqb (VideoConverter.codec c) "libx264"
  then ["-preset"; "fast"] else [].

End VideoPlan.

Module Page.

(** [prev.slice(-k)]: the last [k] elements, all of them if there are fewer. *)
Definition sliceLast {A} (k : nat) (l : list A) : list A :=
  drop (length l - k) l.

(** The log listener of the page: [setLogs(prev => [...prev.slice(-50), message])]. *)
Definition onLog (logs : list string) (message : string) : list string :=
  sliceLast 50 logs ++ [message].

End Page.

Module Inputs.
Import ImageConverter.

(** The [onChange] of the width and height fields of an item:
    [handleDimensionChange(img.id, 'width', parseInt(e.target.value) || 0)]. *)
Definition onDimensionInput (i : string) (dimension : Dimension) (text : string)
    (w : World) : World :=
  handleDimensionChange i dimension (JS.parseIntOrZero text) w.

(** The value of a string of decimal digits read after [acc]. *)
Fixpoint digitsValue (acc : Z) (d : Decimal.uint) : Z :=
  match d with
  | Decimal.Nil => acc
  | Decimal.D0 d => digitsValue (acc * 10 + 0) d
  | Decimal.D1 d => digitsValue (acc * 10 + 1) d
  | Decimal.D2 d => digitsValue (acc * 10 + 2) d
  | Decimal.D3 d => digitsValue (acc * 10 + 3) d
  | Decimal.D4 d => digitsValue (acc * 10 + 4) d
  | Decimal.D5 d => digitsValue (acc * 10 + 5) d
  | Decimal.D6 d => digitsValue (acc * 10 + 6) d
  | Decimal.D7 d => digitsValue (acc * 10 + 7) d
  | Decimal.D8 d => digitsValue (acc * 10 + 8) d
  | Decimal.D9 d => digitsValue (acc * 10 + 9) d
  end.

End Inputs.

Module Probe.

(** Exactly [k] characters matching [\d] at the head of [s]: those digits
    and what follows them. *)
Fixpoint digits (k : nat) (s : string) : option (string * string) :=
  match k with
  | O => Some (EmptyString, s)
  | S k' =>
      match s with
      | String c s' =>
          if JS.isDigit c
          then match digits k' s' with
               | Some (g, rest) => Some (String c g, rest)
               | None => None
               end
          else None
      | EmptyString => None
      end
  end.

(** One attempt of the group [(\d{2,5})] with [n] digits, followed by the
    rest of the pattern [k]. *)
Definition attempt {R} (k : string -> option R) (n : nat) (s : string)
    : option (string * R) :=
  match digits n s with
  | Some (g, rest) =>
      match k rest with
      | Some r => Some (g, r)
      | None => None
      end
  | None => None
  end.

(** The greedy group [(\d{2,5})]: five digits are tried first, then four,
    three and two. *)
Definition group {R} (k : string -> option R) (s : string) : option (string * R) :=
  match attempt k 5 s with
  | Some m => Some m
  | None =>
      match attempt k 4 s with
      | Some m => Some m
      | None =>
          match attempt k 3 s with
          | Some m => Some m
          | None => attempt k 2 s
          end
      end
  end.

(** The end of the pattern. *)
Definition stop (rest : string) : option unit := Some tt.

(** [x(\d{2,5})] *)
Definition xThenGroup (s : string) : option string :=
  match s with
  | String c rest =>
      if Ascii.eqb c "x"
      then match group stop rest with
           | Some (g2, _) => Some g2
           | None => None
           end
      else None
  | EmptyString => None
  end.

(** [/(\d{2,5})x(\d{2,5})/] at the head of [s]. *)
Definition matchHere (s : string) : option (string * string) :=
  group xThenGroup s.

(** [logOutput.match(/(\d{2,5})x(\d{2,5})/)]: the two groups of the
    leftmost match. *)
Fixpoint resolutionMatch (s : string) : option (string * string) :=
  match matchHere s with
  | Some m => Some m
  | None =>
      match s with
      | EmptyString => None
      | String _ s' => resolutionMatch s'
      end
  end.

Definition setAspectRatio (r : Q) (c : VideoConverter.Component)
    : VideoConverter.Component :=
  {| VideoConverter.outputFormat := VideoConverter.outputFormat c;
     VideoConverter.resolution := VideoConverter.resolution c;
     VideoConverter.customWidth := VideoConverter.customWidth c;
     VideoConverter.customHeight := VideoConverter.customHeight c;
     VideoConverter.aspectRatio := r;
     VideoConverter.codec := VideoConverter.codec c |}.

(** The part of [analyzeVideo] that reads the resolution off the captured
    log and seeds the custom size:
    [if (resolutionMatch) { setAspectRatio(w / h); setCustomWidth(w);
    setCustomHeight(h) }].  Both groups are digits, so [parseInt] never
    gives [NaN] here.  The quotient stands for the source's [w / h] when
    [h] is not zero. *)
Definition seedFromLog (logOutput : string) (c : VideoConverter.Component)
    : VideoConverter.Component :=
  match resolutionMatch logOutput with
  | Some (g1, g2) =>
      match JS.parseInt g1, JS.parseInt g2 with
      | Some w, Some h =>
          VideoConverter.setCustomHeight h
            (VideoConverter.setCustomWidth w
               (setAspectRatio (Double.fl (inject_Z w / inject_Z h)) c))
      | _, _ => c
      end
  | None => c
  end.

Definition allDigits (s : string) : Prop :=
  Forall (fun c => JS.isDigit c = true) (list_ascii_of_string s).

Definition noDigit (s : string) : Prop :=
  Forall (fun c => JS.isDigit c = false) (list_ascii_of_string s).

(** [s] is empty or begins with a character that is not a digit. *)
Definition stopsDigits (s : string) : Prop :=
  match s with
  | EmptyString => True
  | String c _ => JS.isDigit c = false
  end.

End Probe.

Module Samples.
Import ImageConverter.

Definition queue : World := Fixtures.start Fixtures.batch3 "webp" 100.

Definition hero : Upload := Fixtures.upload "hero.png" "x1" 1920 1080.

Definition tagged : ImageItem :=
  Fixtures.item "photo.png" "x2" "Summer Sale!!" 800 600.

End Samples.

Import ImageConverter Observe Fixtures Steps.

(* ===================================================================== *)
(** * Rounding to binary64                                                *)
(* ===================================================================== *)

Lemma pow2_pos (e : Z) : (0 < Double.pow2 e)%Q.
Proof. apply Qpower_0_lt. reflexivity. Qed.

Lemma pow2_add (a b : Z) : (Double.pow2 (a + b) == Double.pow2 a * Double.pow2 b)%Q.
Proof. apply Qpower_plus. discriminate. Qed.

Lemma pow2_succ (e : Z) : (Double.pow2 (e + 1) == 2 * Double.pow2 e)%Q.
Proof. rewrite pow2_add. unfold Double.pow2 at 2. rewrite Qpower_1_r. ring. Qed.

Lemma pow2_Z (e : Z) : 0 <= e -> (Double.pow2 e == inject_Z (2 ^ e))%Q.
Proof. intros H. unfold Double.pow2. now rewrite Zpower_Qpower. Qed.

Lemma pow2_lt_inv (a b : Z) : (Double.pow2 a < Double.pow2 b)%Q -> a < b.
Proof. intros H. eapply Qpower_lt_compat_l_inv; [exact H | reflexivity]. Qed.

Lemma log2_bounds (n : Z) :
  0 < n -> (Double.pow2 (Z.log2 n) <= inject_Z n /\ inject_Z n < 2 * Double.pow2 (Z.log2 n))%Q.
Proof.
  intros Hn. destruct (Z.log2_spec n Hn) as [Hlo Hhi].
  pose proof (Z.log2_nonneg n) as H0.
  split.
  - rewrite pow2_Z by lia. now rewrite <- Zle_Qle.
  - rewrite <- pow2_succ. rewrite pow2_Z by lia. unfold Qlt, inject_Z; cbn [Qnum Qden]; rewrite !Z.mul_1_r.
    now rewrite <- Z.add_1_r in Hhi.
Qed.

Lemma ilog2_spec (x : Q) :
  (0 < x)%Q -> (Double.pow2 (Double.ilog2 x) <= x /\ x < Double.pow2 (Double.ilog2 x + 1))%Q.
Proof.
  intros Hx. destruct x as [n d]. unfold Double.ilog2. cbn [Qnum Qden].
  assert (Hn : 0 < n) by (unfold Qlt in Hx; simpl in Hx; lia).
  destruct (log2_bounds n Hn) as [An An'].
  destruct (log2_bounds (Z.pos d) (Pos2Z.is_pos d)) as [Bd Bd'].
  set (a := Z.log2 n) in *. set (b := Z.log2 (Z.pos d)) in *.
  pose proof (pow2_pos a) as PA. pose proof (pow2_pos b) as PB.
  assert (Ek : (Double.pow2 (a - b) == Double.pow2 a / Double.pow2 b)%Q)
    by (apply Qpower_minus; discriminate).
  assert (Ex : (n # d == inject_Z n / inject_Z (Z.pos d))%Q) by apply Qmake_Qdiv.
  assert (PD : (0 < inject_Z (Z.pos d))%Q) by reflexivity.
  assert (Exd : ((n # d) * inject_Z (Z.pos d) == inject_Z n)%Q).
  { rewrite Ex. field. intros E. rewrite E in PD. now apply Qlt_irrefl in PD. }
  set (x := n # d) in *. set (N := inject_Z n) in *.
  set (D := inject_Z (Z.pos d)) in *. set (A := Double.pow2 a) in *. set (B := Double.pow2 b) in *.
  assert (XB : (x * B <= x * D)%Q).
  { rewrite !(Qmult_comm x). apply Qmult_le_compat_r; [exact Bd | now apply Qlt_le_weak]. }
  assert (XD : (x * D < x * (2 * B))%Q).
  { rewrite !(Qmult_comm x). apply Qmult_lt_compat_r; assumption. }
  destruct (Qle_bool (Double.pow2 (a - b)) x) eqn:E.
  - apply Qle_bool_iff in E. split; [exact E|].
    rewrite pow2_succ, Ek. fold A B.
    assert (Hq : (A / B * B == A)%Q)
      by (field; intros C; rewrite C in PB; now apply Qlt_irrefl in PB).
    set (Qd := (A / B)%Q) in *.
    apply Qnot_le_lt. intros C.
    assert ((2 * Qd) * B <= x * B)%Q by (apply Qmult_le_compat_r; lra).
    lra.
  - assert (E' : (x < Double.pow2 (a - b))%Q).
    { apply Qnot_le_lt. intros C. apply Qle_bool_iff in C. congruence. }
    replace (a - b - 1 + 1) with (a - b) by lia. split; [|exact E'].
    assert (E1 : (Double.pow2 (a - b) == 2 * Double.pow2 (a - b - 1))%Q).
    { rewrite <- pow2_succ. now replace (a - b - 1 + 1) with (a - b) by lia. }
    rewrite Ek in E1. fold A B in E1.
    assert (E2 : (Double.pow2 (a - b - 1) == A / (2 * B))%Q).
    { assert (A / B == 2 * (A / (2 * B)))%Q
        by (field; intros C; rewrite C in PB; now apply Qlt_irrefl in PB).
      lra. }
    rewrite E2. apply Qle_shift_div_r; lra.
Qed.

Lemma nearestEven_near (x : Q) :
  (Qabs (inject_Z (Double.nearestEven x) - x) <= 1 # 2)%Q.
Proof.
  unfold Double.nearestEven.
  pose proof (Qfloor_le x) as Hlo. pose proof (Qlt_floor x) as Hhi.
  rewrite inject_Z_plus in Hhi. change (inject_Z 1) with 1%Q in Hhi.
  destruct (x - inject_Z (Qfloor x) ?= 1 # 2)%Q eqn:E.
  - apply Qeq_alt in E.
    destruct (Z.even (Qfloor x)); [|rewrite inject_Z_plus; change (inject_Z 1) with 1%Q];
      set (f := inject_Z (Qfloor x)) in *; apply Qabs_case; intros _; lra.
  - apply Qlt_alt in E. set (f := inject_Z (Qfloor x)) in *.
    apply Qabs_case; intros _; lra.
  - apply Qgt_alt in E. rewrite inject_Z_plus; change (inject_Z 1) with 1%Q.
    set (f := inject_Z (Qfloor x)) in *. apply Qabs_case; intros _; lra.
Qed.

Lemma nearestEven_comp (x y : Q) :
  (x == y)%Q -> Double.nearestEven x = Double.nearestEven y.
Proof.
  intros E. unfold Double.nearestEven. rewrite (Qfloor_comp x y E).
  assert (E2 : (x - inject_Z (Qfloor y) == y - inject_Z (Qfloor y))%Q)
    by (rewrite E; reflexivity).
  now rewrite (Qcompare_comp _ _ E2 _ _ (Qeq_refl (1 # 2))).
Qed.

Lemma nearestEven_Z (k : Z) : Double.nearestEven (inject_Z k) = k.
Proof.
  unfold Double.nearestEven. rewrite Qfloor_Z.
  assert (E : (inject_Z k - inject_Z k ?= 1 # 2)%Q = Lt).
  { apply Qlt_alt. setoid_replace (inject_Z k - inject_Z k)%Q with 0%Q using relation Qeq by ring.
    reflexivity. }
  now rewrite E.
Qed.

Ltac hide_pow2 :=
  repeat match goal with
  | |- context [Double.pow2 ?e] => let p := fresh "p" in set (p := Double.pow2 e) in *
  | H : context [Double.pow2 ?e] |- _ => let p := fresh "p" in set (p := Double.pow2 e) in *
  end.

Lemma quantum_normal (x : Q) :
  (Double.pow2 (-1022) <= Qabs x)%Q -> Double.quantum x = Double.ilog2 (Qabs x) - 52.
Proof.
  intros H. unfold Double.quantum.
  assert (P : (0 < Qabs x)%Q) by (pose proof (pow2_pos (-1022)); hide_pow2; lra).
  destruct (ilog2_spec _ P) as [_ Hhi].
  assert (-1022 < Double.ilog2 (Qabs x) + 1) by (apply pow2_lt_inv; hide_pow2; lra).
  lia.
Qed.

(** The relative error of rounding in the normal range. *)
Lemma fl_error (x : Q) :
  (Double.pow2 (-1022) <= Qabs x)%Q -> (Qabs (Double.fl x - x) <= Double.u * Qabs x)%Q.
Proof.
  intros H.
  assert (P : (0 < Qabs x)%Q) by (pose proof (pow2_pos (-1022)); hide_pow2; lra).
  unfold Double.fl. destruct (Qeq_bool x 0) eqn:E0.
  { apply Qeq_bool_iff in E0. rewrite E0 in P. now apply Qlt_irrefl in P. }
  rewrite (quantum_normal x H).
  destruct (ilog2_spec _ P) as [Hlo _].
  set (e := Double.ilog2 (Qabs x) - 52).
  replace (Double.ilog2 (Qabs x)) with (e + 52) in Hlo by (unfold e; lia).
  rewrite pow2_add in Hlo.
  pose proof (pow2_pos e) as Pe.
  pose proof (nearestEven_near (x / Double.pow2 e)) as Hn.
  set (m := inject_Z (Double.nearestEven (x / Double.pow2 e))) in *.
  set (p := Double.pow2 e) in *.
  assert (E : (m * p - x == (m - x / p) * p)%Q)
    by (field; intros C; rewrite C in Pe; now apply Qlt_irrefl in Pe).
  rewrite E, Qabs_Qmult, (Qabs_pos p) by lra.
  assert (Hm : (Qabs (m - x / p) * p <= (1 # 2) * p)%Q)
    by (apply Qmult_le_compat_r; lra).
  assert (E52 : (Double.pow2 52 == 4503599627370496)%Q) by reflexivity.
  rewrite E52 in Hlo. unfold Double.u.
  set (ax := Qabs x) in *. lra.
Qed.

Lemma fl_pos (x : Q) :
  (Double.pow2 (-1022) <= x)%Q ->
  (x * (1 - Double.u) <= Double.fl x <= x * (1 + Double.u))%Q.
Proof.
  intros H. pose proof (pow2_pos (-1022)) as P.
  assert (Ax : (Qabs x == x)%Q) by (apply Qabs_pos; lra).
  pose proof (fl_error x) as E. rewrite Ax in E. specialize (E H).
  apply Qabs_Qle_condition in E. lra.
Qed.

Lemma fl_of_zero (x : Q) : (x == 0)%Q -> Double.fl x = 0%Q.
Proof. intros E. unfold Double.fl. apply Qeq_bool_iff in E. now rewrite E. Qed.

(** Integers below 2^53 in magnitude are binary64 values. *)
Lemma fl_integer (n : Z) :
  - 2 ^ 53 < n < 2 ^ 53 -> (Double.fl (inject_Z n) == inject_Z n)%Q.
Proof.
  intros Hn. unfold Double.fl. destruct (Qeq_bool (inject_Z n) 0) eqn:E0.
  { apply Qeq_bool_iff in E0. now rewrite E0. }
  assert (N0 : n <> 0).
  { intros ->. discriminate E0. }
  assert (Ea : Qabs (inject_Z n) = inject_Z (Z.abs n)) by reflexivity.
  assert (P : (0 < Qabs (inject_Z n))%Q).
  { rewrite Ea. unfold Qlt, inject_Z; cbn [Qnum Qden]. lia. }
  destruct (ilog2_spec _ P) as [Hlo Hhi].
  assert (H53 : (Qabs (inject_Z n) < Double.pow2 53)%Q).
  { rewrite Ea, pow2_Z by lia. unfold Qlt, inject_Z; cbn [Qnum Qden]. lia. }
  assert (H1 : (Double.pow2 0 <= Qabs (inject_Z n))%Q).
  { rewrite Ea. change (Double.pow2 0) with 1%Q. unfold Qle, inject_Z; cbn [Qnum Qden]. lia. }
  assert (La : Double.ilog2 (Qabs (inject_Z n)) < 53) by (apply pow2_lt_inv; hide_pow2; lra).
  assert (Lb : 0 < Double.ilog2 (Qabs (inject_Z n)) + 1) by (apply pow2_lt_inv; hide_pow2; lra).
  assert (Eq : Double.quantum (inject_Z n) = Double.ilog2 (Qabs (inject_Z n)) - 52)
    by (unfold Double.quantum; lia).
  rewrite Eq. set (e := Double.ilog2 (Qabs (inject_Z n)) - 52).
  assert (He : -52 <= e <= 0) by (unfold e; lia).
  pose proof (pow2_pos e) as Pe.
  assert (Ep : (Double.pow2 e * Double.pow2 (- e) == 1)%Q).
  { rewrite <- pow2_add. now replace (e + - e) with 0 by lia. }
  assert (Ex : (inject_Z n / Double.pow2 e == inject_Z (n * 2 ^ (- e)))%Q).
  { rewrite inject_Z_mult, <- pow2_Z by lia.
    assert (inject_Z n / Double.pow2 e == inject_Z n * (Double.pow2 e * Double.pow2 (- e)) / Double.pow2 e)%Q
      by (rewrite Ep; field; intros C; rewrite C in Pe; now apply Qlt_irrefl in Pe).
    rewrite H. field. intros C; rewrite C in Pe; now apply Qlt_irrefl in Pe. }
  rewrite (nearestEven_comp _ _ Ex), nearestEven_Z.
  rewrite inject_Z_mult, <- pow2_Z by lia.
  rewrite <- Qmult_assoc, (Qmult_comm (Double.pow2 (- e))), Ep. ring.
Qed.

Lemma integer_exact (n : Z) : - 2 ^ 53 < n < 2 ^ 53 -> Double.integer n = n.
Proof.
  intros H. unfold Double.integer. rewrite (Qfloor_comp _ _ (fl_integer n H)).
  apply Qfloor_Z.
Qed.

Lemma inject_lt (a b : Z) : (inject_Z a < inject_Z b)%Q -> a < b.
Proof. unfold Qlt, inject_Z; cbn [Qnum Qden]. lia. Qed.

Lemma round_bounds (y : Q) :
  (inject_Z (JS.round y) <= y + (1 # 2) /\ y + (1 # 2) < inject_Z (JS.round y) + 1)%Q.
Proof.
  unfold JS.round. split; [apply Qfloor_le|].
  pose proof (Qlt_floor (y + (1 # 2))) as H.
  rewrite inject_Z_plus in H. exact H.
Qed.

(** [n = round y] is within one half of [a / b] when [y * b] is within
    one half of [a]: the Double.integer form of the bound. *)
Lemma round_within (a b : Z) (y : Q) :
  0 < b ->
  (Qabs (2 * (y * inject_Z b - inject_Z a)) < 1)%Q ->
  2 * a - b <= 2 * JS.round y * b <= 2 * a + b.
Proof.
  intros Hb Hy. destruct (round_bounds y) as [Hlo Hhi].
  set (n := JS.round y) in *.
  assert (Pb : (0 < inject_Z b)%Q) by (unfold Qlt, inject_Z; cbn [Qnum Qden]; lia).
  assert (L : (inject_Z n * inject_Z b <= (y + (1 # 2)) * inject_Z b)%Q)
    by (apply Qmult_le_compat_r; lra).
  assert (R : ((y + (1 # 2)) * inject_Z b < (inject_Z n + 1) * inject_Z b)%Q)
    by (apply Qmult_lt_compat_r; lra).
  assert (Hy' : (-1 < 2 * (y * inject_Z b - inject_Z a) < 1)%Q).
  { revert Hy. apply Qabs_case; intros; lra. }
  split.
  - assert (2 * a < 2 * n * b + b + 1); [|lia].
    apply inject_lt. rewrite !inject_Z_plus, !inject_Z_mult.
    change (inject_Z 2) with 2%Q. change (inject_Z 1) with 1%Q.
    set (nn := inject_Z n) in *. set (bb := inject_Z b) in *.
    set (aa := inject_Z a) in *. lra.
  - assert (2 * n * b < 2 * a + b + 1); [|lia].
    apply inject_lt. rewrite !inject_Z_plus, !inject_Z_mult.
    change (inject_Z 2) with 2%Q. change (inject_Z 1) with 1%Q.
    set (nn := inject_Z n) in *. set (bb := inject_Z b) in *.
    set (aa := inject_Z a) in *. lra.
Qed.

(** The size that [Math.round(v / r)] yields when [r] is the double
    nearest to [W / H]: with [y] the double nearest to [v / r], the product
    [y * W] is within one quarter of [v * H]. *)
Lemma quotient_error (W H v : Z) (r y : Q) :
  0 < W -> 0 < H -> - 2 ^ 50 <= v * H <= 2 ^ 50 ->
  (inject_Z W * (1 - Double.u) <= r * inject_Z H <= inject_Z W * (1 + Double.u))%Q ->
  (Qabs (y * r - inject_Z v) <= Double.u * Qabs (inject_Z v))%Q ->
  (Qabs (2 * (y * inject_Z W - inject_Z (v * H))) < 1)%Q.
Proof.
  intros HW HH Hv Hr Hy.
  assert (PW : (1 <= inject_Z W)%Q) by (unfold Qle, inject_Z; cbn [Qnum Qden]; lia).
  assert (PH : (1 <= inject_Z H)%Q) by (unfold Qle, inject_Z; cbn [Qnum Qden]; lia).
  assert (Bv : (- inject_Z (2 ^ 50) <= inject_Z (v * H) <= inject_Z (2 ^ 50))%Q).
  { split; [rewrite <- inject_Z_opp|]; rewrite <- Zle_Qle; lia. }
  rewrite inject_Z_mult in *. change (inject_Z (2 ^ 50)) with 1125899906842624%Q in Bv.
  set (w := inject_Z W) in *. set (h := inject_Z H) in *. set (vv := inject_Z v) in *.
  unfold Double.u in *.
  assert (Pr : (0 < r)%Q).
  { apply Qnot_le_lt. intros C.
    assert (r * h <= 0 * h)%Q by (apply Qmult_le_compat_r; lra). lra. }
  assert (Ey : (y * r * h == y * (r * h))%Q) by ring.
  destruct (Qlt_le_dec vv 0) as [Neg | Pos].
  - rewrite (Qabs_neg vv) in Hy by lra.
    apply Qabs_Qle_condition in Hy.
    assert (Ny : (y <= 0)%Q).
    { apply Qnot_lt_le. intros C.
      assert (0 * r < y * r)%Q by (apply Qmult_lt_compat_r; lra). lra. }
    assert (G1 : (y * r * h <= (vv * (1 - (1 # 9007199254740992))) * h)%Q)
      by (apply Qmult_le_compat_r; lra).
    assert (G2 : ((vv * (1 + (1 # 9007199254740992))) * h <= y * r * h)%Q)
      by (apply Qmult_le_compat_r; lra).
    assert (G3 : ((- y) * (w * (1 - (1 # 9007199254740992))) <= (- y) * (r * h))%Q).
    { rewrite !(Qmult_comm (- y)). apply Qmult_le_compat_r; lra. }
    assert (G4 : ((- y) * (r * h) <= (- y) * (w * (1 + (1 # 9007199254740992))))%Q).
    { rewrite !(Qmult_comm (- y)). apply Qmult_le_compat_r; lra. }
    set (P := (y * (r * h))%Q) in *. set (YW := (y * w)%Q).
    set (VH := (vv * h)%Q) in *.
    assert (E3 : (- y * (w * (1 - (1 # 9007199254740992)))
                  == - YW * (1 - (1 # 9007199254740992)))%Q) by (unfold YW; ring).
    assert (E4 : (- y * (w * (1 + (1 # 9007199254740992)))
                  == - YW * (1 + (1 # 9007199254740992)))%Q) by (unfold YW; ring).
    assert (E5 : (- y * (r * h) == - P)%Q) by (unfold P; ring).
    assert (E1 : (vv * (1 - (1 # 9007199254740992)) * h
                  == VH * (1 - (1 # 9007199254740992)))%Q) by (unfold VH; ring).
    assert (E2 : (vv * (1 + (1 # 9007199254740992)) * h
                  == VH * (1 + (1 # 9007199254740992)))%Q) by (unfold VH; ring).
    rewrite Ey in G1, G2. fold P in G1, G2.
    rewrite E1 in G1. rewrite E2 in G2. rewrite E3, E5 in G3. rewrite E5, E4 in G4.
    apply Qabs_case; intros _; lra.
  - rewrite (Qabs_pos vv) in Hy by lra.
    apply Qabs_Qle_condition in Hy.
    assert (Ny : (0 <= y)%Q).
    { apply Qnot_lt_le. intros C.
      assert (y * r < 0 * r)%Q by (apply Qmult_lt_compat_r; lra). lra. }
    assert (G1 : (y * r * h <= (vv * (1 + (1 # 9007199254740992))) * h)%Q)
      by (apply Qmult_le_compat_r; lra).
    assert (G2 : ((vv * (1 - (1 # 9007199254740992))) * h <= y * r * h)%Q)
      by (apply Qmult_le_compat_r; lra).
    assert (G3 : (y * (w * (1 - (1 # 9007199254740992))) <= y * (r * h))%Q).
    { rewrite !(Qmult_comm y). apply Qmult_le_compat_r; lra. }
    assert (G4 : (y * (r * h) <= y * (w * (1 + (1 # 9007199254740992))))%Q).
    { rewrite !(Qmult_comm y). apply Qmult_le_compat_r; lra. }
    set (P := (y * (r * h))%Q) in *. set (YW := (y * w)%Q).
    set (VH := (vv * h)%Q) in *.
    assert (E3 : (y * (w * (1 - (1 # 9007199254740992)))
                  == YW * (1 - (1 # 9007199254740992)))%Q) by (unfold YW; ring).
    assert (E4 : (y * (w * (1 + (1 # 9007199254740992)))
                  == YW * (1 + (1 # 9007199254740992)))%Q) by (unfold YW; ring).
    assert (E1 : (vv * (1 - (1 # 9007199254740992)) * h
                  == VH * (1 - (1 # 9007199254740992)))%Q) by (unfold VH; ring).
    assert (E2 : (vv * (1 + (1 # 9007199254740992)) * h
                  == VH * (1 + (1 # 9007199254740992)))%Q) by (unfold VH; ring).
    rewrite Ey in G1, G2. fold P in G1, G2.
    rewrite E2 in G1. rewrite E1 in G2. rewrite E3 in G3. rewrite E4 in G4.
    apply Qabs_case; intros _; lra.
Qed.

(** The same for [Math.round(v * r)]: with [y] the double nearest to
    [v * r], the product [y * H] is within one quarter of [v * W]. *)
Lemma product_error (W H v : Z) (r y : Q) :
  0 < W -> 0 < H -> - 2 ^ 50 <= v * W <= 2 ^ 50 ->
  (inject_Z W * (1 - Double.u) <= r * inject_Z H <= inject_Z W * (1 + Double.u))%Q ->
  (Qabs (y - inject_Z v * r) <= Double.u * Qabs (inject_Z v * r))%Q ->
  (Qabs (2 * (y * inject_Z H - inject_Z (v * W))) < 1)%Q.
Proof.
  intros HW HH Hv Hr Hy.
  assert (PW : (1 <= inject_Z W)%Q) by (unfold Qle, inject_Z; cbn [Qnum Qden]; lia).
  assert (PH : (1 <= inject_Z H)%Q) by (unfold Qle, inject_Z; cbn [Qnum Qden]; lia).
  assert (Bv : (- inject_Z (2 ^ 50) <= inject_Z (v * W) <= inject_Z (2 ^ 50))%Q).
  { split; [rewrite <- inject_Z_opp|]; rewrite <- Zle_Qle; lia. }
  rewrite inject_Z_mult in *. change (inject_Z (2 ^ 50)) with 1125899906842624%Q in Bv.
  set (w := inject_Z W) in *. set (h := inject_Z H) in *. set (vv := inject_Z v) in *.
  unfold Double.u in *.
  assert (Pr : (0 < r)%Q).
  { apply Qnot_le_lt. intros C.
    assert (r * h <= 0 * h)%Q by (apply Qmult_le_compat_r; lra). lra. }
  destruct (Qlt_le_dec vv 0) as [Neg | Pos].
  - assert (Nvr : (vv * r <= 0)%Q).
    { assert (vv * r <= 0 * r)%Q by (apply Qmult_le_compat_r; lra). lra. }
    rewrite (Qabs_neg (vv * r)) in Hy by exact Nvr.
    apply Qabs_Qle_condition in Hy.
    assert (G1 : (y * h <= (vv * r * (1 - (1 # 9007199254740992))) * h)%Q)
      by (apply Qmult_le_compat_r; lra).
    assert (G2 : ((vv * r * (1 + (1 # 9007199254740992))) * h <= y * h)%Q)
      by (apply Qmult_le_compat_r; lra).
    assert (G3 : ((- vv) * (w * (1 - (1 # 9007199254740992))) <= (- vv) * (r * h))%Q).
    { rewrite !(Qmult_comm (- vv)). apply Qmult_le_compat_r; lra. }
    assert (G4 : ((- vv) * (r * h) <= (- vv) * (w * (1 + (1 # 9007199254740992))))%Q).
    { rewrite !(Qmult_comm (- vv)). apply Qmult_le_compat_r; lra. }
    set (T := (vv * (r * h))%Q). set (YH := (y * h)%Q) in *.
    set (VW := (vv * w)%Q) in *.
    assert (E1 : (vv * r * (1 - (1 # 9007199254740992)) * h
                  == T * (1 - (1 # 9007199254740992)))%Q) by (unfold T; ring).
    assert (E2 : (vv * r * (1 + (1 # 9007199254740992)) * h
                  == T * (1 + (1 # 9007199254740992)))%Q) by (unfold T; ring).
    assert (E3 : (- vv * (w * (1 - (1 # 9007199254740992)))
                  == - VW * (1 - (1 # 9007199254740992)))%Q) by (unfold VW; ring).
    assert (E4 : (- vv * (w * (1 + (1 # 9007199254740992)))
                  == - VW * (1 + (1 # 9007199254740992)))%Q) by (unfold VW; ring).
    assert (E5 : (- vv * (r * h) == - T)%Q) by (unfold T; ring).
    rewrite E1 in G1. rewrite E2 in G2. rewrite E3, E5 in G3. rewrite E5, E4 in G4.
    apply Qabs_case; intros _; lra.
  - assert (Nvr : (0 <= vv * r)%Q).
    { assert (0 * r <= vv * r)%Q by (apply Qmult_le_compat_r; lra). lra. }
    rewrite (Qabs_pos (vv * r)) in Hy by exact Nvr.
    apply Qabs_Qle_condition in Hy.
    assert (G1 : (y * h <= (vv * r * (1 + (1 # 9007199254740992))) * h)%Q)
      by (apply Qmult_le_compat_r; lra).
    assert (G2 : ((vv * r * (1 - (1 # 9007199254740992))) * h <= y * h)%Q)
      by (apply Qmult_le_compat_r; lra).
    assert (G3 : (vv * (w * (1 - (1 # 9007199254740992))) <= vv * (r * h))%Q).
    { rewrite !(Qmult_comm vv). apply Qmult_le_compat_r; lra. }
    assert (G4 : (vv * (r * h) <= vv * (w * (1 + (1 # 9007199254740992))))%Q).
    { rewrite !(Qmult_comm vv). apply Qmult_le_compat_r; lra. }
    set (T := (vv * (r * h))%Q) in *. set (YH := (y * h)%Q) in *.
    set (VW := (vv * w)%Q) in *.
    assert (E1 : (vv * r * (1 - (1 # 9007199254740992)) * h
                  == T * (1 - (1 # 9007199254740992)))%Q) by (unfold T; ring).
    assert (E2 : (vv * r * (1 + (1 # 9007199254740992)) * h
                  == T * (1 + (1 # 9007199254740992)))%Q) by (unfold T; ring).
    assert (E3 : (vv * (w * (1 - (1 # 9007199254740992)))
                  == VW * (1 - (1 # 9007199254740992)))%Q) by (unfold VW; ring).
    assert (E4 : (vv * (w * (1 + (1 # 9007199254740992)))
                  == VW * (1 + (1 # 9007199254740992)))%Q) by (unfold VW; ring).
    rewrite E2 in G1. rewrite E1 in G2. rewrite E3 in G3. rewrite E4 in G4.
    apply Qabs_case; intros _; lra.
Qed.

(** The double nearest to the ratio of two sizes. *)
Lemma ratio_error (W H : Z) :
  0 < W <= 2 ^ 25 -> 0 < H <= 2 ^ 25 ->
  (inject_Z W * (1 - Double.u) <= Double.fl (inject_Z W / inject_Z H) * inject_Z H
     <= inject_Z W * (1 + Double.u))%Q.
Proof.
  intros HW HH.
  assert (PW : (1 <= inject_Z W <= inject_Z (2 ^ 25))%Q)
    by (split; unfold Qle, inject_Z; cbn [Qnum Qden]; lia).
  assert (PH : (1 <= inject_Z H <= inject_Z (2 ^ 25))%Q)
    by (split; unfold Qle, inject_Z; cbn [Qnum Qden]; lia).
  change (inject_Z (2 ^ 25)) with 33554432%Q in *.
  set (w := inject_Z W) in *. set (h := inject_Z H) in *.
  assert (Eq : (w / h * h == w)%Q) by (field; lra).
  assert (Lo : (Double.pow2 (-1022) <= w / h)%Q).
  { apply Qle_trans with (1 # 33554432)%Q; [vm_compute; discriminate|].
    apply Qle_shift_div_l; lra. }
  destruct (fl_pos _ Lo) as [A B].
  set (r := Double.fl (w / h)) in *. set (x := (w / h)%Q) in *.
  unfold Double.u in *.
  assert (A' : (x * (1 - (1 # 9007199254740992)) * h <= r * h)%Q)
    by (apply Qmult_le_compat_r; lra).
  assert (B' : (r * h <= x * (1 + (1 # 9007199254740992)) * h)%Q)
    by (apply Qmult_le_compat_r; lra).
  assert (E1 : (x * (1 - (1 # 9007199254740992)) * h
                == (x * h) * (1 - (1 # 9007199254740992)))%Q) by ring.
  assert (E2 : (x * (1 + (1 # 9007199254740992)) * h
                == (x * h) * (1 + (1 # 9007199254740992)))%Q) by ring.
  rewrite E1 in A'. rewrite E2 in B'. rewrite Eq in A', B'. lra.
Qed.

Lemma width_edit_near (W H v : Z) :
  0 < W <= 2 ^ 25 -> 0 < H <= 2 ^ 25 -> - 2 ^ 25 <= v <= 2 ^ 25 ->
  2 * (v * H) - W
    <= 2 * JS.round (Double.fl (inject_Z v / Double.fl (inject_Z W / inject_Z H))) * W
    <= 2 * (v * H) + W.
Proof.
  intros HW HH Hv.
  pose proof (ratio_error W H HW HH) as Hr.
  assert (PW : (1 <= inject_Z W <= inject_Z (2 ^ 25))%Q)
    by (split; unfold Qle, inject_Z; cbn [Qnum Qden]; lia).
  assert (PH : (1 <= inject_Z H <= inject_Z (2 ^ 25))%Q)
    by (split; unfold Qle, inject_Z; cbn [Qnum Qden]; lia).
  change (inject_Z (2 ^ 25)) with 33554432%Q in *.
  set (r := Double.fl (inject_Z W / inject_Z H)) in *.
  assert (Pr : (0 < r <= 67108864)%Q).
  { unfold Double.u in Hr. set (w := inject_Z W) in *. set (h := inject_Z H) in *. split.
    - apply Qnot_le_lt. intros C.
      assert (r * h <= 0 * h)%Q by (apply Qmult_le_compat_r; lra). lra.
    - apply Qnot_lt_le. intros C.
      assert (67108864 * 1 <= r * h)%Q; [|lra].
      apply Qle_trans with (r * 1)%Q; [lra|].
      rewrite !(Qmult_comm r). apply Qmult_le_compat_r; lra. }
  apply round_within; [lia|].
  apply quotient_error with (r := r); [lia | lia | nia | exact Hr |].
  destruct (Z.eq_dec v 0) as [-> | Nv].
  - assert (E0 : (inject_Z 0 / r == 0)%Q) by (unfold Qdiv; ring).
    unfold Double.fl. apply Qeq_bool_iff in E0. rewrite E0.
    change (inject_Z 0) with 0%Q. rewrite Qmult_0_l.
    change (0 - 0)%Q with 0%Q. change (Qabs 0) with 0%Q. unfold Double.u. lra.
  - assert (Av : (1 <= Qabs (inject_Z v))%Q).
    { change (Qabs (inject_Z v)) with (inject_Z (Z.abs v)).
      unfold Qle, inject_Z; cbn [Qnum Qden]. lia. }
    assert (Eabs : (Qabs (inject_Z v / r) == Qabs (inject_Z v) / r)%Q).
    { unfold Qdiv. rewrite Qabs_Qmult, (Qabs_pos (/ r)); [reflexivity|].
      apply Qlt_le_weak, Qinv_lt_0_compat. lra. }
    assert (Lo : (Double.pow2 (-1022) <= Qabs (inject_Z v / r))%Q).
    { rewrite Eabs. apply Qle_trans with (1 # 67108864)%Q; [vm_compute; discriminate|].
      apply Qle_shift_div_l; lra. }
    pose proof (fl_error _ Lo) as E. rewrite Eabs in E.
    set (y := Double.fl (inject_Z v / r)) in *.
    assert (Ey : (y * r - inject_Z v == (y - inject_Z v / r) * r)%Q) by (field; lra).
    rewrite Ey, Qabs_Qmult, (Qabs_pos r) by lra.
    assert (E' : (Qabs (y - inject_Z v / r) * r <= Double.u * (Qabs (inject_Z v) / r) * r)%Q)
      by (apply Qmult_le_compat_r; lra).
    assert (E2 : (Double.u * (Qabs (inject_Z v) / r) * r == Double.u * Qabs (inject_Z v))%Q)
      by (field; lra).
    now rewrite E2 in E'.
Qed.

Lemma height_edit_near (W H v : Z) :
  0 < W <= 2 ^ 25 -> 0 < H <= 2 ^ 25 -> - 2 ^ 25 <= v <= 2 ^ 25 ->
  2 * (v * W) - H
    <= 2 * JS.round (Double.fl (inject_Z v * Double.fl (inject_Z W / inject_Z H))) * H
    <= 2 * (v * W) + H.
Proof.
  intros HW HH Hv.
  pose proof (ratio_error W H HW HH) as Hr.
  assert (PW : (1 <= inject_Z W <= inject_Z (2 ^ 25))%Q)
    by (split; unfold Qle, inject_Z; cbn [Qnum Qden]; lia).
  assert (PH : (1 <= inject_Z H <= inject_Z (2 ^ 25))%Q)
    by (split; unfold Qle, inject_Z; cbn [Qnum Qden]; lia).
  change (inject_Z (2 ^ 25)) with 33554432%Q in *.
  set (r := Double.fl (inject_Z W / inject_Z H)) in *.
  assert (Pr : ((1 # 67108864) <= r)%Q).
  { unfold Double.u in Hr. set (w := inject_Z W) in *. set (h := inject_Z H) in *.
    apply Qnot_lt_le. intros C.
    assert (r * h <= (1 # 67108864) * h)%Q by (apply Qmult_le_compat_r; lra). lra. }
  apply round_within; [lia|].
  apply product_error with (r := r); [lia | lia | nia | exact Hr |].
  destruct (Z.eq_dec v 0) as [-> | Nv].
  - assert (E0 : (inject_Z 0 * r == 0)%Q) by (change (inject_Z 0) with 0%Q; ring).
    unfold Double.fl. pose proof E0 as E0'. apply Qeq_bool_iff in E0'. rewrite E0'.
    rewrite E0. change (0 - 0)%Q with 0%Q. change (Qabs 0) with 0%Q. unfold Double.u. lra.
  - assert (Av : (1 <= Qabs (inject_Z v))%Q).
    { change (Qabs (inject_Z v)) with (inject_Z (Z.abs v)).
      unfold Qle, inject_Z; cbn [Qnum Qden]. lia. }
    apply fl_error. rewrite Qabs_Qmult, (Qabs_pos r) by lra.
    apply Qle_trans with (1 # 67108864)%Q; [vm_compute; discriminate|].
    apply Qle_trans with (1 * r)%Q; [lra|].
    apply Qmult_le_compat_r; lra.
Qed.

(** On integers around the limits of the format, [Double] gives what
    the hardware gives: for the conversion of an integer, for every
    quotient of two of them (subnormal ones included), and for products
    with such quotients. *)
Lemma rounding_matches_the_hardware :
  forallb Binary64.sameInteger Binary64.samples = true
  /\ forallb (fun a => forallb (Binary64.sameQuotient a) Binary64.samples)
             Binary64.samples = true
  /\ forallb (fun a => forallb (fun b => forallb (Binary64.sameProduct a b)
                                            [3; 1025; 99999])
                               Binary64.samples)
             [1; 7; 9007199254740991] = true.
Proof.
  split; [vm_compute; reflexivity|]. split; vm_compute; reflexivity.
Qed.

(** The integer form of a distance of at most one half. *)
Lemma within_half (a b n : Z) :
  0 < b -> 2 * a - b <= 2 * n * b <= 2 * a + b ->
  (Qabs (inject_Z n - inject_Z a / inject_Z b) <= 1 # 2)%Q.
Proof.
  intros Hb [Hlo Hhi].
  assert (Pb : (0 < inject_Z b)%Q) by (unfold Qlt, inject_Z; cbn [Qnum Qden]; lia).
  assert (Lo : (inject_Z (2 * a - b) <= inject_Z (2 * n * b))%Q)
    by (unfold Qle, inject_Z; cbn [Qnum Qden]; lia).
  assert (Hi : (inject_Z (2 * n * b) <= inject_Z (2 * a + b))%Q)
    by (unfold Qle, inject_Z; cbn [Qnum Qden]; lia).
  unfold Z.sub in Lo. rewrite !inject_Z_plus, !inject_Z_mult in Lo, Hi.
  rewrite inject_Z_opp in Lo. change (inject_Z 2) with 2%Q in *.
  assert (E : (inject_Z a / inject_Z b * inject_Z b == inject_Z a)%Q) by (field; lra).
  set (x := (inject_Z a / inject_Z b)%Q) in *.
  set (nn := inject_Z n) in *. set (bb := inject_Z b) in *. set (aa := inject_Z a) in *.
  clearbody x nn bb aa.
  apply Qabs_case; intros _.
  - apply Qnot_lt_le. intros C.
    assert (((1 # 2) + x) * bb < nn * bb)%Q by (apply Qmult_lt_compat_r; lra). lra.
  - apply Qnot_lt_le. intros C.
    assert (nn * bb < (x - (1 # 2)) * bb)%Q by (apply Qmult_lt_compat_r; lra). lra.
Qed.

(* ===================================================================== *)
(** * Numbers: quality mapping, rounding, parsing                         *)
(* ===================================================================== *)

Lemma Qfloor_frac (n : Z) (d : positive) : Qfloor (n # d) = n / Z.pos d.
Proof. reflexivity. Qed.

Lemma jpegQuality_div (q : Z) : jpegQuality q = Z.max 2 ((3098 - 29 * q) / 99).
Proof.
  unfold jpegQuality, JS.max, JS.floor. f_equal.
  assert (E : (31 - inject_Z ((q - 1) * 29) / 99 == (3098 - 29 * q) # 99)%Q).
  { unfold Qeq, Qminus, Qdiv, Qplus, Qopp, Qmult, Qinv, inject_Z; simpl. lia. }
  rewrite E. apply Qfloor_frac.
Qed.

Lemma jpegQualitySpec_div (q : Z) :
  jpegQualitySpec q = Z.max 2 (Z.min ((3098 - 29 * q) / 99) 31).
Proof.
  unfold jpegQualitySpec, clamp. do 2 f_equal.
  assert (E : (31 - inject_Z (q - 1) * 29 / 99 == (3098 - 29 * q) # 99)%Q).
  { unfold Qeq, Qminus, Qdiv, Qplus, Qopp, Qmult, Qinv, inject_Z; simpl. lia. }
  rewrite E. apply Qfloor_frac.
Qed.

Lemma quality_range (q : Z) : 1 <= q <= 100 -> 2 <= (3098 - 29 * q) / 99 <= 31.
Proof.
  intros H. split.
  - apply Z.div_le_lower_bound; lia.
  - apply Z.div_le_upper_bound; lia.
Qed.

(** On the slider's range the double-precision evaluation of the source
    expression gives the same integer as the exact one. *)
Lemma jpegQuality_binary64 (q : Z) :
  1 <= q <= 100 -> Binary64.jpegQuality q = Some (jpegQuality q).
Proof.
  intros Hq.
  assert (H : forall n, (n < 100)%nat ->
            Binary64.jpegQuality (Z.of_nat (S n))
              = Some (jpegQuality (Z.of_nat (S n)))).
  { intros n Hn.
    do 100 (destruct n as [|n]; [vm_compute; reflexivity|]). lia. }
  replace q with (Z.of_nat (S (Z.to_nat (q - 1)))) by lia.
  apply H. lia.
Qed.

Lemma planImage_jpeg (fmt : string) (q : Z) (img : ImageItem) :
  fmt = "jpg" \/ fmt = "jpeg" ->
  argAfter "-q:v" (argsFor fmt q img) = Some (JS.toString (jpegQuality q)).
Proof.
  intros [-> | ->]; unfold argsFor, planImage;
    destruct (negb (targetWidth img =? originalWidth img)
              || negb (targetHeight img =? originalHeight img));
    destruct (hasKeyword img); reflexivity.
Qed.

(** C2.  For JPEG output ([jpg] or [jpeg]) and a user quality [q] between
    1 and 100, the value the plan passes after [-q:v] is
    clamp(floor(31 - (q - 1) * 29 / 99), 2, 31); the source expression
    computes that value, also when it is evaluated in double precision; the
    mapping lies in 2..31, sends 1 to 31 and 100 to 2, and does not
    increase when [q] grows. *)
Theorem jpeg_quality_mapping (fmt : string) (img : ImageItem) (q : Z) :
  fmt = "jpg" \/ fmt = "jpeg" -> 1 <= q <= 100 ->
  argAfter "-q:v" (argsFor fmt q img) = Some (JS.toString (jpegQualitySpec q))
  /\ jpegQuality q = jpegQualitySpec q
  /\ Binary64.jpegQuality q = Some (jpegQualitySpec q)
  /\ 2 <= jpegQualitySpec q <= 31
  /\ jpegQualitySpec 1 = 31 /\ jpegQualitySpec 100 = 2
  /\ (forall q', q <= q' <= 100 -> jpegQualitySpec q' <= jpegQualitySpec q).
Proof.
  intros Hfmt Hq.
  assert (E : jpegQuality q = jpegQualitySpec q).
  { rewrite jpegQuality_div, jpegQualitySpec_div.
    pose proof (quality_range q Hq). lia. }
  split; [rewrite <- E; now apply planImage_jpeg|].
  split; [exact E|].
  split; [rewrite <- E; now apply jpegQuality_binary64|].
  split; [rewrite jpegQualitySpec_div; pose proof (quality_range q Hq); lia|].
  split; [reflexivity|]. split; [reflexivity|].
  intros q' Hq'. rewrite !jpegQualitySpec_div.
  assert ((3098 - 29 * q') / 99 <= (3098 - 29 * q) / 99)
    by (apply Z.div_le_mono; lia).
  lia.
Qed.

Lemma jpeg_quality_mapping_witness :
  argAfter "-q:v" (argsFor "jpg" 50 (item "photo.png" "x1" "" 800 600)) = Some "16"
  /\ jpegQuality 50 = 16
  /\ Binary64.jpegQuality 50 = Some 16.
Proof.
  destruct (jpeg_quality_mapping "jpg" (item "photo.png" "x1" "" 800 600) 50)
    as (H1 & H2 & H3 & _); [left; reflexivity | lia |].
  split; [exact H1 | split; [exact H2 | exact H3]].
Defined.

Lemma round_half (n : Z) : JS.round (inject_Z n / 2)%Q = (n + 1) / 2.
Proof.
  unfold JS.round.
  assert (E : (inject_Z n / 2 + (1 # 2) == (n + 1) # 2)%Q).
  { unfold Qeq, Qdiv, Qplus, Qmult, Qinv, inject_Z; simpl. lia. }
  rewrite E. apply Qfloor_frac.
Qed.

(** ** Even rounding of the custom video size *)

Lemma evenRound_div (n : Z) : VideoConverter.evenRound n = (n + 1) / 2 * 2.
Proof. unfold VideoConverter.evenRound. now rewrite round_half. Qed.

Lemma evenRound_even (n : Z) : Z.even (VideoConverter.evenRound n) = true.
Proof. rewrite evenRound_div, Z.even_mul. apply orb_true_r. Qed.

Lemma evenRound_of_even (n : Z) :
  Z.even n = true -> VideoConverter.evenRound n = n.
Proof.
  intros H. rewrite evenRound_div.
  apply Z.even_spec in H. destruct H as [k ->].
  replace (2 * k + 1) with (1 + k * 2) by lia.
  rewrite Z.div_add by lia. change (1 / 2) with 0. lia.
Qed.

Lemma evenRound_of_odd (n : Z) :
  Z.odd n = true -> VideoConverter.evenRound n = n + 1.
Proof.
  intros H. rewrite evenRound_div.
  apply Z.odd_spec in H. destruct H as [k ->].
  replace (2 * k + 1 + 1) with ((k + 1) * 2) by lia.
  rewrite Z.div_mul by lia. lia.
Qed.

(** C4.  In custom resolution mode the plan emits one scale
    filter right after the input, whose width and height are the requested
    values made even: an even value is kept and an odd value goes up to the
    next even integer, since [Math.round] sends a half upwards.  A request
    of 1001 by 563 emits [scale=1002:564]. *)
Theorem custom_scale_filter (c : VideoConverter.Component) :
  VideoConverter.resolution c = "custom" ->
  argAfter "-vf" (VideoConverter.convertArgs c)
    = Some ("scale="
              +:+ JS.toString (VideoConverter.evenRound (VideoConverter.customWidth c))
              +:+ ":"
              +:+ JS.toString (VideoConverter.evenRound (VideoConverter.customHeight c)))
  /\ (forall n, Z.even (VideoConverter.evenRound n) = true
                /\ (Z.even n = true -> VideoConverter.evenRound n = n)
                /\ (Z.odd n = true -> VideoConverter.evenRound n = n + 1))
  /\ argAfter "-vf" (VideoConverter.convertArgs (video 1001 563))
       = Some "scale=1002:564".
Proof.
  intros Hres. split; [|split].
  - unfold VideoConverter.convertArgs. rewrite Hres.
    destruct (negb (String.eqb (VideoConverter.codec c) "copy"));
      [destruct (String.eqb (VideoConverter.outputFormat c) "mp4"
                 && String.eqb (VideoConverter.codec c) "libx264")|];
      reflexivity.
  - intros n. split; [apply evenRound_even|].
    split; [apply evenRound_of_even | apply evenRound_of_odd].
  - reflexivity.
Qed.

Lemma custom_scale_filter_witness :
  argAfter "-vf" (VideoConverter.convertArgs (video 1280 721))
    = Some "scale=1280:722"
  /\ VideoConverter.evenRound 1280 = 1280
  /\ VideoConverter.evenRound 721 = 722.
Proof.
  destruct (custom_scale_filter (video 1280 721) eq_refl) as (Hf & Hn & _).
  split; [exact Hf|].
  split; [apply (Hn 1280) | apply (Hn 721)]; reflexivity.
Defined.

(** C4, the 1001 by 563 scenario: a request of 1001 by 563 does
    not emit 1000 by 562; both odd sizes go up, in exact arithmetic and in
    double precision alike. *)
Lemma custom_1001x563_emits_1002x564 :
  VideoConverter.convertArgs (video 1001 563)
    = ["-i"; "input"; "-vf"; "scale=1002:564"; "-c:v"; "libx264";
       "-preset"; "fast"; "output.mp4"]
  /\ Binary64.evenRound 1001 = Some 1002
  /\ Binary64.evenRound 563 = Some 564.
Proof. repeat split; vm_compute; reflexivity. Qed.

(** ** Aspect ratio of an image item *)

Lemma handleDimensionChange_images
    (i : string) (d : Dimension) (value : Z) (w : World) :
  images (ui (handleDimensionChange i d value w))
    = map (fun img => if String.eqb (id img) i
                      then changeDimension d value img else img)
          (images (ui w)).
Proof.
  unfold handleDimensionChange; cbn [images ui setImages].
  apply map_ext. intros img. now destruct (String.eqb (id img) i).
Qed.

(** C3.  For an item of original size [W] by [H] (both positive and at
    most 2^25) whose aspect ratio is the double nearest to [W / H], as
    [processFiles] sets it, after an edit of one target dimension to
    [value] (at most 2^25 in magnitude) the edited dimension holds [value],
    the aspect ratio is unchanged, and the other dimension is the rounded
    double-precision quotient [value / aspectRatio] (product
    [value * aspectRatio] for a height edit): an integer within one half
    of the exactly proportional size [value * H / W] ([value * W / H]).
    Where that size lies halfway between two integers the rounding errors
    of the doubles decide which of the two is taken: 1024 by 1200 with
    width 800 gives 937 and 1024 by 600 with width 64 gives 38.  For a
    1920 by 1080 source, setting the width to 960 yields the height 540.
    On a grid of sizes the model and the hardware's doubles agree. *)
Theorem dimension_edit_rounds_other_dimension (img : ImageItem) (value : Z) :
  0 < originalWidth img <= 2 ^ 25 -> 0 < originalHeight img <= 2 ^ 25 ->
  - 2 ^ 25 <= value <= 2 ^ 25 ->
  aspectRatio img
    = Double.fl (inject_Z (originalWidth img) / inject_Z (originalHeight img)) ->
  (targetWidth (changeDimension width value img) = value
   /\ aspectRatio (changeDimension width value img) = aspectRatio img
   /\ targetHeight (changeDimension width value img)
        = JS.round (Double.fl (inject_Z value / aspectRatio img))
   /\ (Qabs (inject_Z (targetHeight (changeDimension width value img))
             - inject_Z (value * originalHeight img)
               / inject_Z (originalWidth img)) <= 1 # 2)%Q)
  /\ (targetHeight (changeDimension height value img) = value
      /\ aspectRatio (changeDimension height value img) = aspectRatio img
      /\ targetWidth (changeDimension height value img)
           = JS.round (Double.fl (inject_Z value * aspectRatio img))
      /\ (Qabs (inject_Z (targetWidth (changeDimension height value img))
                - inject_Z (value * originalWidth img)
                  / inject_Z (originalHeight img)) <= 1 # 2)%Q)
  /\ map (fun x => (targetWidth x, targetHeight x))
         (images (ui (handleDimensionChange "x1" width 960
                        (start [item "hero.png" "x1" "" 1920 1080;
                                item "logo.png" "x2" "" 800 600] "webp" 100))))
       = [(960, 540); (800, 600)]
  /\ targetHeight (changeDimension width 800 (item "a.png" "x1" "" 1024 1200)) = 937
  /\ targetHeight (changeDimension width 64 (item "a.png" "x1" "" 1024 600)) = 38
  /\ forallb (fun W => forallb (fun H => forallb (sameAsHardware W H) sizes) sizes)
             sizes = true.
Proof.
  intros HW HH Hv Har. split; [|split; [|split; [|split; [|split]]]].
  - split; [reflexivity|]. split; [reflexivity|]. split; [reflexivity|].
    apply within_half; [lia|].
    cbn [changeDimension targetHeight withTarget]. rewrite Har.
    now apply width_edit_near.
  - split; [reflexivity|]. split; [reflexivity|]. split; [reflexivity|].
    apply within_half; [lia|].
    cbn [changeDimension targetWidth withTarget]. rewrite Har.
    now apply height_edit_near.
  - vm_compute. reflexivity.
  - vm_compute. reflexivity.
  - vm_compute. reflexivity.
  - vm_compute. reflexivity.
Qed.

Lemma dimension_edit_rounds_other_dimension_witness :
  targetWidth (changeDimension width 100 (item "hero.png" "x1" "" 1920 1080)) = 100
  /\ targetHeight (changeDimension width 100 (item "hero.png" "x1" "" 1920 1080)) = 56
  /\ targetWidth (changeDimension height 100 (item "hero.png" "x1" "" 1920 1080)) = 178
  /\ targetHeight (changeDimension height 100 (item "hero.png" "x1" "" 1920 1080)) = 100.
Proof.
  destruct (dimension_edit_rounds_other_dimension
              (item "hero.png" "x1" "" 1920 1080) 100)
    as ((Hw & _ & Hh & _) & (Hh' & _ & Hw' & _) & _);
    [cbn; lia | cbn; lia | lia | reflexivity |].
  split; [exact Hw|]. split; [rewrite Hh; vm_compute; reflexivity|].
  split; [rewrite Hw'; vm_compute; reflexivity | exact Hh'].
Defined.

(** C3, the ratio itself: the ratio of the target dimensions is not
    always within 1 of the aspect ratio.  A 728 by 90 banner whose width
    is set to 20 gets the height 2, a ratio of 10 against 728/90. *)
Lemma leaderboard_ratio_off_by_more_than_one :
  targetWidth (changeDimension width 20 (item "ad.png" "x1" "" 728 90)) = 20
  /\ targetHeight (changeDimension width 20 (item "ad.png" "x1" "" 728 90)) = 2
  /\ (1 < Qabs (inject_Z 20 / inject_Z 2
                - aspectRatio (changeDimension width 20
                                 (item "ad.png" "x1" "" 728 90))))%Q
  /\ Binary64.heightFor 728 90 20 = Some 2.
Proof. repeat split; vm_compute; reflexivity. Qed.

(** ** The custom size fields of the video form *)

Lemma parseIntOrZero_Some (s : string) (n : Z) :
  JS.parseInt s = Some n -> JS.parseIntOrZero s = n.
Proof.
  unfold JS.parseIntOrZero. intros ->.
  destruct (Z.eqb_spec n 0); congruence.
Qed.

Lemma parseIntOrZero_None (s : string) :
  JS.parseInt s = None -> JS.parseIntOrZero s = 0.
Proof. unfold JS.parseIntOrZero. now intros ->. Qed.

(** C10.  Editing the width field with a text whose number is finite
    stores [parseInt(text) || 0]: 0 for a text that is not a number, and
    the number read otherwise (the double nearest to it), a negative
    number included.  The height is left unchanged when the stored width is
    not strictly positive, and is recomputed when it is: it becomes the
    rounded double-precision quotient of the width and the aspect ratio
    (for a positive aspect ratio and a finite quotient).  The height field
    behaves symmetrically.  With the aspect ratio of a 1024 by 600 video
    the width 192 gives the height 112, as the hardware's doubles do; the
    numeral 9007199254740993 is stored as 9007199254740992. *)
Theorem custom_size_edit (value : string) (c : VideoConverter.Component) :
  JS.finite value ->
  (VideoConverter.customWidth (VideoConverter.handleWidthChange value c)
     = JS.parseIntOrZero value
   /\ (JS.parseInt value = None ->
         VideoConverter.customWidth (VideoConverter.handleWidthChange value c) = 0)
   /\ (forall n, JS.parseInt value = Some n ->
         VideoConverter.customWidth (VideoConverter.handleWidthChange value c) = n)
   /\ (JS.parseIntOrZero value <= 0 ->
         VideoConverter.handleWidthChange value c
           = VideoConverter.setCustomWidth (JS.parseIntOrZero value) c)
   /\ (0 < JS.parseIntOrZero value -> (0 < VideoConverter.aspectRatio c)%Q ->
       (inject_Z (JS.parseIntOrZero value) / VideoConverter.aspectRatio c
          < Double.pow2 1023)%Q ->
         VideoConverter.handleWidthChange value c
           = VideoConverter.setCustomHeight
               (JS.round (Double.fl (inject_Z (JS.parseIntOrZero value)
                                     / VideoConverter.aspectRatio c)))
               (VideoConverter.setCustomWidth (JS.parseIntOrZero value) c)))
  /\ (VideoConverter.customHeight (VideoConverter.handleHeightChange value c)
        = JS.parseIntOrZero value
      /\ (JS.parseInt value = None ->
            VideoConverter.customHeight (VideoConverter.handleHeightChange value c) = 0)
      /\ (forall n, JS.parseInt value = Some n ->
            VideoConverter.customHeight (VideoConverter.handleHeightChange value c) = n)
      /\ (JS.parseIntOrZero value <= 0 ->
            VideoConverter.handleHeightChange value c
              = VideoConverter.setCustomHeight (JS.parseIntOrZero value) c)
      /\ (0 < JS.parseIntOrZero value -> (0 < VideoConverter.aspectRatio c)%Q ->
          (inject_Z (JS.parseIntOrZero value) * VideoConverter.aspectRatio c
             < Double.pow2 1023)%Q ->
            VideoConverter.handleHeightChange value c
              = VideoConverter.setCustomWidth
                  (JS.round (Double.fl (inject_Z (JS.parseIntOrZero value)
                                        * VideoConverter.aspectRatio c)))
                  (VideoConverter.setCustomHeight (JS.parseIntOrZero value) c)))
  /\ VideoConverter.customHeight
       (VideoConverter.handleWidthChange "192"
          (Probe.seedFromLog "Video: h264, 1024x600" c)) = 112
  /\ Binary64.heightFor 1024 600 192 = Some 112
  /\ VideoConverter.customWidth
       (VideoConverter.handleWidthChange "9007199254740993" c) = 9007199254740992.
Proof.
  intros _.
  assert (W : VideoConverter.customWidth (VideoConverter.handleWidthChange value c)
              = JS.parseIntOrZero value).
  { unfold VideoConverter.handleWidthChange.
    destruct (0 <? JS.parseIntOrZero value); reflexivity. }
  assert (H : VideoConverter.customHeight (VideoConverter.handleHeightChange value c)
              = JS.parseIntOrZero value).
  { unfold VideoConverter.handleHeightChange.
    destruct (0 <? JS.parseIntOrZero value); reflexivity. }
  split; [|split; [|split; [|split]]].
  - split; [assumption|].
    split; [intros E; now rewrite W, parseIntOrZero_None|].
    split; [intros n E; now rewrite W, (parseIntOrZero_Some _ _ E)|].
    unfold VideoConverter.handleWidthChange.
    split; intros Hs; try intros _ _;
      destruct (Z.ltb_spec 0 (JS.parseIntOrZero value)); try lia; reflexivity.
  - split; [assumption|].
    split; [intros E; now rewrite H, parseIntOrZero_None|].
    split; [intros n E; now rewrite H, (parseIntOrZero_Some _ _ E)|].
    unfold VideoConverter.handleHeightChange.
    split; intros Hs; try intros _ _;
      destruct (Z.ltb_spec 0 (JS.parseIntOrZero value)); try lia; reflexivity.
  - vm_compute. reflexivity.
  - vm_compute. reflexivity.
  - vm_compute. reflexivity.
Qed.

Lemma custom_size_edit_witness :
  VideoConverter.customWidth
    (VideoConverter.handleWidthChange "1280" (video 1920 1080)) = 1280
  /\ VideoConverter.handleWidthChange "1280" (video 1920 1080) = video 1280 720
  /\ VideoConverter.handleHeightChange "0" (video 1920 1080) = video 1920 0.
Proof.
  destruct (custom_size_edit "1280" (video 1920 1080))
    as ((H1 & _ & _ & _ & H2) & _); [vm_compute; reflexivity|].
  destruct (custom_size_edit "0" (video 1920 1080))
    as (_ & (_ & _ & _ & H3 & _) & _); [vm_compute; reflexivity|].
  split; [exact H1|]. split.
  - rewrite H2; [reflexivity | reflexivity | vm_compute; reflexivity
                | vm_compute; reflexivity].
  - rewrite H3; [reflexivity | vm_compute; discriminate].
Defined.

(** C10, negative entries: a non-positive entry is not always stored
    as 0.  The text [-5] is stored as -5 (the height stays as it was). *)
Lemma negative_width_is_stored :
  JS.parseInt "-5" = Some (-5)
  /\ VideoConverter.customWidth
       (VideoConverter.handleWidthChange "-5" (video 1920 1080)) = -5
  /\ VideoConverter.customHeight
       (VideoConverter.handleWidthChange "-5" (video 1920 1080)) = 1080
  /\ VideoConverter.customWidth
       (VideoConverter.handleWidthChange "abc" (video 1920 1080)) = 0
  /\ VideoConverter.handleWidthChange "960" (video 1920 1080) = video 960 540.
Proof. repeat split. Qed.

(* ===================================================================== *)
(** * The image plan: metadata directives                                 *)
(* ===================================================================== *)

Lemma valuesOf_skip (flag : string) (l1 l2 : list string) :
  Forall (fun a => String.eqb a flag = false) l1 ->
  valuesOf flag (l1 ++ l2) = valuesOf flag l2.
Proof.
  induction 1 as [|a l1 Ha _ IH]; [reflexivity|].
  cbn [app valuesOf]. now rewrite Ha.
Qed.

Lemma valuesOf_pairs (flag : string) (g : string -> string)
    (tags rest : list string) :
  valuesOf flag (flat_map (fun t => [flag; g t]) tags ++ rest)
    = map g tags ++ valuesOf flag rest.
Proof.
  induction tags as [|t tags IH]; [reflexivity|].
  cbn [flat_map app valuesOf map]. rewrite String.eqb_refl. now rewrite IH.
Qed.

(** A printed number is never the metadata flag. *)
Lemma toString_not_metadata (n : Z) :
  String.eqb (JS.toString n) "-metadata" = false.
Proof.
  unfold JS.toString. destruct (Z.to_int n) as [d|d]; destruct d; reflexivity.
Qed.

Lemma hasKeyword_true (img : ImageItem) :
  JS.trim (keyword img) <> "" -> hasKeyword img = true.
Proof.
  intros H. unfold hasKeyword.
  destruct (String.eqb_spec (keyword img) "") as [E|_].
  - rewrite E in H. now destruct H.
  - destruct (String.eqb_spec (JS.trim (keyword img)) "");
      [contradiction|reflexivity].
Qed.

Lemma hasKeyword_false (img : ImageItem) :
  JS.trim (keyword img) = "" -> hasKeyword img = false.
Proof.
  intros H. unfold hasKeyword. rewrite H. apply andb_false_r.
Qed.

(** The plan is a prefix without metadata flag, then the metadata
    directives if the item has a keyword, then the output name. *)
Lemma planImage_shape (fmt : string) (q : Z) (img : ImageItem) :
  exists pre,
    argsFor fmt q img
      = pre ++ (if hasKeyword img
                then flat_map
                       (fun tag => ["-metadata"; tag +:+ "=" +:+ keyword img])
                       metaTags
                else []) ++ [outputNameOf fmt img]
    /\ Forall (fun a => String.eqb a "-metadata" = false) pre.
Proof.
  unfold argsFor, planImage. cbv zeta.
  set (resize := negb (targetWidth img =? originalWidth img)
                 || negb (targetHeight img =? originalHeight img)).
  set (jpg := String.eqb fmt "jpg" || String.eqb fmt "jpeg").
  set (webp := String.eqb fmt "webp").
  eexists. split.
  - destruct (hasKeyword img).
    + rewrite <- app_assoc. reflexivity.
    + rewrite app_nil_l. reflexivity.
  - destruct resize, jpg, webp;
      repeat (apply Forall_app; split); repeat constructor;
      apply toString_not_metadata.
Qed.

(** An item whose keyword is blank gets no metadata directive. *)
Lemma no_metadata_for_blank_keyword (fmt : string) (q : Z) (img : ImageItem) :
  JS.trim (keyword img) = "" -> valuesOf "-metadata" (argsFor fmt q img) = [].
Proof.
  intros Hk.
  destruct (planImage_shape fmt q img) as (pre & -> & Hpre).
  rewrite (hasKeyword_false img Hk).
  rewrite valuesOf_skip by exact Hpre. reflexivity.
Qed.

(** C8.  For an item whose keyword is not blank (not empty
    once white space is trimmed from both ends), the plan holds exactly one
    metadata directive for each of the keys title, description, comment,
    author, copyright and ICRD (the creation date), in this order, each
    carrying the keyword as typed. *)
Theorem metadata_directives (fmt : string) (q : Z) (img : ImageItem) :
  JS.trim (keyword img) <> "" ->
  valuesOf "-metadata" (argsFor fmt q img)
    = ["title=" +:+ keyword img; "description=" +:+ keyword img;
       "comment=" +:+ keyword img; "author=" +:+ keyword img;
       "copyright=" +:+ keyword img; "ICRD=" +:+ keyword img].
Proof.
  intros Hk.
  destruct (planImage_shape fmt q img) as (pre & -> & Hpre).
  rewrite (hasKeyword_true img Hk).
  rewrite valuesOf_skip by exact Hpre.
  rewrite valuesOf_pairs. reflexivity.
Qed.

Lemma metadata_directives_witness :
  JS.trim (keyword (item "photo.png" "x1" "Summer Sale!!" 800 600)) <> ""
  /\ valuesOf "-metadata"
       (argsFor "webp" 100 (item "photo.png" "x1" "Summer Sale!!" 800 600))
     = ["title=Summer Sale!!"; "description=Summer Sale!!";
        "comment=Summer Sale!!"; "author=Summer Sale!!";
        "copyright=Summer Sale!!"; "ICRD=Summer Sale!!"].
Proof.
  split; [discriminate|].
  apply (metadata_directives "webp" 100
           (item "photo.png" "x1" "Summer Sale!!" 800 600)).
  discriminate.
Defined.

(** C8, blank keywords: a keyword that is not empty but blank (one
    space) gets no metadata directive at all. *)
Lemma blank_keyword_gets_no_metadata :
  keyword (item "photo.png" "x1" " " 800 600) = " "
  /\ valuesOf "-metadata"
       (argsFor "webp" 100 (item "photo.png" "x1" " " 800 600)) = []
  /\ argsFor "webp" 100 (item "photo.png" "x1" " " 800 600)
     = ["-i"; "input_x1"; "-quality"; "100"; "output_x1.webp"].
Proof. repeat split. Qed.

(* ===================================================================== *)
(** * File names: split, join and the two stems                           *)
(* ===================================================================== *)

Lemma append_cons (x : ascii) (a b : string) :
  String x a +:+ b = String x (a +:+ b).
Proof. reflexivity. Qed.

Lemma length_append (s t : string) :
  String.length (s +:+ t) = (String.length s + String.length t)%nat.
Proof.
  induction s as [|c s IH]; [reflexivity|].
  rewrite append_cons. cbn [String.length]. now rewrite IH.
Qed.

Lemma append_assoc (a b c : string) : (a +:+ b) +:+ c = a +:+ b +:+ c.
Proof.
  induction a as [|x a IH]; [reflexivity|].
  rewrite !append_cons. now rewrite IH.
Qed.

Lemma split_nonempty (c : ascii) (s : string) : JS.split c s <> [].
Proof.
  destruct s as [|c' s]; cbn; [discriminate|].
  destruct (Ascii.eqb c' c); [discriminate|].
  destruct (JS.split c s); discriminate.
Qed.

Lemma split_length (c : ascii) (s : string) :
  length (JS.split c s) = S (countChar c s).
Proof.
  induction s as [|c' s IH]; [reflexivity|].
  cbn [JS.split countChar]. destruct (Ascii.eqb c' c).
  - cbn. now rewrite IH.
  - pose proof (split_nonempty c s).
    destruct (JS.split c s); [contradiction|]. exact IH.
Qed.

Lemma split_parts_clean (c : ascii) (s : string) :
  Forall (fun p => countChar c p = 0%nat) (JS.split c s).
Proof.
  induction s as [|c' s IH]; [repeat constructor|].
  cbn [JS.split]. destruct (Ascii.eqb c' c) eqn:E.
  - constructor; [reflexivity | exact IH].
  - destruct (JS.split c s) as [|h t].
    + repeat constructor. cbn. now rewrite E.
    + inversion IH; subst. constructor; [|assumption].
      cbn. now rewrite E.
Qed.

Lemma join_split (c : ascii) (s : string) :
  JS.join (String c EmptyString) (JS.split c s) = s.
Proof.
  induction s as [|c' s IH]; [reflexivity|].
  cbn [JS.split]. destruct (Ascii.eqb_spec c' c) as [->|_].
  - pose proof (split_nonempty c s).
    destruct (JS.split c s) as [|h t] eqn:E; [contradiction|].
    rewrite <- IH. reflexivity.
  - pose proof (split_nonempty c s).
    destruct (JS.split c s) as [|h t] eqn:E; [contradiction|].
    rewrite <- IH. destruct t; reflexivity.
Qed.

Lemma join_cons (sep p : string) (rest : list string) :
  rest <> [] -> JS.join sep (p :: rest) = p +:+ sep +:+ JS.join sep rest.
Proof. destruct rest; [contradiction | reflexivity]. Qed.

Lemma join_snoc (sep : string) (init : list string) (p : string) :
  init <> [] -> JS.join sep (init ++ [p]) = JS.join sep init +:+ sep +:+ p.
Proof.
  induction init as [|x init IH]; [done|]. intros _.
  destruct init as [|y init].
  - reflexivity.
  - change ((x :: y :: init) ++ [p]) with (x :: ((y :: init) ++ [p])).
    rewrite join_cons by done.
    rewrite IH by done.
    rewrite (join_cons sep x (y :: init)) by done.
    now rewrite !append_assoc.
Qed.

(** A name with at least two dots: what [split('.')[0]] and what
    [split('.').slice(0, -1).join('.')] are. *)
Lemma stems_of_dotted_name (s : string) :
  (2 <= countChar dot s)%nat ->
  exists first rest stem ext,
    JS.split dot s = first :: rest
    /\ JS.join "." (JS.sliceInit (JS.split dot s)) = stem
    /\ s = first +:+ "." +:+ JS.join "." rest
    /\ countChar dot first = 0%nat
    /\ s = stem +:+ "." +:+ ext
    /\ countChar dot ext = 0%nat
    /\ (String.length first < String.length stem)%nat.
Proof.
  intros Hdots.
  pose proof (split_length dot s) as Hlen.
  pose proof (split_parts_clean dot s) as Hclean.
  pose proof (join_split dot s) as Hjoin.
  destruct (JS.split dot s) as [|first rest]; [discriminate|].
  destruct (exists_last (l := first :: rest) ltac:(done)) as (init & ext & E).
  assert (Hinit : (2 <= length init)%nat).
  { apply (f_equal (@length _)) in E. rewrite length_app in E. cbn in *. lia. }
  exists first, rest, (JS.join "." init), ext.
  split; [reflexivity|].
  split; [unfold JS.sliceInit; rewrite E; now rewrite removelast_last|].
  assert (Hrest : rest <> []) by (destruct rest; [cbn in *; lia | done]).
  split; [rewrite <- Hjoin at 1; now apply join_cons|].
  split; [now inversion Hclean|].
  assert (Hinit' : init <> []) by (destruct init; [cbn in *; lia | done]).
  split; [rewrite <- Hjoin at 1; rewrite E; now apply join_snoc|].
  split.
  - rewrite E in Hclean. apply Forall_app in Hclean as [_ Hl]. now inversion Hl.
  - destruct init as [|a [|b init]]; cbn in Hinit; try lia.
    injection E as <- _.
    rewrite join_cons by done.
    rewrite !length_append. cbn [String.length]. lia.
Qed.

(* ===================================================================== *)
(** * One iteration of the conversion loop                                *)
(* ===================================================================== *)

Lemma input_output_names_differ (fmt : string) (img : ImageItem) :
  inputNameOf img <> outputNameOf fmt img.
Proof. unfold inputNameOf, outputNameOf. discriminate. Qed.

Lemma argsFor_last (fmt : string) (q : Z) (img : ImageItem) :
  List.last (argsFor fmt q img) EmptyString = outputNameOf fmt img.
Proof. unfold argsFor, planImage. cbv zeta. apply last_last. Qed.

(** The body of the loop either throws in the frame [started], when the
    engine throws, or ends normally in the frame [finished]: reading the
    output and deleting both files cannot fail after the engine wrote the
    output file. *)
Lemma iteration_spec (engine : Engine) (i : nat) (f : Frame) (img0 : ImageItem) :
  updatedImages f !! i = Some img0 ->
  iteration engine i f =
    match engine (argsFor (outputFormat (ui (world f)))
                          (quality (ui (world f))) img0) with
    | Some out => Normal (finished i img0 out f)
    | None => Thrown (started i img0 f)
    end.
Proof.
  intros Hi. unfold iteration. rewrite Hi. cbv zeta.
  unfold exec, readFile, deleteFile, writeFile.
  change (planImage ?a ?b (withStatus Status.processing img0)
            (inputNameOf (withStatus Status.processing img0))
            (outputNameOf ?a (withStatus Status.processing img0)))
    with (argsFor a b img0).
  cbn [vfs ui quality outputFormat setVfs setImages].
  change (inputNameOf (withStatus Status.processing img0)) with (inputNameOf img0).
  change (outputNameOf ?a (withStatus Status.processing img0))
    with (outputNameOf a img0).
  destruct (engine _) as [out|]; [|reflexivity].
  pose proof (input_output_names_differ (outputFormat (ui (world f))) img0) as Hne.
  rewrite argsFor_last, lookup_insert_eq.
  rewrite lookup_insert_ne, lookup_insert_eq by congruence.
  rewrite lookup_delete_ne, lookup_insert_eq by congruence.
  reflexivity.
Qed.

(** ** Names of the download and of the bundle entry *)

(** C9.  When the item at index [i] has a blank keyword and a file name
    with more than one dot, and the engine converts it, the iteration ends
    normally with the item [done]; the name offered for the individual
    download is the text before the first dot of the file name plus the
    format, the name of the entry put into the bundle is the text before
    the last dot plus the format, and the two differ. *)
Theorem download_and_bundle_stems_differ
    (engine : Engine) (i : nat) (f : Frame) (img0 : ImageItem)
    (out : list Byte.byte) :
  updatedImages f !! i = Some img0 ->
  engine (argsFor (outputFormat (ui (world f))) (quality (ui (world f))) img0)
    = Some out ->
  JS.trim (keyword img0) = "" ->
  (2 <= countChar dot (name (file img0)))%nat ->
  exists first rest stem ext,
    name (file img0) = first +:+ "." +:+ rest
    /\ countChar dot first = 0%nat
    /\ name (file img0) = stem +:+ "." +:+ ext
    /\ countChar dot ext = 0%nat
    /\ first <> stem
    /\ exists f' img',
         iteration engine i f = Normal f'
         /\ updatedImages f' !! i = Some img'
         /\ status img' = Status.done
         /\ outputName img' = Some (first +:+ "." +:+ outputFormat (ui (world f)))
         /\ folder f' = <[stem +:+ "." +:+ outputFormat (ui (world f)) := out]> (folder f)
         /\ first +:+ "." +:+ outputFormat (ui (world f))
              <> stem +:+ "." +:+ outputFormat (ui (world f)).
Proof.
  intros Hi Hout Hblank Hdots.
  destruct (stems_of_dotted_name _ Hdots)
    as (first & rest & stem & ext & Hsplit & Hstem & Hn1 & Hc1 & Hn2 & Hc2 & Hlen).
  exists first, (JS.join "." rest), stem, ext.
  split; [exact Hn1|]. split; [exact Hc1|].
  split; [exact Hn2|]. split; [exact Hc2|].
  split; [intros ->; lia|].
  exists (finished i img0 out f), (converted (outputFormat (ui (world f))) img0 out).
  split; [now rewrite (iteration_spec _ _ _ _ Hi), Hout|].
  split.
  { unfold finished; cbn [updatedImages].
    apply list_lookup_insert_eq. rewrite length_insert.
    now apply lookup_lt_Some in Hi. }
  split; [reflexivity|].
  split.
  { unfold converted; cbn [outputName withOutput].
    unfold finalName. rewrite (hasKeyword_false img0 Hblank), Hsplit. reflexivity. }
  split.
  { unfold finished; cbn [folder]. unfold folderEntryName, originalName.
    now rewrite Hstem. }
  intros E. apply (f_equal String.length) in E.
  rewrite !length_append in E. lia.
Qed.

Lemma download_and_bundle_stems_differ_witness :
  exists first rest stem ext,
    "a.b.png" = first +:+ "." +:+ rest
    /\ countChar dot first = 0%nat
    /\ "a.b.png" = stem +:+ "." +:+ ext
    /\ countChar dot ext = 0%nat
    /\ first <> stem
    /\ exists f' img',
         iteration converts 0
           {| world := start batch3 "webp" 100; updatedImages := batch3;
              folder := ∅; processedCount := 0 |} = Normal f'
         /\ updatedImages f' !! 0%nat = Some img'
         /\ status img' = Status.done
         /\ outputName img' = Some (first +:+ "." +:+ "webp")
         /\ folder f' = <[stem +:+ "." +:+ "webp" := []]> ∅
         /\ first +:+ "." +:+ "webp" <> stem +:+ "." +:+ "webp".
Proof.
  apply (download_and_bundle_stems_differ converts 0
           {| world := start batch3 "webp" 100; updatedImages := batch3;
              folder := ∅; processedCount := 0 |}
           (item "a.b.png" "x1" "" 1920 1080) []);
    [reflexivity | reflexivity | reflexivity | vm_compute; lia].
Defined.

(** The download name and the bundle entry of the file [a.b.png]. *)
Lemma a_b_png_is_offered_as_a_webp_and_bundled_as_a_b_webp :
  map outputName (images (ui (convertImages true converts
                                (start [item "a.b.png" "x1" "" 1920 1080] "webp" 100))))
    = [Some "a.webp"]
  /\ entries (convertImages true converts
                (start [item "a.b.png" "x1" "" 1920 1080] "webp" 100))
     = Some ["a.b.webp"].
Proof. split; vm_compute; reflexivity. Qed.

(** Whatever the keyword, the entry that a successful iteration puts into
    the bundle is named after the original file name. *)
Lemma folder_entry_of_successful_iteration
    (engine : Engine) (i : nat) (f : Frame) (img0 : ImageItem)
    (out : list Byte.byte) :
  updatedImages f !! i = Some img0 ->
  engine (argsFor (outputFormat (ui (world f))) (quality (ui (world f))) img0)
    = Some out ->
  folder (outcome (iteration engine i f))
    = <[originalName img0 +:+ "." +:+ outputFormat (ui (world f)) := out]> (folder f).
Proof.
  intros Hi Hout. now rewrite (iteration_spec _ _ _ _ Hi), Hout.
Qed.

(** C5, on the item [photo.png] with the keyword [Summer Sale!!] and the
    format [webp]: the conversion succeeds, the individual download is
    named [Summer-Sale--.webp] after the sanitized keyword, but the only
    entry of the bundle is [photo.webp]; the bundle has no entry named
    after the keyword. *)
Theorem bundle_entry_keeps_original_name :
  statuses (convertImages true converts
              (start [item "photo.png" "x1" "Summer Sale!!" 800 600] "webp" 100))
    = [Status.done]
  /\ map outputName
       (images (ui (convertImages true converts
                      (start [item "photo.png" "x1" "Summer Sale!!" 800 600]
                             "webp" 100))))
     = [Some "Summer-Sale--.webp"]
  /\ entries (convertImages true converts
                (start [item "photo.png" "x1" "Summer Sale!!" 800 600] "webp" 100))
     = Some ["photo.webp"].
Proof. repeat split; vm_compute; reflexivity. Qed.

(** ** The engine's files after an iteration *)

(** After a successful iteration neither file of the item is left. *)
Lemma successful_iteration_deletes_files
    (engine : Engine) (i : nat) (f : Frame) (img0 : ImageItem)
    (out : list Byte.byte) :
  updatedImages f !! i = Some img0 ->
  engine (argsFor (outputFormat (ui (world f))) (quality (ui (world f))) img0)
    = Some out ->
  vfs (world (outcome (iteration engine i f))) !! inputNameOf img0 = None
  /\ vfs (world (outcome (iteration engine i f)))
       !! outputNameOf (outputFormat (ui (world f))) img0 = None.
Proof.
  intros Hi Hout. rewrite (iteration_spec _ _ _ _ Hi), Hout.
  pose proof (input_output_names_differ (outputFormat (ui (world f))) img0).
  unfold finished; cbn [outcome world vfs setVfs]. split.
  - rewrite lookup_delete_ne by congruence. apply lookup_delete_eq.
  - apply lookup_delete_eq.
Qed.

(** After an iteration in which the engine throws, the input file of the
    item is still there. *)
Lemma failed_iteration_keeps_input_file
    (engine : Engine) (i : nat) (f : Frame) (img0 : ImageItem) :
  updatedImages f !! i = Some img0 ->
  engine (argsFor (outputFormat (ui (world f))) (quality (ui (world f))) img0)
    = None ->
  vfs (world (outcome (iteration engine i f))) !! inputNameOf img0
    = Some (bytes (file img0)).
Proof.
  intros Hi Hout. rewrite (iteration_spec _ _ _ _ Hi), Hout.
  unfold started; cbn [outcome world vfs setVfs]. apply lookup_insert_eq.
Qed.

(** C6, on a queue of three items whose second invocation throws: the
    engine's file system was empty before the run; after it the input file
    of the failed item is still there, while the file of the converted
    first item is gone. *)
Theorem failed_item_leaves_input_file :
  files (start batch3 "webp" 100) = []
  /\ map (throwsOn "input_x2") (map (argsFor "webp" 100) batch3)
     = [Some []; None; Some []]
  /\ files (convertImages true (throwsOn "input_x2") (start batch3 "webp" 100))
     = ["input_x2"]
  /\ files (convertImages true converts (start batch3 "webp" 100)) = [].
Proof. repeat split; vm_compute; reflexivity. Qed.

(* ===================================================================== *)
(** * The loop when an invocation throws                                  *)
(* ===================================================================== *)

Lemma loop_until_throw (engine : Engine) (n : nat) :
  forall (i k : nat) (f : Frame) (imgK : ImageItem),
    (i <= k < i + n)%nat ->
    updatedImages f !! k = Some imgK ->
    engine (argsFor (fmtOf f) (qualityOf f) imgK) = None ->
    (forall j x, (i <= j < k)%nat -> updatedImages f !! j = Some x ->
       is_Some (engine (argsFor (fmtOf f) (qualityOf f) x))) ->
    exists f', loop engine n i f = Thrown f' /\ abortedAt k i f f'.
Proof.
  induction n as [|n IH]; intros i k f imgK Hk HK Hthrow Hbefore; [lia|].
  cbn [loop].
  destruct (decide (i = k)) as [->|Hik].
  - rewrite (iteration_spec _ _ _ _ HK).
    fold (fmtOf f) (qualityOf f). rewrite Hthrow.
    eexists; split; [reflexivity|].
    unfold abortedAt, started; cbn.
    repeat split; try reflexivity.
    + apply length_insert.
    + intros j x Hj. lia.
    + intros j Hj. apply list_lookup_insert_ne. lia.
  - assert (Hlt : (i < length (updatedImages f))%nat).
    { apply lookup_lt_Some in HK. lia. }
    destruct (lookup_lt_is_Some_2 _ _ Hlt) as [imgI HI].
    destruct (Hbefore i imgI ltac:(lia) HI) as [out Hout].
    rewrite (iteration_spec _ _ _ _ HI).
    fold (fmtOf f) (qualityOf f). rewrite Hout.
    set (f1 := finished i imgI out f).
    assert (Hother : forall j, j <> i ->
              updatedImages f1 !! j = updatedImages f !! j).
    { intros j Hj. unfold f1, finished; cbn.
      rewrite !list_lookup_insert_ne by congruence. reflexivity. }
    destruct (IH (S i) k f1 imgK)
      as (f' & Hloop & Hlen & Himgs & Hdone & Hsame & Hz & Hp & Ha).
    + lia.
    + rewrite Hother by lia. exact HK.
    + exact Hthrow.
    + intros j x Hj Hx. rewrite Hother in Hx by lia.
      apply (Hbefore j x); [lia | exact Hx].
    + exists f'. split; [exact Hloop|].
      assert (Hlen1 : length (updatedImages f1) = length (updatedImages f)).
      { unfold f1, finished; cbn. now rewrite !length_insert. }
      unfold abortedAt. repeat split.
      * congruence.
      * exact Himgs.
      * intros j x Hj Hx.
        destruct (decide (j = i)) as [->|Hji].
        -- rewrite Hsame in Hx by lia.
           unfold f1, finished in Hx; cbn in Hx.
           rewrite list_lookup_insert_eq in Hx by (rewrite length_insert; lia).
           injection Hx as <-. reflexivity.
        -- apply (Hdone j x); [lia | exact Hx].
      * intros j Hj. rewrite Hsame by lia. apply Hother. lia.
      * rewrite Hz. reflexivity.
      * rewrite Hp. reflexivity.
      * rewrite Ha. reflexivity.
Qed.

(** C1.  When the item at index [k] is the first whose engine
    invocation throws, the run stops there: every item before [k] is
    [done], every item after [k] is left as it was (it is not attempted),
    the queue keeps its length, one alert is raised, the processing flag
    is cleared and no bundle is produced. *)
Theorem batch_aborts_at_first_throw
    (engine : Engine) (w : World) (k : nat) (imgK : ImageItem) :
  images (ui w) !! k = Some imgK ->
  engine (argsFor (outputFormat (ui w)) (quality (ui w)) imgK) = None ->
  (forall j x, (j < k)%nat -> images (ui w) !! j = Some x ->
     is_Some (engine (argsFor (outputFormat (ui w)) (quality (ui w)) x))) ->
  zipUrl (ui (convertImages true engine w)) = None
  /\ alerts (convertImages true engine w) = alerts w ++ ["Error during conversion"]
  /\ processing (ui (convertImages true engine w)) = false
  /\ length (images (ui (convertImages true engine w))) = length (images (ui w))
  /\ (forall j x, (j < k)%nat ->
        images (ui (convertImages true engine w)) !! j = Some x ->
        status x = Status.done)
  /\ (forall j, (k < j)%nat ->
        images (ui (convertImages true engine w)) !! j = images (ui w) !! j).
Proof.
  intros HK Hthrow Hbefore.
  assert (Hlen : (k < length (images (ui w)))%nat)
    by (eapply lookup_lt_Some; eauto).
  unfold convertImages.
  destruct (Nat.eqb_spec (length (images (ui w))) 0) as [E|_]; [lia|].
  cbn [negb orb].
  set (f0 := {| world := setZipUrl None (setProcessing true w);
                updatedImages := images (ui (setZipUrl None (setProcessing true w)));
                folder := ∅; processedCount := 0 |}).
  destruct (loop_until_throw engine (length (updatedImages f0)) 0 k f0 imgK)
    as (f' & Hloop & Hl & Himgs & Hdone & Hsame & Hz & Hp & Ha).
  - cbn. lia.
  - exact HK.
  - exact Hthrow.
  - intros j x Hj Hx. apply (Hbefore j x); [lia | exact Hx].
  - rewrite Hloop. cbn. rewrite Himgs.
    repeat split.
    + exact Hz.
    + now rewrite Ha.
    + exact Hl.
    + intros j x Hj. apply Hdone. lia.
    + intros j Hj. now apply Hsame; right.
Qed.

Lemma batch_aborts_at_first_throw_witness :
  zipUrl (ui (convertImages true (throwsOn "input_x2") (start batch3 "webp" 100)))
    = None
  /\ alerts (convertImages true (throwsOn "input_x2") (start batch3 "webp" 100))
     = ["Error during conversion"]
  /\ processing (ui (convertImages true (throwsOn "input_x2")
                       (start batch3 "webp" 100))) = false
  /\ length (images (ui (convertImages true (throwsOn "input_x2")
                           (start batch3 "webp" 100)))) = 3%nat
  /\ (forall j x, (j < 1)%nat ->
        images (ui (convertImages true (throwsOn "input_x2")
                      (start batch3 "webp" 100))) !! j = Some x ->
        status x = Status.done)
  /\ (forall j, (1 < j)%nat ->
        images (ui (convertImages true (throwsOn "input_x2")
                      (start batch3 "webp" 100))) !! j = batch3 !! j).
Proof.
  apply (batch_aborts_at_first_throw (throwsOn "input_x2")
           (start batch3 "webp" 100) 1
           (item "photo.png" "x2" "Summer Sale!!" 800 600)).
  - reflexivity.
  - reflexivity.
  - intros j x Hj Hx. destruct j as [|j]; [|lia].
    injection Hx as <-. eexists. reflexivity.
Defined.

(** C1, against per-item isolation.  On a queue of three items whose
    second invocation is the only one that throws, the failing item is left
    [processing] and not marked [error], the third item is not attempted,
    and there is no bundle, hence none with two entries. *)
Lemma throwing_item_aborts_batch_without_bundle :
  map (throwsOn "input_x2") (map (argsFor "webp" 100) batch3)
    = [Some []; None; Some []]
  /\ statuses (convertImages true (throwsOn "input_x2") (start batch3 "webp" 100))
     = [Status.done; Status.processing; Status.idle]
  /\ entries (convertImages true (throwsOn "input_x2") (start batch3 "webp" 100))
     = None
  /\ entries (convertImages true converts (start batch3 "webp" 100))
     = Some ["a.b.webp"; "logo.webp"; "photo.webp"].
Proof. repeat split; vm_compute; reflexivity. Qed.

(* ===================================================================== *)
(** * Status of the items over a whole session                            *)
(* ===================================================================== *)

Import Session.

(** ** A run that nothing interrupts is [convertImages] *)

Lemma settle_done (fuel : nat) (s : Async.Live) :
  Async.pending s = None -> Async.settle fuel s = s.
Proof. intros H. destruct fuel; cbn [Async.settle]; [reflexivity | now rewrite H]. Qed.

Lemma settle_step (k : nat) (r : Async.Run) (w : World) :
  Async.settle (S k) {| Async.now := w; Async.pending := Some r |}
  = Async.settle k (Async.resume r w).
Proof. reflexivity. Qed.

Ltac resume_at Hlt :=
  rewrite settle_step; unfold Async.resume;
  cbn [Async.awaiting Async.at_ Async.withImages Async.withFolder
       Async.updatedImages Async.i Async.outputFormat Async.quality
       Async.ffmpeg Async.folder];
  rewrite list_lookup_insert_eq by (rewrite ?length_insert; exact Hlt);
  cbv beta iota zeta.

(** The six awaits of one pass through the body of the loop. *)
Lemma body_settles (r : Async.Run) (w : World) (img0 : ImageItem) (k : nat) :
  Async.updatedImages r !! Async.i r = Some img0 ->
  Async.outputFormat r = outputFormat (ui w) ->
  Async.quality r = quality (ui w) ->
  Async.settle (6 + k) (Async.enter r w)
  = match Async.ffmpeg r (argsFor (outputFormat (ui w)) (quality (ui w)) img0) with
    | Some out =>
        Async.settle k
          (Async.enter
             (Async.onward r (finished (Async.i r) img0 out (Async.frameOf r w)))
             (world (finished (Async.i r) img0 out (Async.frameOf r w))))
    | None => Async.caught (world (started (Async.i r) img0 (Async.frameOf r w)))
    end.
Proof.
  intros Hi Hf Hq.
  assert (Hlt : (Async.i r < length (Async.updatedImages r))%nat)
    by now apply lookup_lt_Some in Hi.
  pose proof (input_output_names_differ (outputFormat (ui w)) img0) as Hne.
  unfold Async.enter at 1. rewrite Hi.
  change (6 + k)%nat with (S (S (S (S (S (S k)))))).
  resume_at Hlt. resume_at Hlt. resume_at Hlt.
  rewrite Hf, Hq.
  change (planImage ?a ?b (withStatus Status.processing img0)
            (inputNameOf (withStatus Status.processing img0))
            (outputNameOf ?a (withStatus Status.processing img0)))
    with (argsFor a b img0).
  change (inputNameOf (withStatus Status.processing img0)) with (inputNameOf img0).
  unfold exec.
  destruct (Async.ffmpeg r (argsFor _ _ img0)) as [out|];
    [|rewrite settle_done; reflexivity].
  resume_at Hlt. rewrite Hf.
  change (outputNameOf ?a (withStatus Status.processing img0))
    with (outputNameOf a img0).
  unfold readFile, writeFile. cbn [vfs setVfs setImages].
  rewrite argsFor_last, lookup_insert_eq.
  resume_at Hlt.
  unfold deleteFile. cbn [vfs setVfs setImages].
  change (inputNameOf (withOutput ?u ?n (withStatus ?s (withStatus ?s' img0))))
    with (inputNameOf img0).
  rewrite lookup_insert_ne, lookup_insert_eq by congruence.
  resume_at Hlt.
  unfold deleteFile. cbn [vfs setVfs setImages]. rewrite Hf.
  change (outputNameOf ?a (withOutput ?u ?n (withStatus ?s (withStatus ?s' img0))))
    with (outputNameOf a img0).
  rewrite lookup_delete_ne, lookup_insert_eq by congruence.
  reflexivity.
Qed.

Lemma loop_settles (n : nat) :
  forall (r : Async.Run) (w : World) (k : nat),
    Async.outputFormat r = outputFormat (ui w) ->
    Async.quality r = quality (ui w) ->
    length (Async.updatedImages r) = (Async.i r + n)%nat ->
    Async.settle (n * 6 + 1 + k) (Async.enter r w)
    = Async.ended (loop (Async.ffmpeg r) n (Async.i r) (Async.frameOf r w)).
Proof.
  induction n as [|n IH]; intros r w k Hf Hq Hlen.
  - assert (Hi : Async.updatedImages r !! Async.i r = None)
      by (apply lookup_ge_None; lia).
    unfold Async.enter. rewrite Hi.
    change (0 * 6 + 1 + k)%nat with (S k). rewrite settle_step.
    unfold Async.resume. cbn [Async.awaiting Async.at_ Async.folder].
    now rewrite settle_done.
  - destruct (lookup_lt_is_Some_2 (Async.updatedImages r) (Async.i r))
      as [img0 Hi]; [lia|].
    replace (S n * 6 + 1 + k)%nat with (6 + (n * 6 + 1 + k))%nat by lia.
    rewrite (body_settles r w img0 _ Hi Hf Hq).
    cbn [loop].
    rewrite (iteration_spec _ _ _ img0) by exact Hi.
    cbn [Async.frameOf world].
    destruct (Async.ffmpeg r _) as [out|]; [|reflexivity].
    rewrite IH.
    + reflexivity.
    + exact Hf.
    + exact Hq.
    + cbn [Async.onward Async.updatedImages Async.i finished updatedImages
           Async.frameOf].
      rewrite !length_insert. lia.
Qed.

(** A click and the continuations of the run, with nothing in between,
    leave the component as [convertImages] does. *)
Lemma click_settles (loaded : bool) (engine : Engine) (w : World) (k : nat) :
  Async.settle (length (images (ui w)) * 6 + 1 + k) (Async.click loaded engine w)
  = {| Async.now := convertImages loaded engine w; Async.pending := None |}.
Proof.
  unfold Async.click, convertImages.
  destruct (negb loaded || (length (images (ui w)) =? 0)%nat);
    [now apply settle_done|].
  rewrite loop_settles; [|reflexivity|reflexivity|reflexivity].
  cbn [Async.ffmpeg Async.i Async.frameOf Async.updatedImages Async.folder
       Async.processedCount updatedImages].
  destruct (loop engine _ 0 _); reflexivity.
Qed.

Lemma resumes_settle (k : nat) (s : Async.Live) :
  fold_left (fun s op => perform op s) (repeat Resume k) s = Async.settle k s.
Proof.
  revert s. induction k as [|k IH]; intros s; [reflexivity|].
  cbn [repeat fold_left perform Async.settle].
  destruct (Async.pending s) as [r|] eqn:E; [apply IH|].
  rewrite IH. now apply settle_done.
Qed.

(** In a session, a click on an enabled Convert button and the
    continuations of the run, with no other operation in between, are
    [convertImages]. *)
Lemma uninterrupted_run (loaded : bool) (engine : Engine) (w : World) :
  processing (ui w) = false ->
  session (uninterrupted loaded engine (length (images (ui w)))) w
  = convertImages loaded engine w.
Proof.
  intros Hp. unfold session, uninterrupted, play.
  cbn [fold_left perform Async.now]. rewrite Hp, orb_false_r.
  destruct (length (images (ui w)) =? 0)%nat eqn:E.
  - rewrite resumes_settle, settle_done by reflexivity.
    unfold convertImages. rewrite E, orb_true_r. reflexivity.
  - rewrite resumes_settle.
    replace (length (images (ui w)) * 6 + 1)%nat
      with (length (images (ui w)) * 6 + 1 + 0)%nat by lia.
    now rewrite click_settles.
Qed.

(** ** What each operation does to the statuses *)

Lemma kept_refl (x : ImageItem) : kept x x.
Proof. now split. Qed.

Lemma Forall_held_self (l : list ImageItem) :
  Forall (fun y => (exists x, x ∈ l /\ kept x y) \/ status y = Status.idle) l.
Proof.
  apply Forall_forall. intros y Hy. left. exists y. split; [exact Hy | apply kept_refl].
Qed.

(** The loop test and the marking of the next item. *)
Lemma enter_cases (r : Async.Run) (w : World) :
  (exists x,
      Async.updatedImages r !! Async.i r = Some x
      /\ Async.enter r w
         = {| Async.now :=
                setImages (<[Async.i r := withStatus Status.processing x]>
                             (Async.updatedImages r)) w;
              Async.pending :=
                Some (Async.at_ Async.fetchFile
                        (Async.withImages
                           (<[Async.i r := withStatus Status.processing x]>
                              (Async.updatedImages r)) r)) |})
  \/ (Async.updatedImages r !! Async.i r = None
      /\ Async.enter r w
         = {| Async.now := w;
              Async.pending := Some (Async.at_ Async.generateZip r) |}).
Proof.
  unfold Async.enter. destruct (Async.updatedImages r !! Async.i r) as [x|];
    [left; now exists x | right; now split].
Qed.

Lemma enter_coherent (r : Async.Run) (w : World) :
  processing (ui w) = true ->
  Forall (fun y => (exists x, x ∈ Async.updatedImages r /\ kept x y)
                   \/ status y = Status.idle) (images (ui w)) ->
  coherent (Async.enter r w).
Proof.
  intros Hp Hall. destruct (enter_cases r w) as [(x & Hx & ->) | (Hx & ->)];
    unfold coherent; cbn [Async.pending Async.now Async.awaiting Async.at_
                          Async.withImages Async.updatedImages Async.i].
  - split; [exact Hp|]. split.
    + exists (withStatus Status.processing x). split; [|reflexivity].
      apply list_lookup_insert_eq. now apply lookup_lt_Some in Hx.
    + apply Forall_held_self.
  - split; [exact Hp|]. split; [exact I | exact Hall].
Qed.

Lemma enter_step (r : Async.Run) (w : World) :
  (images (ui (Async.now (Async.enter r w))) = images (ui w)
   /\ held (Async.enter r w) = Async.updatedImages r)
  \/ (writes (Async.updatedImages r) (held (Async.enter r w))
      /\ images (ui (Async.now (Async.enter r w))) = held (Async.enter r w)
      /\ is_Some (Async.pending (Async.enter r w))).
Proof.
  destruct (enter_cases r w) as [(x & Hx & ->) | (Hx & ->)].
  - right. unfold held. cbn. split; [|split; [reflexivity | eauto]].
    exists (Async.i r), x, (withStatus Status.processing x).
    split; [exact Hx|]. split; [reflexivity|]. split; [reflexivity | now left].
  - left. now split.
Qed.

Lemma resume_coherent (r : Async.Run) (w : World) :
  coherent {| Async.now := w; Async.pending := Some r |} ->
  coherent (Async.resume r w).
Proof.
  unfold coherent at 1. cbn [Async.pending Async.now].
  intros (Hp & Hcur & Hall). unfold Async.resume.
  destruct (Async.awaiting r) eqn:Ha;
    try (destruct (Async.updatedImages r !! Async.i r) as [img|] eqn:Hi;
         [|exact I]).
  - destruct Hcur as (x & [= <-] & Hst). unfold coherent; cbn. eauto 6.
  - destruct Hcur as (x & [= <-] & Hst). unfold coherent; cbn. eauto 6.
  - destruct Hcur as (x & [= <-] & Hst).
    destruct (exec _ _ _); [|exact I]. unfold coherent; cbn. eauto 6.
  - destruct (readFile _ _); [|exact I]. unfold coherent; cbn.
    split; [exact Hp|]. split; [exact I | apply Forall_held_self].
  - destruct (deleteFile _ _); [|exact I]. unfold coherent; cbn. auto.
  - destruct (deleteFile _ _); [|exact I].
    apply enter_coherent; [exact Hp | exact Hall].
  - exact I.
Qed.

Lemma resume_step (r : Async.Run) (w : World) :
  coherent {| Async.now := w; Async.pending := Some r |} ->
  (images (ui (Async.now (Async.resume r w))) = images (ui w)
   /\ (Async.pending (Async.resume r w) = None
       \/ held (Async.resume r w) = Async.updatedImages r))
  \/ (writes (Async.updatedImages r) (held (Async.resume r w))
      /\ images (ui (Async.now (Async.resume r w))) = held (Async.resume r w)
      /\ is_Some (Async.pending (Async.resume r w))).
Proof.
  unfold coherent. cbn [Async.pending Async.now].
  intros (Hp & Hcur & Hall). unfold Async.resume.
  destruct (Async.awaiting r) eqn:Ha;
    try (destruct (Async.updatedImages r !! Async.i r) as [img|] eqn:Hi;
         [|left; split; [reflexivity | now left]]).
  - left. split; [reflexivity | now right].
  - left. split; [reflexivity | now right].
  - destruct (exec _ _ _); left; (split; [reflexivity|]); [now right | now left].
  - destruct (readFile _ _) as [data|]; [|left; split; [reflexivity | now left]].
    right. unfold held; cbn. split; [|split; [reflexivity | eauto]].
    destruct Hcur as (x & [= <-] & Hst).
    eexists (Async.i r), img, _. split; [exact Hi|]. split; [reflexivity|].
    split; [reflexivity|]. right. now split.
  - destruct (deleteFile _ _); left; (split; [reflexivity|]); [now right | now left].
  - destruct (deleteFile _ _) as [fs|]; [|left; split; [reflexivity | now left]].
    destruct (enter_step (Async.next r) (setVfs fs w)) as [[H1 H2] | H];
      [left; split; [exact H1 | right; exact H2] | right; exact H].
  - left. split; [reflexivity | now left].
Qed.

Lemma click_cases (loaded : bool) (engine : Engine) (w : World) :
  Async.click loaded engine w = {| Async.now := w; Async.pending := None |}
  \/ exists r,
       Async.updatedImages r = images (ui w)
       /\ Async.click loaded engine w
          = Async.enter r (setZipUrl None (setProcessing true w)).
Proof.
  unfold Async.click.
  destruct (negb loaded || (length (images (ui w)) =? 0)%nat); [now left|].
  right. eexists. split; [|reflexivity]. reflexivity.
Qed.

Lemma perform_coherent (op : Op) (s : Async.Live) :
  coherent s -> coherent (perform op s).
Proof.
  intros H. destruct s as [w p].
  assert (Hh : forall h : World -> World,
             processing (ui (h w)) = processing (ui w) ->
             (forall Q : ImageItem -> Prop,
                 (forall y, status y = Status.idle -> Q y) ->
                 (forall x y, kept x y -> Q x -> Q y) ->
                 Forall Q (images (ui w)) -> Forall Q (images (ui (h w)))) ->
             coherent (handled h {| Async.now := w; Async.pending := p |})).
  { intros h Hp Hq. unfold coherent, handled in *. cbn [Async.pending Async.now] in *.
    destruct p as [r|]; [|exact I]. destruct H as (H1 & H2 & H3).
    split; [now rewrite Hp|]. split; [exact H2|].
    apply Hq; [now right | | exact H3].
    intros x y [Hid Hst] [(x0 & Hx0 & Hid0 & Hst0) | Hidle].
    - left. exists x0. split; [exact Hx0|]. split; congruence.
    - right. congruence. }
  destruct op as [files|i|i v|i d v|loaded engine|]; cbn [perform].
  - apply Hh; [reflexivity|]. intros Q Hidle _ Hall.
    cbn. apply Forall_app. split; [exact Hall|].
    apply Forall_forall. intros y Hy. apply list_elem_of_In, in_map_iff in Hy.
    destruct Hy as (u & <- & _). now apply Hidle.
  - apply Hh; [reflexivity|]. intros Q _ _ Hall. cbn.
    apply Forall_forall. intros y Hy. apply list_elem_of_In, filter_In in Hy.
    destruct Hy as [Hy _]. apply list_elem_of_In in Hy.
    revert y Hy. now apply Forall_forall.
  - apply Hh; [reflexivity|]. intros Q _ Hk Hall. cbn.
    apply Forall_forall. intros y Hy. apply list_elem_of_In, in_map_iff in Hy.
    destruct Hy as (x & <- & Hx). apply list_elem_of_In in Hx.
    pose proof (proj1 (Forall_forall _ _) Hall x Hx) as HQ.
    destruct (String.eqb (id x) i); [|exact HQ].
    apply (Hk x); [now split | exact HQ].
  - apply Hh; [reflexivity|]. intros Q _ Hk Hall. cbn.
    apply Forall_forall. intros y Hy. apply list_elem_of_In, in_map_iff in Hy.
    destruct Hy as (x & <- & Hx). apply list_elem_of_In in Hx.
    pose proof (proj1 (Forall_forall _ _) Hall x Hx) as HQ.
    destruct (negb (String.eqb (id x) i)); [exact HQ|].
    apply (Hk x); [destruct d; now split | exact HQ].
  - cbn [Async.now].
    destruct ((length (images (ui w)) =? 0)%nat || processing (ui w)) eqn:G;
      [exact H|].
    destruct (click_cases loaded engine w) as [-> | (r & Hr & ->)]; [exact I|].
    apply enter_coherent; [reflexivity|]. rewrite Hr. apply Forall_held_self.
  - cbn [Async.pending Async.now]. destruct p as [r|]; [|exact H].
    now apply resume_coherent.
Qed.

Lemma fold_coherent (ops : list Op) (s : Async.Live) :
  coherent s -> coherent (fold_left (fun s op => perform op s) ops s).
Proof.
  revert s. induction ops as [|op ops IH]; intros s H; [exact H|].
  cbn [fold_left]. apply IH. now apply perform_coherent.
Qed.

Lemma play_coherent (ops : list Op) (w : World) : coherent (play ops w).
Proof. apply fold_coherent. exact I. Qed.

(** The Convert button and the continuation of a run, on a coherent
    state. *)
Lemma run_step (op : Op) (s : Async.Live) :
  coherent s ->
  (exists loaded engine, op = Convert loaded engine) \/ op = Resume ->
  (images (ui (Async.now (perform op s))) = images (ui (Async.now s))
   /\ (Async.pending (perform op s) = None \/ held (perform op s) = held s))
  \/ (writes (held s) (held (perform op s))
      /\ images (ui (Async.now (perform op s))) = held (perform op s)
      /\ is_Some (Async.pending (perform op s))).
Proof.
  intros H [(loaded & engine & ->) | ->]; destruct s as [w p]; cbn [perform].
  - cbn [Async.now].
    destruct ((length (images (ui w)) =? 0)%nat || processing (ui w)) eqn:G;
      [left; split; [reflexivity | now right]|].
    apply orb_false_iff in G as [_ Gp].
    assert (p = None) as ->.
    { destruct p as [r|]; [|reflexivity].
      destruct H as [Hp _]. cbn in Hp. congruence. }
    destruct (click_cases loaded engine w) as [-> | (r & Hr & ->)];
      [left; split; [reflexivity | now left]|].
    destruct (enter_step r (setZipUrl None (setProcessing true w)))
      as [[H1 H2] | H']; rewrite Hr in *;
      [left; split; [exact H1 | right; exact H2] | right; exact H'].
  - cbn [Async.pending Async.now]. destruct p as [r|];
      [|left; split; [reflexivity | now left]].
    exact (resume_step r w H).
Qed.

(** ** Properties of items that every operation keeps *)

Section Closed.
Variable P : ImageItem -> Prop.
Hypothesis P_status :
  forall s x, s = Status.processing \/ s = Status.done -> P x -> P (withStatus s x).
Hypothesis P_output : forall u n x, P x -> P (withOutput u n x).
Hypothesis P_keyword : forall v x, P x -> P (withKeyword v x).
Hypothesis P_dimension : forall d v x, P x -> P (changeDimension d v x).

Lemma enter_closed (r : Async.Run) (w : World) :
  Forall P (Async.updatedImages r) -> Forall P (images (ui w)) ->
  Forall P (images (ui (Async.now (Async.enter r w))))
  /\ Forall P (held (Async.enter r w)).
Proof.
  intros Ha Hw. destruct (enter_cases r w) as [(x & Hx & ->) | (Hx & ->)];
    unfold held; cbn; [|now split].
  assert (Forall P (<[Async.i r := withStatus Status.processing x]>
                      (Async.updatedImages r))); [|now split].
  apply Forall_insert; [exact Ha|]. apply P_status; [now left|].
  exact (proj1 (Forall_lookup _ _) Ha _ _ Hx).
Qed.

Lemma resume_closed (r : Async.Run) (w : World) :
  Forall P (Async.updatedImages r) -> Forall P (images (ui w)) ->
  Forall P (images (ui (Async.now (Async.resume r w))))
  /\ Forall P (held (Async.resume r w)).
Proof.
  intros Ha Hw. unfold Async.resume.
  destruct (Async.awaiting r);
    try (destruct (Async.updatedImages r !! Async.i r) as [img|] eqn:Hi;
         [|now split]);
    try (now split).
  - destruct (exec _ _ _); now split.
  - destruct (readFile _ _) as [data|]; [|now split]. unfold held; cbn.
    match goal with |- Forall P ?l /\ _ => assert (Forall P l); [|now split] end.
    apply Forall_insert; [exact Ha|]. apply P_output, P_status; [now right|].
    exact (proj1 (Forall_lookup _ _) Ha _ _ Hi).
  - destruct (deleteFile _ _); now split.
  - destruct (deleteFile _ _) as [fs|]; [|now split].
    now apply enter_closed.
Qed.

Lemma perform_closed (op : Op) (s : Async.Live) :
  (forall files u, op = Enqueue files -> u ∈ files -> P (newImage u)) ->
  Forall P (images (ui (Async.now s))) -> Forall P (held s) ->
  Forall P (images (ui (Async.now (perform op s))))
  /\ Forall P (held (perform op s)).
Proof.
  intros Hnew Hw Ha. destruct s as [w p].
  assert (Hh : forall h : World -> World,
             Forall P (images (ui (h w))) ->
             Forall P (images (ui (Async.now
                        (handled h {| Async.now := w; Async.pending := p |}))))
             /\ Forall P (held (handled h {| Async.now := w; Async.pending := p |}))).
  { intros h Hq. split; [exact Hq|]. unfold held, handled in *.
    cbn [Async.pending Async.now] in *. now destruct p. }
  cbn [Async.now] in Hw.
  destruct op as [files|i|i v|i d v|loaded engine|]; cbn [perform].
  - apply Hh. cbn. apply Forall_app. split; [exact Hw|].
    apply Forall_forall. intros y Hy. apply list_elem_of_In, in_map_iff in Hy.
    destruct Hy as (u & <- & Hu). apply (Hnew files); [reflexivity|].
    now apply list_elem_of_In.
  - apply Hh. cbn. apply Forall_forall. intros y Hy.
    apply list_elem_of_In, filter_In in Hy. destruct Hy as [Hy _].
    apply list_elem_of_In in Hy. revert y Hy. now apply Forall_forall.
  - apply Hh. cbn. apply Forall_forall. intros y Hy.
    apply list_elem_of_In, in_map_iff in Hy. destruct Hy as (x & <- & Hx).
    apply list_elem_of_In in Hx.
    pose proof (proj1 (Forall_forall _ _) Hw x Hx) as HP.
    destruct (String.eqb (id x) i); [now apply P_keyword | exact HP].
  - apply Hh. cbn. apply Forall_forall. intros y Hy.
    apply list_elem_of_In, in_map_iff in Hy. destruct Hy as (x & <- & Hx).
    apply list_elem_of_In in Hx.
    pose proof (proj1 (Forall_forall _ _) Hw x Hx) as HP.
    destruct (negb (String.eqb (id x) i)); [exact HP | now apply P_dimension].
  - cbn [Async.now].
    destruct ((length (images (ui w)) =? 0)%nat || processing (ui w));
      [now split|].
    destruct (click_cases loaded engine w) as [-> | (r & Hr & ->)]; [now split|].
    apply enter_closed; [now rewrite Hr | exact Hw].
  - cbn [Async.pending Async.now]. destruct p as [r|]; [|now split].
    now apply resume_closed.
Qed.

Lemma fold_closed (ops : list Op) :
  forall s : Async.Live,
    (forall files u, Enqueue files ∈ ops -> u ∈ files -> P (newImage u)) ->
    Forall P (images (ui (Async.now s))) -> Forall P (held s) ->
    Forall P (images (ui (Async.now (fold_left (fun s op => perform op s) ops s)))).
Proof.
  induction ops as [|op ops IH]; intros s Hnew Hw Ha; [exact Hw|].
  cbn [fold_left].
  destruct (perform_closed op s) as [Hw' Ha']; [|exact Hw|exact Ha|].
  - intros files u -> Hu. apply (Hnew files); [apply elem_of_cons; now left | exact Hu].
  - apply IH; [|exact Hw'|exact Ha'].
    intros files u Hf. apply Hnew. apply elem_of_cons. now right.
Qed.

Lemma session_closed (ops : list Op) (w : World) :
  (forall files u, Enqueue files ∈ ops -> u ∈ files -> P (newImage u)) ->
  Forall P (images (ui w)) -> Forall P (images (ui (session ops w))).
Proof. intros Hnew Hw. now apply fold_closed. Qed.

End Closed.

Lemma no_error_is_set (ops : list Op) (w : World) :
  Forall (fun x => status x <> Status.error) (images (ui w)) ->
  Forall (fun x => status x <> Status.error) (images (ui (session ops w))).
Proof.
  apply session_closed; try (intros; assumption).
  - intros s x [-> | ->] _; discriminate.
  - intros d v x H. now destruct d.
  - intros files u _ _. discriminate.
Qed.

(** C7.  Over any sequence of operations on the image queue (enqueue,
    discard, keyword and size edits, clicks on Convert, and the
    continuations of the pending run after each of its awaits, in any
    order), what the next operation does to the statuses depends on the
    operation.  An enqueue appends [idle] items, a discard removes items, a
    keyword or size edit keeps every identifier and status; none of these
    touches the array of a pending run.  A click on Convert or a
    continuation of the run either renders nothing, or writes one item of
    the run's array, to [processing] whatever its status was or from
    [processing] to [done], and renders that array.  While a run is
    pending, every rendered item has the identifier and status of an item
    of that array or is [idle].  No operation sets [error]. *)
Theorem status_changes_in_a_session (ops : list Op) (w : World) (op : Op) :
  coherent (play ops w)
  /\ match op with
     | Enqueue files =>
         Async.pending (perform op (play ops w)) = Async.pending (play ops w)
         /\ images (ui (Async.now (perform op (play ops w))))
            = images (ui (Async.now (play ops w))) ++ map newImage files
         /\ Forall (fun y => status y = Status.idle) (map newImage files)
     | Discard i =>
         Async.pending (perform op (play ops w)) = Async.pending (play ops w)
         /\ images (ui (Async.now (perform op (play ops w))))
            = List.filter (fun x => negb (String.eqb (id x) i))
                (images (ui (Async.now (play ops w))))
     | Keyword _ _ | Resize _ _ _ =>
         Async.pending (perform op (play ops w)) = Async.pending (play ops w)
         /\ Forall2 kept (images (ui (Async.now (play ops w))))
                         (images (ui (Async.now (perform op (play ops w)))))
     | Convert _ _ | Resume =>
         (images (ui (Async.now (perform op (play ops w))))
            = images (ui (Async.now (play ops w)))
          /\ (Async.pending (perform op (play ops w)) = None
              \/ held (perform op (play ops w)) = held (play ops w)))
         \/ (writes (held (play ops w)) (held (perform op (play ops w)))
             /\ images (ui (Async.now (perform op (play ops w))))
                = held (perform op (play ops w))
             /\ is_Some (Async.pending (perform op (play ops w))))
     end
  /\ (Forall (fun x => status x <> Status.error) (images (ui w)) ->
      Forall (fun x => status x <> Status.error) (images (ui (session ops w)))).
Proof.
  pose proof (play_coherent ops w) as Hco.
  split; [exact Hco|]. split; [|apply no_error_is_set].
  destruct op as [files|i|i v|i d v|loaded engine|].
  - split; [reflexivity|]. split; [reflexivity|].
    apply Forall_forall. intros y Hy. apply list_elem_of_In, in_map_iff in Hy.
    now destruct Hy as (u & <- & _).
  - split; reflexivity.
  - split; [reflexivity|]. cbn.
    induction (images (ui (Async.now (play ops w)))) as [|x l IH];
      constructor; [|exact IH].
    destruct (String.eqb (id x) i); now split.
  - split; [reflexivity|]. cbn.
    induction (images (ui (Async.now (play ops w)))) as [|x l IH];
      constructor; [|exact IH].
    destruct (negb (String.eqb (id x) i)); [now split|]. destruct d; now split.
  - apply run_step; [exact Hco|]. left. eauto.
  - apply run_step; [exact Hco|]. now right.
Qed.

(** C7, against forward-only statuses: clicking Convert a second time
    takes the [done] item back to [processing]. *)
Lemma reconversion_returns_done_items_to_processing :
  map (map status)
      (rendered (session (uninterrupted true converts 1
                            ++ uninterrupted true converts 1)
                   (start [item "a.png" "x1" "" 10 10] "webp" 100)))
    = [[Status.processing]; [Status.done]; [Status.processing]; [Status.done]]
  /\ ~ forwardOnly Status.done Status.processing.
Proof. split; [vm_compute; reflexivity | intros []]. Qed.

(** A run renders its own array: an item discarded while the run is in
    progress is back in the queue at the run's next rendering. *)
Lemma discard_during_a_run_is_undone :
  map id (images (ui (session [Convert true converts; Discard "x2"] Samples.queue)))
    = ["x1"; "x3"]
  /\ map (fun x => (id x, status x))
         (images (ui (session ([Convert true converts; Discard "x2"]
                                 ++ repeat Resume 4) Samples.queue)))
     = [("x1", Status.done); ("x2", Status.idle); ("x3", Status.idle)].
Proof. split; vm_compute; reflexivity. Qed.

Import Plan Batch Queue VideoPlan Page Inputs Probe.

(* ===================================================================== *)
(** * More of the image plan                                            *)
(* ===================================================================== *)

Lemma argsFor_parts (fmt : string) (q : Z) (img : ImageItem) :
  argsFor fmt q img
    = ["-i"; inputNameOf img] ++ scaleArgs img ++ qualityArgs fmt q
        ++ metadataArgs img ++ [outputNameOf fmt img].
Proof.
  unfold argsFor, planImage, scaleArgs, qualityArgs, metadataArgs. cbv zeta.
  rewrite <- negb_andb.
  destruct ((targetWidth img =? originalWidth img)
            && (targetHeight img =? originalHeight img));
    destruct (String.eqb fmt "jpg" || String.eqb fmt "jpeg");
    destruct (String.eqb fmt "webp"); destruct (hasKeyword img);
    cbn [negb]; rewrite <- ?app_assoc; reflexivity.
Qed.

Lemma valuesOf_hit (flag v : string) (rest : list string) :
  valuesOf flag (flag :: v :: rest) = v :: valuesOf flag rest.
Proof. cbn [valuesOf]. now rewrite String.eqb_refl. Qed.

Lemma valuesOf_miss (flag a : string) (rest : list string) :
  String.eqb a flag = false -> valuesOf flag (a :: rest) = valuesOf flag rest.
Proof. intros H. cbn [valuesOf]. now rewrite H. Qed.

Ltac printed_number :=
  unfold JS.toString;
  match goal with
  | |- context [Z.to_int ?n] => destruct (Z.to_int n) as [d|d]; destruct d; reflexivity
  end.

Lemma toString_not_q (n : Z) : String.eqb (JS.toString n) "-q:v" = false.
Proof. printed_number. Qed.
Lemma toString_not_quality (n : Z) : String.eqb (JS.toString n) "-quality" = false.
Proof. printed_number. Qed.
Lemma toString_not_vf (n : Z) : String.eqb (JS.toString n) "-vf" = false.
Proof. printed_number. Qed.
Lemma toString_not_i (n : Z) : String.eqb (JS.toString n) "-i" = false.
Proof. printed_number. Qed.

(** No metadata value is one of the flags. *)
Lemma metadataArgs_free (flag : string) (img : ImageItem) :
  String.eqb "-metadata" flag = false ->
  (forall v, String.eqb (String "t" v) flag = false) ->
  (forall v, String.eqb (String "d" v) flag = false) ->
  (forall v, String.eqb (String "c" v) flag = false) ->
  (forall v, String.eqb (String "a" v) flag = false) ->
  (forall v, String.eqb (String "I" v) flag = false) ->
  Forall (fun a => String.eqb a flag = false) (metadataArgs img).
Proof.
  intros Hm Ht Hd Hc Ha HI. unfold metadataArgs.
  destruct (hasKeyword img); [|constructor].
  cbn [flat_map metaTags app].
  repeat (constructor; [first [exact Hm | apply Ht | apply Hd | apply Hc | apply Ha | apply HI]|]).
  constructor.
Qed.

Ltac flag_free :=
  match goal with
  | |- Forall _ (metadataArgs _) => apply metadataArgs_free; try reflexivity; intros; reflexivity
  | |- Forall _ (scaleArgs ?i) =>
      unfold scaleArgs; destruct (_ && _); repeat constructor
  | |- Forall _ (qualityArgs ?f ?q) =>
      unfold qualityArgs; destruct (_ || _); [|destruct (String.eqb f "webp")];
      repeat constructor;
      first [apply toString_not_q | apply toString_not_quality
            | apply toString_not_vf | apply toString_not_i | apply toString_not_metadata ]
  | |- Forall _ _ => repeat constructor
  end.

(** X1.  The quality argument of the image plan depends on the format
    alone: [webp] passes the user quality through unchanged after
    [-quality], [jpg] and [jpeg] pass the mapped value after [-q:v], and
    every other format gets neither option.  Each option occurs at most
    once. *)
Theorem quality_argument_by_format (fmt : string) (q : Z) (img : ImageItem) :
  (fmt = "webp" ->
     valuesOf "-quality" (argsFor fmt q img) = [JS.toString q]
     /\ valuesOf "-q:v" (argsFor fmt q img) = [])
  /\ (fmt = "jpg" \/ fmt = "jpeg" ->
        valuesOf "-q:v" (argsFor fmt q img) = [JS.toString (jpegQuality q)]
        /\ valuesOf "-quality" (argsFor fmt q img) = [])
  /\ (fmt <> "webp" -> fmt <> "jpg" -> fmt <> "jpeg" ->
        valuesOf "-q:v" (argsFor fmt q img) = []
        /\ valuesOf "-quality" (argsFor fmt q img) = []).
Proof.
  assert (Hpre : forall flag rest,
            String.eqb "-i" flag = false ->
            String.eqb (inputNameOf img) flag = false ->
            Forall (fun a => String.eqb a flag = false) (scaleArgs img) ->
            valuesOf flag (["-i"; inputNameOf img] ++ scaleArgs img ++ rest)
              = valuesOf flag rest).
  { intros flag rest H1 H2 H3. cbn [app].
    rewrite !valuesOf_miss by assumption. now apply valuesOf_skip. }
  assert (Hpost : forall flag,
            String.eqb (outputNameOf fmt img) flag = false ->
            Forall (fun a => String.eqb a flag = false) (metadataArgs img) ->
            valuesOf flag (metadataArgs img ++ [outputNameOf fmt img]) = []).
  { intros flag H1 H2. rewrite valuesOf_skip by assumption.
    now rewrite valuesOf_miss. }
  rewrite argsFor_parts.
  split; [|split].
  - intros ->. rewrite !Hpre by (try reflexivity; flag_free).
    change (qualityArgs "webp" q) with ["-quality"; JS.toString q].
    cbn [app]. rewrite valuesOf_hit.
    rewrite !valuesOf_miss by (try reflexivity; apply toString_not_q).
    rewrite !Hpost by (try reflexivity; flag_free). split; reflexivity.
  - intros Hf.
    assert (E : qualityArgs fmt q = ["-q:v"; JS.toString (jpegQuality q)])
      by (destruct Hf as [-> | ->]; reflexivity).
    rewrite !Hpre by (try reflexivity; flag_free). rewrite E.
    cbn [app]. rewrite valuesOf_hit.
    rewrite !valuesOf_miss by (try reflexivity; apply toString_not_quality).
    rewrite !Hpost by (try reflexivity; flag_free). split; reflexivity.
  - intros H1 H2 H3.
    assert (E : qualityArgs fmt q = []).
    { unfold qualityArgs.
      destruct (String.eqb_spec fmt "jpg"); [contradiction|].
      destruct (String.eqb_spec fmt "jpeg"); [contradiction|].
      destruct (String.eqb_spec fmt "webp"); [contradiction|]. reflexivity. }
    rewrite !Hpre by (try reflexivity; flag_free). rewrite E.
    cbn [app]. rewrite !Hpost by (try reflexivity; flag_free). split; reflexivity.
Qed.

Lemma scale_values (fmt : string) (q : Z) (img : ImageItem) :
  (targetWidth img = originalWidth img /\ targetHeight img = originalHeight img ->
     valuesOf "-vf" (argsFor fmt q img) = [])
  /\ (targetWidth img <> originalWidth img \/ targetHeight img <> originalHeight img ->
        valuesOf "-vf" (argsFor fmt q img)
          = ["scale=" +:+ JS.toString (targetWidth img) +:+ ":"
               +:+ JS.toString (targetHeight img)]).
Proof.
  assert (Htail : valuesOf "-vf" (qualityArgs fmt q ++ metadataArgs img
                                    ++ [outputNameOf fmt img]) = []).
  { rewrite valuesOf_skip by flag_free.
    rewrite valuesOf_skip by flag_free. reflexivity. }
  rewrite argsFor_parts. cbn [app].
  rewrite !valuesOf_miss by reflexivity.
  unfold scaleArgs.
  split.
  - intros [-> ->]. rewrite !Z.eqb_refl. cbn [andb app]. exact Htail.
  - intros H.
    destruct (Z.eqb_spec (targetWidth img) (originalWidth img));
      destruct (Z.eqb_spec (targetHeight img) (originalHeight img));
      cbn [andb app]; try (rewrite valuesOf_hit, Htail; reflexivity).
    destruct H; contradiction.
Qed.

(** X2.  The plan holds a scale filter exactly when the target size
    differs from the original size, and then one filter, built from the
    target width and height. *)
Theorem scale_filter_iff_resized (fmt : string) (q : Z) (img : ImageItem) :
  (targetWidth img = originalWidth img /\ targetHeight img = originalHeight img ->
     valuesOf "-vf" (argsFor fmt q img) = [])
  /\ (targetWidth img <> originalWidth img \/ targetHeight img <> originalHeight img ->
        valuesOf "-vf" (argsFor fmt q img)
          = ["scale=" +:+ JS.toString (targetWidth img) +:+ ":"
               +:+ JS.toString (targetHeight img)]).
Proof. exact (scale_values fmt q img). Qed.

(** Entering the original width gives the original height back, and the
    other way round: the errors of the two roundings are too small to move
    the quotient, or the product, half a pixel away. *)
Lemma restore_height (W H : Z) :
  0 < W <= 2 ^ 25 -> 0 < H <= 2 ^ 25 ->
  JS.round (Double.fl (inject_Z W / Double.fl (inject_Z W / inject_Z H))) = H.
Proof.
  intros HW HH.
  pose proof (width_edit_near W H W HW HH ltac:(lia)) as B. nia.
Qed.

Lemma restore_width (W H : Z) :
  0 < W <= 2 ^ 25 -> 0 < H <= 2 ^ 25 ->
  JS.round (Double.fl (inject_Z H * Double.fl (inject_Z W / inject_Z H))) = W.
Proof.
  intros HW HH.
  pose proof (height_edit_near W H H HW HH ltac:(lia)) as B. nia.
Qed.

(** X3.  An item that was enqueued with a non-zero size (at most 2^25 in
    either dimension) and has had one dimension edited gets its original
    size back when the original width (or the original height) is entered:
    the double-precision recomputation of the other dimension rounds to
    the original one, and the plan holds no scale filter. *)
Theorem original_size_is_restored (u : Upload) (d : Dimension) (v : Z)
    (fmt : string) (q : Z) :
  0 < upW u <= 2 ^ 25 -> 0 < upH u <= 2 ^ 25 ->
  (targetWidth (changeDimension width (upW u) (changeDimension d v (newImage u)))
     = upW u
   /\ targetHeight (changeDimension width (upW u) (changeDimension d v (newImage u)))
      = upH u
   /\ valuesOf "-vf"
        (argsFor fmt q
           (changeDimension width (upW u) (changeDimension d v (newImage u)))) = [])
  /\ (targetWidth (changeDimension height (upH u) (changeDimension d v (newImage u)))
        = upW u
      /\ targetHeight (changeDimension height (upH u) (changeDimension d v (newImage u)))
         = upH u
      /\ valuesOf "-vf"
           (argsFor fmt q
              (changeDimension height (upH u) (changeDimension d v (newImage u)))) = []).
Proof.
  intros Hw Hh.
  pose proof (restore_height (upW u) (upH u) Hw Hh) as Ew.
  pose proof (restore_width (upW u) (upH u) Hw Hh) as Eh.
  assert (Hw' : targetHeight (changeDimension width (upW u)
                                (changeDimension d v (newImage u))) = upH u)
    by (destruct d; exact Ew).
  assert (Hh' : targetWidth (changeDimension height (upH u)
                               (changeDimension d v (newImage u))) = upW u)
    by (destruct d; exact Eh).
  split.
  - split; [now destruct d|]. split; [exact Hw'|].
    apply scale_values. split; [now destruct d|].
    rewrite Hw'. now destruct d.
  - split; [exact Hh'|]. split; [now destruct d|].
    apply scale_values. split; [|now destruct d].
    rewrite Hh'. now destruct d.
Qed.

Lemma original_size_is_restored_witness :
  targetHeight (changeDimension width 1920
                  (changeDimension width 960 (newImage Samples.hero))) = 1080
  /\ targetWidth (changeDimension height 1080
                    (changeDimension width 960 (newImage Samples.hero))) = 1920.
Proof.
  destruct (original_size_is_restored Samples.hero width 960 "webp" 100)
    as ((_ & H1 & _) & (H2 & _)); [cbn; lia | cbn; lia |].
  split; [exact H1 | exact H2].
Defined.


(* ===================================================================== *)
(** * Runs in which no invocation throws                                 *)
(* ===================================================================== *)

Lemma finished_files (fmt : string) (x : ImageItem) (out : list Byte.byte)
    (fs : gmap string (list Byte.byte)) :
  delete (outputNameOf fmt x)
    (delete (inputNameOf x)
       (<[outputNameOf fmt x := out]> (<[inputNameOf x := bytes (file x)]> fs)))
  = cleaned fmt fs x.
Proof.
  pose proof (input_output_names_differ fmt x) as Hne. unfold cleaned.
  rewrite delete_insert_ne by congruence.
  rewrite delete_insert_eq. rewrite delete_insert_eq. reflexivity.
Qed.

Lemma loop_all_converted (engine : Engine) :
  forall (rest pre : list ImageItem) (f : Frame),
    updatedImages f = pre ++ rest ->
    images (ui (world f)) = updatedImages f ->
    convertsAll engine (fmtOf f) (qualityOf f) rest ->
    exists f',
      loop engine (length rest) (length pre) f = Normal f'
      /\ updatedImages f'
         = pre ++ map (convertItem engine (fmtOf f) (qualityOf f)) rest
      /\ images (ui (world f')) = updatedImages f'
      /\ folder f' = fold_left (register engine (fmtOf f) (qualityOf f)) rest (folder f)
      /\ vfs (world f') = fold_left (cleaned (fmtOf f)) rest (vfs (world f))
      /\ alerts (world f') = alerts (world f)
      /\ zipUrl (ui (world f')) = zipUrl (ui (world f))
      /\ processing (ui (world f')) = processing (ui (world f)).
Proof.
  induction rest as [|x rest IH]; intros pre f Hsplit Hco Hall.
  - exists f. rewrite app_nil_r in *. repeat split; auto.
  - inversion Hall as [|? ? [out Hout] Hall']; subst.
    assert (Hi : updatedImages f !! length pre = Some x).
    { rewrite Hsplit. apply list_lookup_middle. reflexivity. }
    cbn [loop length]. rewrite (iteration_spec _ _ _ _ Hi).
    fold (fmtOf f) (qualityOf f). rewrite Hout.
    set (f1 := finished (length pre) x out f).
    assert (H1 : updatedImages f1 = (pre ++ [converted (fmtOf f) x out]) ++ rest).
    { unfold f1, finished, fmtOf. cbn [updatedImages].
      rewrite list_insert_insert_eq, Hsplit.
      rewrite insert_app_r_alt by lia. rewrite Nat.sub_diag.
      now rewrite <- app_assoc. }
    destruct (IH (pre ++ [converted (fmtOf f) x out]) f1 H1 eq_refl Hall')
      as (f' & Hloop & Himgs & Hco' & Hfold & Hvfs & Hal & Hz & Hp).
    change (fmtOf f1) with (fmtOf f) in *.
    change (qualityOf f1) with (qualityOf f) in *.
    assert (Ex : convertItem engine (fmtOf f) (qualityOf f) x
                 = converted (fmtOf f) x out)
      by (unfold convertItem; now rewrite Hout).
    assert (Er : forall z, register engine (fmtOf f) (qualityOf f) z x
                 = <[folderEntryName (fmtOf f) x := out]> z)
      by (intros z; unfold register; now rewrite Hout).
    exists f'. rewrite length_app in Hloop. cbn [length] in Hloop.
    rewrite Nat.add_1_r in Hloop. split; [exact Hloop|].
    split.
    { rewrite Himgs, <- app_assoc. cbn [map app]. now rewrite Ex. }
    split; [exact Hco'|].
    split.
    { rewrite Hfold. cbn [fold_left]. now rewrite Er. }
    split.
    { rewrite Hvfs. cbn [fold_left]. f_equal.
      unfold f1, finished; cbn [world vfs setVfs]. apply finished_files. }
    repeat split; [rewrite Hal | rewrite Hz | rewrite Hp]; reflexivity.
Qed.

Lemma convertImages_all_converted (engine : Engine) (w : World) :
  images (ui w) <> [] ->
  convertsAll engine (outputFormat (ui w)) (quality (ui w)) (images (ui w)) ->
  images (ui (convertImages true engine w))
    = map (convertItem engine (outputFormat (ui w)) (quality (ui w))) (images (ui w))
  /\ zipUrl (ui (convertImages true engine w))
     = Some (fold_left (register engine (outputFormat (ui w)) (quality (ui w)))
                       (images (ui w)) ∅)
  /\ vfs (convertImages true engine w)
     = fold_left (cleaned (outputFormat (ui w))) (images (ui w)) (vfs w)
  /\ alerts (convertImages true engine w) = alerts w
  /\ processing (ui (convertImages true engine w)) = false.
Proof.
  intros Hne Hall. unfold convertImages.
  destruct (Nat.eqb_spec (length (images (ui w))) 0) as [E|_].
  { destruct (images (ui w)); [contradiction | discriminate]. }
  cbn [negb orb].
  set (f0 := {| world := setZipUrl None (setProcessing true w);
                updatedImages := images (ui (setZipUrl None (setProcessing true w)));
                folder := ∅; processedCount := 0 |}).
  destruct (loop_all_converted engine (images (ui w)) [] f0 eq_refl eq_refl Hall)
    as (f' & Hloop & Himgs & Hco & Hfold & Hvfs & Hal & Hz & Hp).
  cbn [length app] in Hloop, Himgs.
  change (length (updatedImages f0)) with (length (images (ui w))).
  rewrite Hloop. cbn. rewrite Hco, Himgs, Hfold, Hvfs, Hal. repeat split.
Qed.

Lemma convertItem_done (engine : Engine) (fmt : string) (q : Z) (imgs : list ImageItem) :
  convertsAll engine fmt q imgs ->
  Forall (fun y => status y = Status.done) (map (convertItem engine fmt q) imgs).
Proof.
  induction 1 as [|x l [out Hout] _ IH]; constructor; [|exact IH].
  unfold convertItem. now rewrite Hout.
Qed.

Lemma filter_all {A} (p : A -> bool) (l : list A) :
  Forall (fun x => p x = true) l -> List.filter p l = l.
Proof. induction 1 as [|x l Hx _ IH]; cbn; [reflexivity|]. now rewrite Hx, IH. Qed.

Lemma filter_none {A} (p : A -> bool) (l : list A) :
  Forall (fun x => p x = false) l -> List.filter p l = [].
Proof. induction 1 as [|x l Hx _ IH]; cbn; [reflexivity|]. now rewrite Hx. Qed.

(** X5.  When the engine converts every item of a non-empty queue, the
    run raises no alert, clears the processing flag, offers a bundle and
    leaves every item [done] with the converted bytes as its output, typed
    [image/<format>], and the download name [finalName.<format>]; keyword,
    sizes and file of the item are as before.  The processing queue shown
    to the user is then empty and every item is listed as completed. *)
Theorem run_without_throw_converts_every_item (engine : Engine) (w : World) :
  images (ui w) <> [] ->
  convertsAll engine (outputFormat (ui w)) (quality (ui w)) (images (ui w)) ->
  alerts (convertImages true engine w) = alerts w
  /\ processing (ui (convertImages true engine w)) = false
  /\ is_Some (zipUrl (ui (convertImages true engine w)))
  /\ length (images (ui (convertImages true engine w))) = length (images (ui w))
  /\ (forall j x, images (ui w) !! j = Some x ->
        exists out,
          engine (argsFor (outputFormat (ui w)) (quality (ui w)) x) = Some out
          /\ images (ui (convertImages true engine w)) !! j
             = Some (withOutput
                       {| blobParts := out; type := "image/" +:+ outputFormat (ui w) |}
                       (finalName x +:+ "." +:+ outputFormat (ui w))
                       (withStatus Status.done x)))
  /\ activeImages (images (ui (convertImages true engine w))) = []
  /\ completedImages (images (ui (convertImages true engine w)))
     = images (ui (convertImages true engine w)).
Proof.
  intros Hne Hall.
  destruct (convertImages_all_converted engine w Hne Hall)
    as (Himgs & Hz & _ & Hal & Hp).
  pose proof (convertItem_done _ _ _ _ Hall) as Hdone.
  rewrite Himgs, Hz.
  split; [exact Hal|]. split; [exact Hp|]. split; [eauto|].
  split; [apply length_map|].
  split.
  { intros j x Hj.
    assert (Hx : x ∈ images (ui w)) by (eapply list_elem_of_lookup_2; eauto).
    unfold convertsAll in Hall. rewrite Forall_forall in Hall.
    destruct (Hall x Hx) as [out Hout]. exists out. split; [exact Hout|].
    change (map ?g ?l) with (g <$> l). rewrite list_lookup_fmap, Hj. cbn.
    unfold convertItem. now rewrite Hout. }
  split.
  - apply filter_none. eapply Forall_impl; [exact Hdone|].
    intros y Hy; cbn in Hy. now rewrite Hy.
  - apply filter_all. eapply Forall_impl; [exact Hdone|].
    intros y Hy; cbn in Hy. now rewrite Hy.
Qed.

Lemma run_without_throw_converts_every_item_witness :
  alerts (convertImages true converts Samples.queue) = []
  /\ is_Some (zipUrl (ui (convertImages true converts Samples.queue)))
  /\ activeImages (images (ui (convertImages true converts Samples.queue))) = [].
Proof.
  destruct (run_without_throw_converts_every_item converts Samples.queue)
    as (Ha & _ & Hz & _ & _ & Hact & _).
  - intros E; discriminate E.
  - repeat constructor; eexists; reflexivity.
  - split; [exact Ha | split; [exact Hz | exact Hact]].
Defined.


Section Bundle.
Variable engine : Engine.
Variable fmt : string.
Variable q : Z.

Lemma bundle_snoc (l : list ImageItem) (x : ImageItem) (out : list Byte.byte) :
  engine (argsFor fmt q x) = Some out ->
  bundleOf engine fmt q (l ++ [x]) = <[folderEntryName fmt x := out]> (bundleOf engine fmt q l).
Proof.
  intros Hout. unfold bundleOf. rewrite fold_left_app. cbn [fold_left].
  unfold register at 1. now rewrite Hout.
Qed.

Lemma bundle_dom (l : list ImageItem) (name : string) :
  convertsAll engine fmt q l ->
  is_Some (bundleOf engine fmt q l !! name) <-> exists x, x ∈ l /\ folderEntryName fmt x = name.
Proof.
  induction l as [|x l IH] using rev_ind; intros Hall.
  - unfold bundleOf; cbn. rewrite lookup_empty. split.
    + intros [? ?]; discriminate.
    + intros (x & Hx & _). inversion Hx.
  - apply Forall_app in Hall as [Hl Hx]. inversion Hx as [|? ? [out Hout] _]; subst.
    rewrite (bundle_snoc _ _ _ Hout), lookup_insert_is_Some, (IH Hl).
    split.
    + intros [<- | [_ (y & Hy & Hn)]].
      * exists x. split; [|reflexivity].
        apply elem_of_app. right. now apply list_elem_of_singleton.
      * exists y. split; [|exact Hn]. apply elem_of_app. now left.
    + intros (y & Hy & Hn). apply elem_of_app in Hy as [Hy|Hy].
      * destruct (decide (folderEntryName fmt x = name)); [now left|].
        right. split; [assumption|]. now exists y.
      * apply list_elem_of_singleton in Hy. subst. now left.
Qed.

Lemma bundle_size (l : list ImageItem) :
  convertsAll engine fmt q l ->
  (size (bundleOf engine fmt q l) <= length l)%nat
  /\ (size (bundleOf engine fmt q l) = length l <-> NoDup (map (folderEntryName fmt) l)).
Proof.
  induction l as [|x l IH] using rev_ind; intros Hall.
  - unfold bundleOf; cbn. rewrite map_size_empty. split; [lia|].
    split; [constructor | reflexivity].
  - apply Forall_app in Hall as [Hl Hx]. inversion Hx as [|? ? [out Hout] _]; subst.
    destruct (IH Hl) as [Hle Hiff].
    rewrite (bundle_snoc _ _ _ Hout), length_app, map_app. cbn [length map].
    rewrite NoDup_app.
    pose proof (bundle_dom l (folderEntryName fmt x) Hl) as Hdom.
    destruct (bundleOf engine fmt q l !! folderEntryName fmt x) as [old|] eqn:Hlook.
    + rewrite map_size_insert_Some by (rewrite Hlook; eauto).
      split; [lia|]. split; [lia|].
      intros (_ & Hfresh & _). exfalso.
      destruct (proj1 Hdom ltac:(eauto)) as (y & Hy & Hn).
      apply (Hfresh (folderEntryName fmt x)).
      * rewrite <- Hn. apply list_elem_of_fmap_2. exact Hy.
      * now apply list_elem_of_singleton.
    + rewrite map_size_insert_None by exact Hlook.
      split; [lia|]. split.
      * intros E. split; [apply Hiff; lia|]. split; [|apply NoDup_singleton].
        intros name Hin Hx'. apply list_elem_of_singleton in Hx'. subst.
        apply list_elem_of_fmap in Hin as (y & Hn & Hy).
        assert (Hs : is_Some (@None (list Byte.byte))).
        { apply Hdom. now exists y. }
        destruct Hs; discriminate.
      * intros (Hnd & _ & _). apply Hiff in Hnd. lia.
Qed.

Lemma bundle_last_wins (pre post : list ImageItem) (x : ImageItem)
    (out : list Byte.byte) :
  convertsAll engine fmt q (pre ++ x :: post) ->
  engine (argsFor fmt q x) = Some out ->
  Forall (fun y => folderEntryName fmt y <> folderEntryName fmt x) post ->
  bundleOf engine fmt q (pre ++ x :: post) !! folderEntryName fmt x = Some out.
Proof.
  induction post as [|y post IH] using rev_ind; intros Hall Hout Hpost.
  - rewrite (bundle_snoc _ _ _ Hout). apply lookup_insert_eq.
  - apply Forall_app in Hpost as [Hpost Hy]. inversion Hy; subst.
    assert (Hall' : convertsAll engine fmt q (pre ++ x :: post)).
    { unfold convertsAll in *. apply Forall_app in Hall as [Hp Hr].
      apply Forall_app. split; [exact Hp|].
      inversion Hr as [|? ? Hx Hr']; subst. constructor; [exact Hx|].
      now apply Forall_app in Hr' as [Hr' _]. }
    assert (Hy' : is_Some (engine (argsFor fmt q y))).
    { unfold convertsAll in Hall. rewrite Forall_forall in Hall.
      apply Hall. apply elem_of_app. right.
      apply elem_of_cons. right. apply elem_of_app. right.
      now apply list_elem_of_singleton. }
    destruct Hy' as [oy Hoy].
    change (pre ++ x :: post ++ [y]) with (pre ++ (x :: post) ++ [y]).
    rewrite app_assoc, (bundle_snoc _ _ _ Hoy).
    rewrite lookup_insert_ne by congruence. now apply IH.
Qed.
End Bundle.

Lemma append_inj_l (a b s : string) : a +:+ s = b +:+ s -> a = b.
Proof.
  revert b. induction a as [|c a IH]; intros b H.
  - destruct b as [|c' b]; [reflexivity|].
    apply (f_equal String.length) in H. rewrite !length_append in H.
    cbn [String.length] in H. lia.
  - destruct b as [|c' b].
    + apply (f_equal String.length) in H. rewrite !length_append in H.
      cbn [String.length] in H. lia.
    + rewrite !append_cons in H. injection H as -> H. f_equal. now apply IH.
Qed.

(** X6.  After a run in which no invocation throws, the bundle has an
    entry exactly for the names [<original stem>.<format>] of the items of
    the queue; it has as many entries as the queue has items exactly when
    these names are pairwise different, and fewer otherwise; where several
    items share a name, the entry holds the output of the last of them. *)
Theorem bundle_of_a_run_without_throw (engine : Engine) (w : World) :
  images (ui w) <> [] ->
  convertsAll engine (outputFormat (ui w)) (quality (ui w)) (images (ui w)) ->
  exists z,
    zipUrl (ui (convertImages true engine w)) = Some z
    /\ (forall name,
          is_Some (z !! name)
          <-> exists x, x ∈ images (ui w)
                        /\ originalName x +:+ "." +:+ outputFormat (ui w) = name)
    /\ (size z <= length (images (ui w)))%nat
    /\ (size z = length (images (ui w))
        <-> NoDup (map (fun x => originalName x +:+ "." +:+ outputFormat (ui w))
                       (images (ui w))))
    /\ (forall pre x post out,
          images (ui w) = pre ++ x :: post ->
          engine (argsFor (outputFormat (ui w)) (quality (ui w)) x) = Some out ->
          Forall (fun y => originalName y <> originalName x) post ->
          z !! (originalName x +:+ "." +:+ outputFormat (ui w)) = Some out).
Proof.
  intros Hne Hall.
  destruct (convertImages_all_converted engine w Hne Hall) as (_ & Hz & _).
  eexists. split; [exact Hz|].
  fold (bundleOf engine (outputFormat (ui w)) (quality (ui w)) (images (ui w))).
  split; [intros name; now apply bundle_dom|].
  destruct (bundle_size engine _ _ _ Hall) as [Hle Hiff].
  split; [exact Hle|]. split; [exact Hiff|].
  intros pre x post out E Hout Hpost. rewrite E in Hall |- *.
  apply bundle_last_wins; [exact Hall | exact Hout |].
  eapply Forall_impl; [exact Hpost|]. intros y Hy Hn. apply Hy.
  unfold folderEntryName in Hn. now apply append_inj_l in Hn.
Qed.

Lemma bundle_of_a_run_without_throw_witness :
  exists z,
    zipUrl (ui (convertImages true converts Samples.queue)) = Some z
    /\ (size z <= 3)%nat
    /\ z !! "logo.webp" = Some [].
Proof.
  destruct (bundle_of_a_run_without_throw converts Samples.queue)
    as (z & Hz & _ & Hle & _ & Hlast).
  - intros E; discriminate E.
  - repeat constructor; eexists; reflexivity.
  - exists z. split; [exact Hz|]. split; [exact Hle|].
    apply (Hlast [item "a.b.png" "x1" "" 1920 1080; Samples.tagged]
                 (item "logo.png" "x3" "" 64 64) [] []);
      [reflexivity | reflexivity | constructor].
Defined.


Lemma cleaned_lookup (fmt : string) (fs : gmap string (list Byte.byte))
    (x : ImageItem) (path : string) :
  cleaned fmt fs x !! path
    = if decide (path = inputNameOf x \/ path = outputNameOf fmt x)
      then None else fs !! path.
Proof.
  unfold cleaned. rewrite !lookup_delete.
  repeat case_decide; try reflexivity; exfalso; intuition congruence.
Qed.

Lemma cleaned_fold_lookup (fmt : string) (l : list ImageItem)
    (fs : gmap string (list Byte.byte)) (path : string) :
  ((exists x, x ∈ l /\ (path = inputNameOf x \/ path = outputNameOf fmt x)) ->
     fold_left (cleaned fmt) l fs !! path = None)
  /\ ((forall x, x ∈ l -> path <> inputNameOf x /\ path <> outputNameOf fmt x) ->
        fold_left (cleaned fmt) l fs !! path = fs !! path).
Proof.
  induction l as [|x l [IHin IHout]] using rev_ind.
  - split; [intros (x & Hx & _); inversion Hx | reflexivity].
  - rewrite fold_left_app. cbn [fold_left]. rewrite cleaned_lookup.
    destruct (decide _) as [Hx|Hx]; split; try reflexivity.
    + intros Hall. destruct (Hall x) as [H1 H2].
      { apply elem_of_app. right. now apply list_elem_of_singleton. }
      destruct Hx; contradiction.
    + intros (y & Hy & Hp). apply elem_of_app in Hy as [Hy|Hy].
      * apply IHin. now exists y.
      * apply list_elem_of_singleton in Hy. subst. contradiction.
    + intros Hall. apply IHout. intros y Hy. apply Hall.
      apply elem_of_app. now left.
Qed.

(** X7.  After a run in which no invocation throws, the engine's file
    system holds neither the input file nor the output file of any item,
    and every other file is as it was before the run. *)
Theorem engine_files_after_a_run_without_throw (engine : Engine) (w : World) :
  images (ui w) <> [] ->
  convertsAll engine (outputFormat (ui w)) (quality (ui w)) (images (ui w)) ->
  (forall x, x ∈ images (ui w) ->
     vfs (convertImages true engine w) !! ("input_" +:+ id x) = None
     /\ vfs (convertImages true engine w)
          !! ("output_" +:+ id x +:+ "." +:+ outputFormat (ui w)) = None)
  /\ (forall path,
        (forall x, x ∈ images (ui w) ->
           path <> "input_" +:+ id x
           /\ path <> "output_" +:+ id x +:+ "." +:+ outputFormat (ui w)) ->
        vfs (convertImages true engine w) !! path = vfs w !! path).
Proof.
  intros Hne Hall.
  destruct (convertImages_all_converted engine w Hne Hall) as (_ & _ & Hv & _).
  rewrite Hv. split.
  - intros x Hx. split;
      apply (cleaned_fold_lookup (outputFormat (ui w)) (images (ui w)) (vfs w));
      exists x; (split; [exact Hx|]); [now left | now right].
  - intros path Hp.
    now apply (cleaned_fold_lookup (outputFormat (ui w)) (images (ui w)) (vfs w)).
Qed.

Lemma engine_files_after_a_run_without_throw_witness :
  vfs (convertImages true converts Samples.queue) !! "input_x2" = None
  /\ vfs (convertImages true converts Samples.queue) !! "output_x2.webp" = None.
Proof.
  destruct (engine_files_after_a_run_without_throw converts Samples.queue)
    as (Hgone & _).
  - intros E; discriminate E.
  - repeat constructor; eexists; reflexivity.
  - apply (Hgone Samples.tagged).
    apply elem_of_cons. right. apply elem_of_cons. left. reflexivity.
Defined.


(* ===================================================================== *)
(** * What the operations on the queue keep                              *)
(* ===================================================================== *)

Lemma sameSource_refl (x : ImageItem) : sameSource x x.
Proof. repeat split. Qed.

Lemma sameSource_trans (x y z : ImageItem) :
  sameSource x y -> sameSource y z -> sameSource x z.
Proof.
  intros (a & b & c & d & e) (a' & b' & c' & d' & e').
  repeat split; congruence.
Qed.

Lemma sameRequest_trans (x y z : ImageItem) :
  sameRequest x y -> sameRequest y z -> sameRequest x z.
Proof.
  intros (a & b & c & d) (a' & b' & c' & d').
  split; [eapply sameSource_trans; eauto|]. repeat split; congruence.
Qed.

(** Each pass through the body of the loop ends with the array rendered. *)
Lemma iteration_rendered (engine : Engine) (i : nat) (f : Frame) :
  updatedImages f = images (ui (world f)) ->
  updatedImages (outcome (iteration engine i f))
    = images (ui (world (outcome (iteration engine i f)))).
Proof.
  intros Hco. destruct (updatedImages f !! i) as [img0|] eqn:Hi.
  - rewrite (iteration_spec _ _ _ _ Hi). now destruct (engine _).
  - unfold iteration. rewrite Hi. exact Hco.
Qed.

(** What a conversion run keeps of every item: any relation that is
    reflexive and transitive and that holds between an item and the same
    item with another status or with an output attached. *)
Section Preserved.
Variable R : ImageItem -> ImageItem -> Prop.
Hypothesis R_refl : forall x, R x x.
Hypothesis R_trans : forall x y z, R x y -> R y z -> R x z.
Hypothesis R_status : forall s x, R x (withStatus s x).
Hypothesis R_output : forall u n x, R x (withOutput u n x).

Lemma Forall2_preserved_refl (l : list ImageItem) : Forall2 R l l.
Proof. apply Forall_Forall2_diag, Forall_forall. intros; apply R_refl. Qed.

Lemma Forall2_preserved_trans (l1 l2 l3 : list ImageItem) :
  Forall2 R l1 l2 -> Forall2 R l2 l3 -> Forall2 R l1 l3.
Proof.
  intros H. revert l3. induction H as [|x y l1 l2 Hxy _ IH]; intros l3 H23.
  - inversion H23. constructor.
  - inversion H23; subst. constructor; [eapply R_trans; eauto | now apply IH].
Qed.

Lemma Forall2_preserved_insert (l : list ImageItem) (i : nat) (x y : ImageItem) :
  l !! i = Some x -> R x y -> Forall2 R l (<[i := y]> l).
Proof.
  intros Hi Hxy. rewrite <- (list_insert_id l i x Hi) at 1.
  apply Forall2_insert; [apply Forall2_preserved_refl | exact Hxy].
Qed.

Lemma iteration_preserves (engine : Engine) (i : nat) (f : Frame) :
  Forall2 R (updatedImages f) (updatedImages (outcome (iteration engine i f))).
Proof.
  destruct (updatedImages f !! i) as [img0|] eqn:Hi.
  - rewrite (iteration_spec _ _ _ _ Hi).
    assert (H1 : Forall2 R (updatedImages f)
                   (<[i := withStatus Status.processing img0]> (updatedImages f))).
    { apply (Forall2_preserved_insert _ _ img0); [exact Hi | apply R_status]. }
    destruct (engine _) as [out|]; cbn [outcome]; [|exact H1].
    unfold finished; cbn [updatedImages].
    eapply Forall2_preserved_trans; [exact H1|].
    apply (Forall2_preserved_insert _ _ (withStatus Status.processing img0)).
    + apply list_lookup_insert_eq. now apply lookup_lt_Some in Hi.
    + unfold converted.
      eapply R_trans; [apply (R_status Status.done)|].
      change (withStatus Status.done (withStatus Status.processing img0))
        with (withStatus Status.done img0).
      apply R_output.
  - unfold iteration. rewrite Hi. apply Forall2_preserved_refl.
Qed.

Lemma loop_preserves (engine : Engine) (n : nat) :
  forall (i : nat) (f : Frame),
    updatedImages f = images (ui (world f)) ->
    Forall2 R (updatedImages f) (updatedImages (outcome (loop engine n i f)))
    /\ updatedImages (outcome (loop engine n i f))
       = images (ui (world (outcome (loop engine n i f)))).
Proof.
  induction n as [|n IH]; intros i f Hco.
  - split; [apply Forall2_preserved_refl | exact Hco].
  - cbn [loop].
    pose proof (iteration_preserves engine i f) as Hs.
    pose proof (iteration_rendered engine i f Hco) as Hco'.
    destruct (iteration engine i f) as [f'|f']; cbn [outcome] in *.
    + destruct (IH (S i) f' Hco') as [Hs' Hc']. split; [|exact Hc'].
      eapply Forall2_preserved_trans; eauto.
    + split; [exact Hs | exact Hco'].
Qed.

Lemma convertImages_preserves (loaded : bool) (engine : Engine) (w : World) :
  Forall2 R (images (ui w)) (images (ui (convertImages loaded engine w))).
Proof.
  unfold convertImages.
  destruct (negb loaded || (length (images (ui w)) =? 0)%nat);
    [apply Forall2_preserved_refl|].
  set (f0 := {| world := setZipUrl None (setProcessing true w);
                updatedImages := _; folder := ∅; processedCount := 0 |}).
  destruct (loop_preserves engine (length (updatedImages f0)) 0 f0 eq_refl)
    as [Hs Hc].
  destruct (loop engine _ 0 f0) as [f'|f']; cbn [outcome] in *; cbn;
    rewrite <- Hc; exact Hs.
Qed.
End Preserved.

Lemma convertImages_sameRequest (loaded : bool) (engine : Engine) (w : World) :
  Forall2 sameRequest (images (ui w)) (images (ui (convertImages loaded engine w))).
Proof.
  apply convertImages_preserves.
  - intros x. repeat split.
  - apply sameRequest_trans.
  - intros s x. repeat split.
  - intros u n x. repeat split.
Qed.

Lemma convertImages_sameSource (loaded : bool) (engine : Engine) (w : World) :
  Forall2 sameSource (images (ui w)) (images (ui (convertImages loaded engine w))).
Proof.
  eapply Forall2_impl; [apply convertImages_sameRequest|]. now intros x y [H _].
Qed.

(** X9.  Whatever the operations of a session, every item of the queue
    has the identifier, the file, the original size and the aspect ratio
    of an item that was in the queue at the start or of an upload enqueued
    since: no operation recomputes the aspect ratio or replaces the source,
    and a conversion run neither adds nor duplicates items. *)
Theorem source_of_an_item_is_never_changed (ops : list Op) (w : World) (y : ImageItem) :
  y ∈ images (ui (session ops w)) ->
  (exists x, x ∈ images (ui w) /\ sameSource x y)
  \/ (exists files u, Enqueue files ∈ ops /\ u ∈ files /\ sameSource (newImage u) y).
Proof.
  intros Hy.
  assert (H : Forall (fun y =>
                (exists x, x ∈ images (ui w) /\ sameSource x y)
                \/ (exists files u, Enqueue files ∈ ops /\ u ∈ files
                                    /\ sameSource (newImage u) y))
              (images (ui (session ops w)))).
  { apply session_closed.
    - intros s x _ [(x0 & H0 & Hs) | (files & u & Hf & Hu & Hs)];
        [left; exists x0 | right; exists files, u]; repeat split; try assumption;
        apply Hs.
    - intros u n x [(x0 & H0 & Hs) | (files & u0 & Hf & Hu & Hs)];
        [left; exists x0 | right; exists files, u0]; repeat split; try assumption;
        apply Hs.
    - intros v x [(x0 & H0 & Hs) | (files & u & Hf & Hu & Hs)];
        [left; exists x0 | right; exists files, u]; repeat split; try assumption;
        apply Hs.
    - intros d v x [(x0 & H0 & Hs) | (files & u & Hf & Hu & Hs)];
        [left; exists x0 | right; exists files, u]; repeat split; try assumption;
        destruct d; apply Hs.
    - intros files u Hf Hu. right. exists files, u.
      split; [exact Hf|]. split; [exact Hu | apply sameSource_refl].
    - apply Forall_forall. intros x Hx. left. exists x.
      split; [exact Hx | apply sameSource_refl]. }
  exact (proj1 (Forall_forall _ _) H y Hy).
Qed.

Lemma source_of_an_item_is_never_changed_witness :
  (exists x, x ∈ images (ui Samples.queue)
             /\ sameSource x (changeDimension width 960 (item "a.b.png" "x1" "" 1920 1080)))
  \/ (exists files u,
        Enqueue files ∈ [Resize "x1" width 960]
        /\ u ∈ files
        /\ sameSource (newImage u)
             (changeDimension width 960 (item "a.b.png" "x1" "" 1920 1080))).
Proof.
  apply (source_of_an_item_is_never_changed [Resize "x1" width 960] Samples.queue).
  apply elem_of_cons. left. reflexivity.
Defined.


Lemma Forall2_sameSource_ids (i : string) (l l' : list ImageItem) :
  Forall2 sameSource l l' ->
  Forall (fun x => id x <> i) l -> Forall (fun x => id x <> i) l'.
Proof.
  induction 1 as [|x y l l' (Hid & _) _ IH]; intros Hl; [constructor|].
  inversion Hl; subst. constructor; [congruence | now apply IH].
Qed.

Lemma filter_sublist {A} (p : A -> bool) (l : list A) :
  sublist (List.filter p l) l.
Proof.
  induction l as [|x l IH]; cbn; [constructor|].
  destruct (p x); [now apply sublist_skip | now apply sublist_cons].
Qed.

(** X10.  Discarding an identifier removes every item that carries it and
    nothing else: the other items stay, unchanged and in their order;
    discarding an identifier that is not in the queue changes nothing; and
    no later conversion run brings a discarded item back. *)
Theorem discarded_item_is_gone (i : string) (w : World) :
  Forall (fun x => id x <> i) (images (ui (removeImage i w)))
  /\ (forall x, x ∈ images (ui (removeImage i w)) <-> x ∈ images (ui w) /\ id x <> i)
  /\ sublist (images (ui (removeImage i w))) (images (ui w))
  /\ (Forall (fun x => id x <> i) (images (ui w)) ->
        images (ui (removeImage i w)) = images (ui w))
  /\ (forall loaded engine,
        Forall (fun x => id x <> i)
               (images (ui (convertImages loaded engine (removeImage i w))))).
Proof.
  assert (Hmem : forall x, x ∈ images (ui (removeImage i w))
                           <-> x ∈ images (ui w) /\ id x <> i).
  { intros x. cbn. rewrite !list_elem_of_In, filter_In.
    destruct (String.eqb_spec (id x) i); cbn; intuition congruence. }
  assert (Hgone : Forall (fun x => id x <> i) (images (ui (removeImage i w)))).
  { apply Forall_forall. intros x Hx. now apply Hmem in Hx. }
  split; [exact Hgone|]. split; [exact Hmem|].
  split.
  { apply filter_sublist. }
  split.
  { intros Hall. cbn. apply filter_all. eapply Forall_impl; [exact Hall|].
    intros x Hx; cbn in Hx. now destruct (String.eqb_spec (id x) i). }
  intros loaded engine.
  eapply Forall2_sameSource_ids; [apply convertImages_sameSource | exact Hgone].
Qed.

Lemma argsFor_fresh (fmt : string) (q : Z) (u : Upload) :
  argsFor fmt q (newImage u)
    = ["-i"; "input_" +:+ upId u] ++ qualityArgs fmt q
        ++ ["output_" +:+ upId u +:+ "." +:+ fmt].
Proof.
  rewrite argsFor_parts. unfold scaleArgs, metadataArgs.
  cbn [targetWidth targetHeight originalWidth originalHeight newImage].
  rewrite !Z.eqb_refl. reflexivity.
Qed.

(** X4.  Enqueueing files keeps the items already in the queue and
    appends one item per file, in order: idle, without keyword and without
    output, with the target size equal to the size of the file; as long as
    it is not edited, the plan of such an item holds neither a scale filter
    nor a metadata directive. *)
Theorem enqueued_items_start_unscaled_and_untagged (files : list Upload) (w : World) :
  take (length (images (ui w))) (images (ui (processFiles files w))) = images (ui w)
  /\ length (images (ui (processFiles files w)))
     = (length (images (ui w)) + length files)%nat
  /\ Forall2 (fun u y =>
                id y = upId u /\ file y = upFile u
                /\ status y = Status.idle /\ keyword y = ""
                /\ outputUrl y = None /\ outputName y = None
                /\ targetWidth y = upW u /\ targetHeight y = upH u
                /\ forall fmt q,
                     valuesOf "-vf" (argsFor fmt q y) = []
                     /\ valuesOf "-metadata" (argsFor fmt q y) = [])
       files (drop (length (images (ui w))) (images (ui (processFiles files w)))).
Proof.
  cbn [processFiles setImages ui images].
  split; [now rewrite take_app_length|].
  split; [now rewrite length_app, length_map|].
  rewrite drop_app_length.
  induction files as [|u files IH]; constructor; [|exact IH].
  repeat split.
  - apply scale_values. now split.
  - now apply no_metadata_for_blank_keyword.
Qed.

Lemma replaceOutside_length (keep : ascii -> bool) (c : ascii) (s : string) :
  String.length (JS.replaceOutside keep c s) = String.length s.
Proof. induction s as [|a s IH]; cbn; [reflexivity | now rewrite IH]. Qed.

Lemma replaceOutside_chars (keep : ascii -> bool) (c : ascii) (s : string) :
  keep c = true ->
  Forall (fun a => keep a = true) (chars (JS.replaceOutside keep c s)).
Proof.
  intros Hc. induction s as [|a s IH]; cbn; constructor; [|exact IH].
  destruct (keep a) eqn:E; assumption.
Qed.

Lemma replaceOutside_clean (keep : ascii -> bool) (c : ascii) (s : string) :
  Forall (fun a => keep a = true) (chars s) -> JS.replaceOutside keep c s = s.
Proof.
  induction s as [|a s IH]; cbn; intros H; [reflexivity|].
  inversion H as [|? ? Ha Hs]; subst. now rewrite Ha, IH.
Qed.

Lemma replaceOutside_map (keep : ascii -> bool) (c : ascii) (s : string) :
  chars (JS.replaceOutside keep c s)
    = map (fun a => if keep a then a else c) (chars s).
Proof.
  unfold chars. induction s as [|a s IH];
    cbn [JS.replaceOutside list_ascii_of_string map]; [reflexivity|].
  f_equal. exact IH.
Qed.

(** The class [a-zA-Z0-9-_] by character codes. *)
Lemma keepInName_spec (c : ascii) :
  keepInName c = true
  <-> ((97 <= JS.code c <= 122)%N \/ (65 <= JS.code c <= 90)%N
       \/ (48 <= JS.code c <= 57)%N \/ c = "-"%char \/ c = "_"%char).
Proof.
  unfold keepInName, JS.isLower, JS.isUpper, JS.isDigit, JS.between.
  rewrite !orb_true_iff, !andb_true_iff, !N.leb_le, !N.eqb_eq.
  split.
  - intros [[[[H | H] | H] | H] | H]; auto.
    + right; right; right; left. unfold JS.code in H.
      rewrite <- (ascii_N_embedding c), H. reflexivity.
    + right; right; right; right. unfold JS.code in H.
      rewrite <- (ascii_N_embedding c), H. reflexivity.
  - intros [H | [H | [H | [-> | ->]]]]; auto.
Qed.

(** X11.  For an item whose keyword is not blank, the stem of the
    download name is the trimmed keyword in which every letter, digit,
    hyphen and underscore is kept and every other character is replaced
    by a hyphen.  So it is not empty, is as long as the trimmed keyword,
    consists of letters, digits, hyphens and underscores only (it holds no
    dot), and is the trimmed keyword itself when that is already clean. *)
Theorem keyword_gives_a_clean_download_name (img : ImageItem) :
  JS.trim (keyword img) <> "" ->
  chars (finalName img)
    = map (fun c => if keepInName c then c else "-"%char)
          (chars (JS.trim (keyword img)))
  /\ (forall c, keepInName c = true
                <-> ((97 <= JS.code c <= 122)%N \/ (65 <= JS.code c <= 90)%N
                     \/ (48 <= JS.code c <= 57)%N \/ c = "-"%char \/ c = "_"%char))
  /\ finalName img <> ""
  /\ String.length (finalName img) = String.length (JS.trim (keyword img))
  /\ Forall (fun c => keepInName c = true) (chars (finalName img))
  /\ (Forall (fun c => keepInName c = true) (chars (JS.trim (keyword img))) ->
        finalName img = JS.trim (keyword img))
  /\ countChar dot (finalName img) = 0%nat.
Proof.
  intros Hk. unfold finalName. rewrite (hasKeyword_true img Hk).
  pose proof (replaceOutside_length keepInName hyphen (JS.trim (keyword img))) as Hlen.
  pose proof (replaceOutside_chars keepInName hyphen (JS.trim (keyword img)) eq_refl)
    as Hch.
  split; [apply replaceOutside_map|]. split; [apply keepInName_spec|].
  split.
  { intros E. rewrite E in Hlen. destruct (JS.trim (keyword img)); [now apply Hk | discriminate]. }
  split; [exact Hlen|]. split; [exact Hch|].
  split; [apply replaceOutside_clean|].
  revert Hch. generalize (JS.replaceOutside keepInName hyphen (JS.trim (keyword img))).
  induction s as [|a s IH]; intros H; [reflexivity|].
  inversion H as [|? ? Ha Hs]; subst. cbn [countChar]. rewrite (IH Hs).
  destruct (Ascii.eqb_spec a dot) as [->|_]; [discriminate Ha | reflexivity].
Qed.

Lemma keyword_gives_a_clean_download_name_witness :
  chars (finalName Samples.tagged) = chars "Summer-Sale--"
  /\ finalName Samples.tagged <> ""
  /\ String.length (finalName Samples.tagged) = 13%nat
  /\ countChar dot (finalName Samples.tagged) = 0%nat.
Proof.
  destruct (keyword_gives_a_clean_download_name Samples.tagged)
    as (Hmap & _ & Hne & Hlen & _ & _ & Hdot).
  - intros E; discriminate E.
  - split; [rewrite Hmap; vm_compute; reflexivity|].
    split; [exact Hne | split; [exact Hlen | exact Hdot]].
Defined.


(** ** Stems of names with no dot or one dot *)

Lemma split_no_sep (c : ascii) (s : string) :
  countChar c s = 0%nat -> JS.split c s = [s].
Proof.
  induction s as [|a s IH]; [reflexivity|].
  cbn [countChar JS.split]. destruct (Ascii.eqb a c); [discriminate|].
  intros H. now rewrite (IH H).
Qed.

(** X12.  For an item with a blank keyword: when its file name has no
    dot, the stem of the download name is the whole file name while the
    stem of the bundle entry is empty (the entry is named [.<format>]);
    when the file name has exactly one dot, both stems are the text before
    that dot. *)
Theorem stems_of_names_with_at_most_one_dot (img : ImageItem) :
  JS.trim (keyword img) = "" ->
  (countChar dot (name (file img)) = 0%nat ->
     finalName img = name (file img) /\ originalName img = "")
  /\ (countChar dot (name (file img)) = 1%nat ->
        finalName img = originalName img
        /\ exists ext, name (file img) = originalName img +:+ "." +:+ ext
                       /\ countChar dot (originalName img) = 0%nat
                       /\ countChar dot ext = 0%nat).
Proof.
  intros Hk. unfold finalName, originalName. rewrite (hasKeyword_false img Hk).
  split.
  - intros H0. now rewrite (split_no_sep _ _ H0).
  - intros H1.
    pose proof (split_length dot (name (file img))) as Hlen.
    pose proof (split_parts_clean dot (name (file img))) as Hclean.
    pose proof (join_split dot (name (file img))) as Hjoin.
    rewrite H1 in Hlen.
    destruct (JS.split dot (name (file img))) as [|a [|b [|? ?]]]; try discriminate.
    split; [reflexivity|]. exists b. cbn [JS.sliceInit removelast JS.join].
    split; [now rewrite <- Hjoin|].
    inversion Hclean as [|? ? Ha Hb]; subst. inversion Hb; subst. now split.
Qed.

Lemma stems_of_names_with_at_most_one_dot_witness :
  finalName (item "README" "x9" "" 10 10) = "README"
  /\ originalName (item "README" "x9" "" 10 10) = ""
  /\ finalName (item "logo.png" "x3" "" 64 64)
     = originalName (item "logo.png" "x3" "" 64 64).
Proof.
  destruct (stems_of_names_with_at_most_one_dot (item "README" "x9" "" 10 10) eq_refl)
    as [H0 _].
  destruct (stems_of_names_with_at_most_one_dot (item "logo.png" "x3" "" 64 64) eq_refl)
    as [_ H1].
  destruct (H0 eq_refl) as [Ha Hb]. destruct (H1 eq_refl) as [Hc _].
  split; [exact Ha | split; [exact Hb | exact Hc]].
Defined.


Lemma sameRequest_argsFor (fmt : string) (q : Z) (x y : ImageItem) :
  sameRequest x y -> argsFor fmt q y = argsFor fmt q x.
Proof.
  intros ((Hid & _ & Hw & Hh & _) & Hk & Htw & Hth).
  unfold argsFor, planImage, inputNameOf, outputNameOf, hasKeyword.
  now rewrite Hid, Hw, Hh, Hk, Htw, Hth.
Qed.

Lemma iteration_settings (engine : Engine) (i : nat) (f : Frame) :
  fmtOf (outcome (iteration engine i f)) = fmtOf f
  /\ qualityOf (outcome (iteration engine i f)) = qualityOf f.
Proof.
  destruct (updatedImages f !! i) as [img0|] eqn:Hi.
  - rewrite (iteration_spec _ _ _ _ Hi). destruct (engine _); now split.
  - unfold iteration. rewrite Hi. now split.
Qed.

Lemma loop_settings (engine : Engine) (n : nat) :
  forall (i : nat) (f : Frame),
    fmtOf (outcome (loop engine n i f)) = fmtOf f
    /\ qualityOf (outcome (loop engine n i f)) = qualityOf f.
Proof.
  induction n as [|n IH]; intros i f; [now split|].
  cbn [loop]. destruct (iteration_settings engine i f) as [Hf Hq].
  destruct (iteration engine i f) as [f'|f']; cbn [outcome] in *; [|now split].
  destruct (IH (S i) f') as [Hf' Hq']. split; congruence.
Qed.

Lemma convertImages_settings (loaded : bool) (engine : Engine) (w : World) :
  outputFormat (ui (convertImages loaded engine w)) = outputFormat (ui w)
  /\ quality (ui (convertImages loaded engine w)) = quality (ui w).
Proof.
  unfold convertImages.
  destruct (negb loaded || (length (images (ui w)) =? 0)%nat); [now split|].
  set (f0 := {| world := setZipUrl None (setProcessing true w);
                updatedImages := _; folder := ∅; processedCount := 0 |}).
  destruct (loop_settings engine (length (updatedImages f0)) 0 f0) as [Hf Hq].
  destruct (loop engine _ 0 f0) as [f'|f']; cbn [outcome] in *; split; cbn;
    first [exact Hf | exact Hq].
Qed.

Lemma sameRequest_map_argsFor (fmt : string) (q : Z) (l l' : list ImageItem) :
  Forall2 sameRequest l l' -> map (argsFor fmt q) l' = map (argsFor fmt q) l.
Proof.
  induction 1 as [|x y l l' Hxy _ IH]; [reflexivity|].
  cbn [map]. now rewrite (sameRequest_argsFor fmt q x y Hxy), IH.
Qed.

Lemma sameRequest_convertsAll (engine : Engine) (fmt : string) (q : Z)
    (l l' : list ImageItem) :
  Forall2 sameRequest l l' ->
  convertsAll engine fmt q l -> convertsAll engine fmt q l'.
Proof.
  unfold convertsAll. induction 1 as [|x y l l' Hxy _ IH]; intros Hall; [constructor|].
  inversion Hall; subst. constructor; [|now apply IH].
  now rewrite (sameRequest_argsFor _ _ x y Hxy).
Qed.

(** X8.  A conversion run, whether it completes, is aborted by a throw
    or is refused, changes neither the output format, nor the quality, nor
    the arguments that the next run will hand to the engine for each item.
    So when the engine converts every request of a non-empty queue, a run
    that follows any other run converts every item and offers a bundle,
    also for items that an aborted run has left [processing]. *)
Theorem rerun_after_any_run (loaded : bool) (first again : Engine) (w : World) :
  images (ui w) <> [] ->
  convertsAll again (outputFormat (ui w)) (quality (ui w)) (images (ui w)) ->
  (forall fmt q,
     map (argsFor fmt q) (images (ui (convertImages loaded first w)))
       = map (argsFor fmt q) (images (ui w)))
  /\ outputFormat (ui (convertImages loaded first w)) = outputFormat (ui w)
  /\ quality (ui (convertImages loaded first w)) = quality (ui w)
  /\ Forall (fun y => status y = Status.done)
       (images (ui (convertImages true again (convertImages loaded first w))))
  /\ is_Some (zipUrl (ui (convertImages true again (convertImages loaded first w))))
  /\ alerts (convertImages true again (convertImages loaded first w))
     = alerts (convertImages loaded first w).
Proof.
  intros Hne Hall.
  pose proof (convertImages_sameRequest loaded first w) as Hreq.
  destruct (convertImages_settings loaded first w) as [Hf Hq].
  assert (Hargs : forall fmt q,
            map (argsFor fmt q) (images (ui (convertImages loaded first w)))
              = map (argsFor fmt q) (images (ui w)))
    by (intros; now apply sameRequest_map_argsFor).
  split; [exact Hargs|]. split; [exact Hf|]. split; [exact Hq|].
  set (w1 := convertImages loaded first w) in *.
  assert (Hne1 : images (ui w1) <> []).
  { intros E. rewrite E in Hreq. inversion Hreq; subst. congruence. }
  assert (Hall1 : convertsAll again (outputFormat (ui w1)) (quality (ui w1))
                    (images (ui w1))).
  { rewrite Hf, Hq. eapply sameRequest_convertsAll; eauto. }
  destruct (convertImages_all_converted again w1 Hne1 Hall1)
    as (Himgs & Hz & _ & Hal & _).
  split; [rewrite Himgs; now apply convertItem_done|].
  split; [rewrite Hz; eauto | exact Hal].
Qed.

Lemma rerun_after_any_run_witness :
  Forall (fun y => status y = Status.done)
    (images (ui (convertImages true converts
                   (convertImages true (throwsOn "input_x2") Samples.queue))))
  /\ is_Some (zipUrl (ui (convertImages true converts
                            (convertImages true (throwsOn "input_x2") Samples.queue)))).
Proof.
  destruct (rerun_after_any_run true (throwsOn "input_x2") converts Samples.queue)
    as (_ & _ & _ & Hd & Hz & _).
  - intros E; discriminate E.
  - repeat constructor; eexists; reflexivity.
  - split; [exact Hd | exact Hz].
Defined.


(* ===================================================================== *)
(** * The video plan, the size fields and the log of the page            *)
(* ===================================================================== *)

Lemma codec_part (args : list string) (fmt cd : string) :
  (if negb (String.eqb cd "copy")
   then if String.eqb fmt "mp4" && String.eqb cd "libx264"
        then (args ++ ["-c:v"; cd]) ++ ["-preset"; "fast"]
        else args ++ ["-c:v"; cd]
   else args ++ ["-c:v"; "copy"])
  = args ++ ["-c:v"; cd]
      ++ (if String.eqb fmt "mp4" && String.eqb cd "libx264"
          then ["-preset"; "fast"] else []).
Proof.
  destruct (String.eqb_spec cd "copy") as [->|_]; cbn [negb].
  - now rewrite andb_false_r.
  - destruct (String.eqb fmt "mp4" && String.eqb cd "libx264");
      [now rewrite <- app_assoc | reflexivity].
Qed.

Lemma filter_part (c : VideoConverter.Component) :
  (if String.eqb (VideoConverter.resolution c) "custom"
   then ["-i"; "input"]
          ++ ["-vf"; "scale="
                +:+ JS.toString (VideoConverter.evenRound (VideoConverter.customWidth c))
                +:+ ":"
                +:+ JS.toString (VideoConverter.evenRound (VideoConverter.customHeight c))]
   else if negb (String.eqb (VideoConverter.resolution c) "original")
   then VideoConverter.preset (VideoConverter.resolution c) "360p" "scale=-1:360"
          (VideoConverter.preset (VideoConverter.resolution c) "480p" "scale=-1:480"
            (VideoConverter.preset (VideoConverter.resolution c) "720p" "scale=-1:720"
              (VideoConverter.preset (VideoConverter.resolution c) "1080p" "scale=-1:1080"
                (VideoConverter.preset (VideoConverter.resolution c) "1440p" "scale=-1:1440"
                  (VideoConverter.preset (VideoConverter.resolution c) "4k" "scale=-1:2160"
                     ["-i"; "input"])))))
   else ["-i"; "input"])
  = ["-i"; "input"] ++ filterArgs c.
Proof.
  unfold filterArgs, VideoConverter.preset.
  generalize (VideoConverter.resolution c). intros r.
  destruct (String.eqb_spec r "custom") as [->|H0]; [reflexivity|].
  destruct (String.eqb_spec r "original") as [->|H1]; [reflexivity|].
  cbn [negb heightOf presetHeights].
  destruct (String.eqb_spec r "4k") as [->|H2]; [reflexivity|].
  destruct (String.eqb_spec r "1440p") as [->|H3]; [reflexivity|].
  destruct (String.eqb_spec r "1080p") as [->|H4]; [reflexivity|].
  destruct (String.eqb_spec r "720p") as [->|H5]; [reflexivity|].
  destruct (String.eqb_spec r "480p") as [->|H6]; [reflexivity|].
  destruct (String.eqb_spec r "360p") as [->|H7]; reflexivity.
Qed.

(** X15.  The video plan is the input, at most one filter, the codec
    directive, the optional preset and the output: the filter is the
    even-rounded custom size, or [scale=-1:<height>] for one of the six
    named resolutions, or absent ([original] or any other value); the codec
    directive names the selected codec, [copy] included; [-preset fast] is
    added for [libx264] into [mp4] only, hence never with [copy]. *)
Theorem video_plan_shape (c : VideoConverter.Component) :
  VideoConverter.convertArgs c
    = ["-i"; "input"] ++ filterArgs c ++ ["-c:v"; VideoConverter.codec c]
        ++ presetArgs c ++ ["output." +:+ VideoConverter.outputFormat c]
  /\ (VideoConverter.codec c = "copy" -> presetArgs c = [])
  /\ (VideoConverter.resolution c = "original" -> filterArgs c = [])
  /\ (length (filterArgs c) <= 2)%nat.
Proof.
  split; [|split; [|split]].
  - unfold VideoConverter.convertArgs. cbv zeta.
    rewrite codec_part, filter_part. fold (presetArgs c).
    now rewrite <- !app_assoc.
  - intros E. unfold presetArgs. rewrite E. now rewrite andb_false_r.
  - intros E. unfold filterArgs. now rewrite E.
  - unfold filterArgs. destruct (String.eqb _ "custom"); [cbn; lia|].
    destruct (heightOf _ presetHeights); cbn; lia.
Qed.

(** X16.  Even rounding never shrinks a size and adds at most one, leaves
    its own results unchanged, and keeps the order of sizes. *)
Theorem even_rounding_never_shrinks (n m : Z) :
  n <= VideoConverter.evenRound n <= n + 1
  /\ VideoConverter.evenRound (VideoConverter.evenRound n) = VideoConverter.evenRound n
  /\ (n <= m -> VideoConverter.evenRound n <= VideoConverter.evenRound m).
Proof.
  rewrite !evenRound_div.
  pose proof (Z.div_mod (n + 1) 2 ltac:(lia)) as Hn.
  pose proof (Z.mod_pos_bound (n + 1) 2 ltac:(lia)) as Hb.
  split; [lia|]. split.
  - replace ((n + 1) / 2 * 2 + 1) with (1 + (n + 1) / 2 * 2) by lia.
    rewrite Z.div_add by lia. change (1 / 2) with 0. lia.
  - intros Hle. assert ((n + 1) / 2 <= (m + 1) / 2) by (apply Z.div_le_mono; lia). lia.
Qed.

Lemma sliceLast_length {A} (k : nat) (l : list A) :
  length (sliceLast k l) = Nat.min k (length l).
Proof. unfold sliceLast. rewrite length_drop. lia. Qed.

Lemma onLog_window (hist : list string) (message : string) :
  onLog (sliceLast 51 hist) message = sliceLast 51 (hist ++ [message]).
Proof.
  unfold onLog, sliceLast. rewrite length_drop, drop_drop, length_app. cbn [length].
  destruct (decide (length hist <= 50)%nat) as [Hs|Hl].
  - replace (length hist - 51 + (length hist - (length hist - 51) - 50))%nat
      with 0%nat by lia.
    replace (length hist + 1 - 51)%nat with 0%nat by lia. reflexivity.
  - replace (length hist - 51 + (length hist - (length hist - 51) - 50))%nat
      with (length hist + 1 - 51)%nat by lia.
    rewrite drop_app_le by lia. reflexivity.
Qed.

(** X20.  After any sequence of log messages the buffer of the page holds
    the last 51 of them (all of them when there are fewer), in order. *)
Theorem log_buffer_keeps_the_last_51_messages (messages : list string) :
  fold_left onLog messages [] = sliceLast 51 messages
  /\ (length (fold_left onLog messages []) <= 51)%nat.
Proof.
  assert (H : fold_left onLog messages [] = sliceLast 51 messages).
  { induction messages as [|m messages IH] using rev_ind; [reflexivity|].
    rewrite fold_left_app. cbn [fold_left]. rewrite IH. apply onLog_window. }
  split; [exact H|]. rewrite H, sliceLast_length. lia.
Qed.

Lemma readDigits_digits (d : Decimal.uint) (acc : Z) :
  JS.readDigits 10 (Some acc) (NilEmpty.string_of_uint d) = Some (digitsValue acc d).
Proof.
  revert acc. induction d; intros acc; cbn [NilEmpty.string_of_uint digitsValue];
    [reflexivity|..];
    (cbn [JS.readDigits]; match goal with |- context [JS.digitValue 10 ?c] =>
       change (JS.digitValue 10 c) with (Some (Z.of_N (JS.code c) - 48)) end;
     cbv iota; rewrite <- IHd; reflexivity).
Qed.

Lemma digitsValue_pos (d : Decimal.uint) (p : positive) :
  digitsValue (Z.pos p) d = Z.pos (Pos.of_uint_acc d p).
Proof.
  revert p. induction d; intros p; cbn [digitsValue Pos.of_uint_acc];
    [reflexivity|..];
    (rewrite <- IHd; f_equal; lia).
Qed.

Lemma digitsValue_zero (d : Decimal.uint) :
  digitsValue 0 d = Z.of_N (Pos.of_uint d).
Proof.
  induction d; cbn [digitsValue Pos.of_uint]; [reflexivity | exact IHd |..];
    apply digitsValue_pos.
Qed.

Lemma readMagnitude_digits (d : Decimal.uint) :
  d <> Decimal.Nil ->
  JS.readMagnitude (NilZero.string_of_uint d) = Some (digitsValue 0 d)
  /\ JS.mathInt (NilZero.string_of_uint d) = Some (digitsValue 0 d).
Proof.
  intros Hd.
  destruct d as [|d|d|d|d|d|d|d|d|d|d]; [contradiction|..];
    (destruct d as [|d|d|d|d|d|d|d|d|d|d]; [split; reflexivity|..];
     split; exact (readDigits_digits _ _)).
Qed.

Lemma mathInt_toString (n : Z) : JS.mathInt (JS.toString n) = Some n.
Proof.
  unfold JS.toString. destruct n as [|p|p]; [reflexivity|..];
    cbn [Z.to_int NilZero.string_of_int].
  - destruct (readMagnitude_digits _ (DecimalPos.Unsigned.to_uint_nonnil p))
      as [_ ->].
    rewrite digitsValue_zero, DecimalPos.Unsigned.of_to. reflexivity.
  - destruct (readMagnitude_digits _ (DecimalPos.Unsigned.to_uint_nonnil p))
      as [E _].
    change (JS.mathInt (String "-" (NilZero.string_of_uint (Pos.to_uint p))))
      with (option_map Z.opp
              (JS.readMagnitude (NilZero.string_of_uint (Pos.to_uint p)))).
    rewrite E, digitsValue_zero, DecimalPos.Unsigned.of_to. reflexivity.
Qed.

(** The numeral of an integer below 2^53 in magnitude is read back as
    that integer. *)
Lemma parseInt_toString (n : Z) :
  - 2 ^ 53 < n < 2 ^ 53 ->
  JS.parseInt (JS.toString n) = Some n
  /\ JS.parseIntOrZero (JS.toString n) = n.
Proof.
  intros Hn.
  assert (H : JS.parseInt (JS.toString n) = Some n).
  { unfold JS.parseInt. rewrite mathInt_toString. cbn [option_map].
    now rewrite integer_exact. }
  split; [exact H | now apply parseIntOrZero_Some].
Qed.

(** X14.  Entering the decimal numeral of an integer [n] below 2^53 in
    magnitude into a size field stores [n], a negative number or 0
    included: in the video form the edited dimension becomes [n], with the
    other one untouched when [n] is not positive; in the image queue the
    edit is the dimension change to [n].  No lower bound is applied. *)
Theorem typed_number_is_stored (n : Z) (c : VideoConverter.Component)
    (i : string) (w : World) :
  - 2 ^ 53 < n < 2 ^ 53 ->
  VideoConverter.customWidth (VideoConverter.handleWidthChange (JS.toString n) c) = n
  /\ VideoConverter.customHeight (VideoConverter.handleHeightChange (JS.toString n) c) = n
  /\ (n <= 0 ->
        VideoConverter.handleWidthChange (JS.toString n) c
          = VideoConverter.setCustomWidth n c
        /\ VideoConverter.handleHeightChange (JS.toString n) c
           = VideoConverter.setCustomHeight n c)
  /\ onDimensionInput i width (JS.toString n) w = handleDimensionChange i width n w
  /\ onDimensionInput i height (JS.toString n) w = handleDimensionChange i height n w.
Proof.
  intros Hn. destruct (parseInt_toString n Hn) as [_ E].
  unfold onDimensionInput, VideoConverter.handleWidthChange,
    VideoConverter.handleHeightChange. rewrite E.
  destruct (Z.ltb_spec 0 n); repeat split; try reflexivity; intros; lia.
Qed.

Lemma typed_number_is_stored_witness :
  VideoConverter.customWidth
    (VideoConverter.handleWidthChange (JS.toString (-5)) (video 1920 1080)) = -5
  /\ VideoConverter.handleWidthChange (JS.toString (-5)) (video 1920 1080)
     = VideoConverter.setCustomWidth (-5) (video 1920 1080)
  /\ onDimensionInput "x1" width (JS.toString 0) Samples.queue
     = handleDimensionChange "x1" width 0 Samples.queue.
Proof.
  destruct (typed_number_is_stored (-5) (video 1920 1080) "x1" Samples.queue)
    as (H1 & _ & H2 & _); [lia|].
  destruct (typed_number_is_stored 0 (video 1920 1080) "x1" Samples.queue)
    as (_ & _ & _ & H3 & _); [lia|].
  split; [exact H1|]. split; [apply H2; lia | exact H3].
Defined.

(** X13.  Clearing a size field of an item (or entering text that is not
    a number) sets both target dimensions of that item to 0; for an item
    with a non-zero original width the plan then asks the engine for
    [scale=0:0]. *)
Theorem cleared_field_asks_for_a_zero_size
    (i : string) (d : Dimension) (text : string) (w : World) (x : ImageItem) :
  JS.parseInt text = None ->
  x ∈ images (ui w) -> id x = i ->
  (0 < aspectRatio x)%Q -> 0 < originalWidth x ->
  changeDimension d 0 x ∈ images (ui (onDimensionInput i d text w))
  /\ targetWidth (changeDimension d 0 x) = 0
  /\ targetHeight (changeDimension d 0 x) = 0
  /\ forall fmt q,
       valuesOf "-vf" (argsFor fmt q (changeDimension d 0 x)) = ["scale=0:0"].
Proof.
  intros Hp Hx Hid _ Hw.
  assert (E0 : JS.round (Double.fl (inject_Z 0 / aspectRatio x)) = 0).
  { rewrite fl_of_zero; [reflexivity|]. unfold Qeq, Qdiv, Qmult; simpl; lia. }
  assert (E1 : JS.round (Double.fl (inject_Z 0 * aspectRatio x)) = 0).
  { rewrite fl_of_zero; [reflexivity|]. unfold Qeq, Qmult; simpl; lia. }
  assert (Ht : targetWidth (changeDimension d 0 x) = 0
               /\ targetHeight (changeDimension d 0 x) = 0).
  { destruct d; cbn [changeDimension targetWidth targetHeight withTarget];
      rewrite ?E0, ?E1; now split. }
  destruct Ht as [Htw Hth].
  split.
  { unfold onDimensionInput. rewrite (parseIntOrZero_None _ Hp).
    rewrite handleDimensionChange_images.
    apply list_elem_of_In, in_map_iff. exists x.
    split; [|now apply list_elem_of_In].
    rewrite Hid, String.eqb_refl. reflexivity. }
  split; [exact Htw|]. split; [exact Hth|].
  intros fmt q.
  destruct (scale_values fmt q (changeDimension d 0 x)) as [_ H].
  rewrite H, Htw, Hth; [reflexivity|].
  left. rewrite Htw. destruct d; cbn [changeDimension originalWidth withTarget]; lia.
Qed.

Lemma cleared_field_asks_for_a_zero_size_witness :
  changeDimension width 0 (item "a.b.png" "x1" "" 1920 1080)
    ∈ images (ui (onDimensionInput "x1" width "" Samples.queue))
  /\ valuesOf "-vf"
       (argsFor "webp" 100 (changeDimension width 0 (item "a.b.png" "x1" "" 1920 1080)))
     = ["scale=0:0"].
Proof.
  destruct (cleared_field_asks_for_a_zero_size "x1" width "" Samples.queue
              (item "a.b.png" "x1" "" 1920 1080))
    as (Hin & _ & _ & Hplan).
  - reflexivity.
  - apply elem_of_cons. left. reflexivity.
  - reflexivity.
  - vm_compute. reflexivity.
  - reflexivity.
  - split; [exact Hin | exact (Hplan "webp" 100)].
Defined.


(* ===================================================================== *)
(** * Reading the resolution off the engine's log                        *)
(* ===================================================================== *)

Lemma digits_sound (k : nat) (s g rest : string) :
  digits k s = Some (g, rest) ->
  s = g +:+ rest /\ String.length g = k /\ allDigits g.
Proof.
  revert s g rest. induction k as [|k IH]; intros s g rest H.
  - injection H as <- <-. repeat split. constructor.
  - destruct s as [|c s]; [discriminate|]. cbn [digits] in H.
    destruct (JS.isDigit c) eqn:Hc; [|discriminate].
    destruct (digits k s) as [[g' rest']|] eqn:E; [|discriminate].
    injection H as <- <-. destruct (IH _ _ _ E) as (-> & Hl & Hd).
    split; [reflexivity|]. split; [cbn; now rewrite Hl|].
    constructor; assumption.
Qed.

Lemma digits_exact (g rest : string) :
  allDigits g -> digits (String.length g) (g +:+ rest) = Some (g, rest).
Proof.
  induction g as [|c g IH]; intros H; [reflexivity|].
  inversion H as [|? ? Hc Hg]; subst.
  rewrite append_cons. cbn [String.length digits]. rewrite Hc.
  now rewrite (IH Hg).
Qed.

Lemma digits_short (n : nat) (g rest : string) :
  (String.length g < n)%nat -> stopsDigits rest -> digits n (g +:+ rest) = None.
Proof.
  revert n. induction g as [|c g IH]; intros n Hn Hrest.
  - destruct n as [|n]; [cbn in Hn; lia|].
    change (EmptyString +:+ rest) with rest.
    destruct rest as [|c rest]; [reflexivity|]. cbn [digits].
    cbn in Hrest. now rewrite Hrest.
  - destruct n as [|n]; [cbn in Hn; lia|].
    rewrite append_cons. cbn [digits]. destruct (JS.isDigit c); [|reflexivity].
    rewrite IH; [reflexivity | cbn in Hn; lia | exact Hrest].
Qed.

Lemma group_sound {R} (k : string -> option R) (s g : string) (r : R) :
  group k s = Some (g, r) ->
  exists rest, s = g +:+ rest /\ k rest = Some r
               /\ (2 <= String.length g <= 5)%nat /\ allDigits g.
Proof.
  assert (Hat : forall n, attempt k n s = Some (g, r) ->
            exists rest, s = g +:+ rest /\ k rest = Some r
                         /\ String.length g = n /\ allDigits g).
  { intros n H. unfold attempt in H.
    destruct (digits n s) as [[g' rest]|] eqn:E; [|discriminate].
    destruct (k rest) as [r'|] eqn:Ek; [|discriminate].
    injection H as <- <-. destruct (digits_sound _ _ _ _ E) as (-> & Hl & Hd).
    exists rest. repeat split; assumption. }
  unfold group. intros H.
  destruct (attempt k 5 s) as [m|] eqn:E5.
  { injection H as ->. destruct (Hat 5%nat E5) as (rest & ? & ? & Hl & ?).
    exists rest. rewrite Hl. repeat split; auto; lia. }
  destruct (attempt k 4 s) as [m|] eqn:E4.
  { injection H as ->. destruct (Hat 4%nat E4) as (rest & ? & ? & Hl & ?).
    exists rest. rewrite Hl. repeat split; auto; lia. }
  destruct (attempt k 3 s) as [m|] eqn:E3.
  { injection H as ->. destruct (Hat 3%nat E3) as (rest & ? & ? & Hl & ?).
    exists rest. rewrite Hl. repeat split; auto; lia. }
  destruct (Hat 2%nat H) as (rest & ? & ? & Hl & ?).
  exists rest. rewrite Hl. repeat split; auto; lia.
Qed.

Lemma group_exact {R} (k : string -> option R) (g rest : string) (r : R) :
  allDigits g -> (2 <= String.length g <= 5)%nat -> stopsDigits rest ->
  k rest = Some r ->
  group k (g +:+ rest) = Some (g, r).
Proof.
  intros Hd Hl Hrest Hk.
  assert (Hex : attempt k (String.length g) (g +:+ rest) = Some (g, r)).
  { unfold attempt. now rewrite (digits_exact g rest Hd), Hk. }
  assert (Hno : forall n, (String.length g < n)%nat ->
            attempt k n (g +:+ rest) = None).
  { intros n Hn. unfold attempt. now rewrite (digits_short n g rest Hn Hrest). }
  unfold group.
  destruct (decide (String.length g = 5%nat)) as [E|N5]; [now rewrite <- E, Hex|].
  rewrite (Hno 5%nat) by lia.
  destruct (decide (String.length g = 4%nat)) as [E|N4]; [now rewrite <- E, Hex|].
  rewrite (Hno 4%nat) by lia.
  destruct (decide (String.length g = 3%nat)) as [E|N3]; [now rewrite <- E, Hex|].
  rewrite (Hno 3%nat) by lia.
  replace 2%nat with (String.length g) by lia. exact Hex.
Qed.

Lemma matchHere_sound (s g1 g2 : string) :
  matchHere s = Some (g1, g2) ->
  exists post, s = g1 +:+ "x" +:+ g2 +:+ post
    /\ allDigits g1 /\ (2 <= String.length g1 <= 5)%nat
    /\ allDigits g2 /\ (2 <= String.length g2 <= 5)%nat.
Proof.
  intros H. apply group_sound in H as (rest & -> & Hx & Hl1 & Hd1).
  unfold xThenGroup in Hx. destruct rest as [|c rest]; [discriminate|].
  destruct (Ascii.eqb_spec c "x") as [->|]; [|discriminate].
  destruct (group stop rest) as [[g u]|] eqn:E; [|discriminate].
  injection Hx as ->.
  apply group_sound in E as (post & -> & _ & Hl2 & Hd2).
  exists post. repeat split; try assumption; lia.
Qed.

Lemma matchHere_not_on_other (c : ascii) (s : string) :
  JS.isDigit c = false -> matchHere (String c s) = None.
Proof.
  intros Hc. unfold matchHere, group, attempt. cbn [digits]. now rewrite Hc.
Qed.


Lemma digit_facts (c : ascii) :
  JS.isDigit c = true ->
  JS.isSpace c = false /\ (JS.code c =? 45)%N = false /\ (JS.code c =? 43)%N = false
  /\ JS.isX c = false /\ (JS.code c =? 48)%N && JS.isX c = false
  /\ exists d, JS.digitValue 10 c = Some d /\ 0 <= d <= 9.
Proof.
  unfold JS.isDigit, JS.isSpace, JS.isX, JS.digitValue, JS.isDigit, JS.between.
  intros H. rewrite H.
  apply andb_true_iff in H as [H1 H2].
  apply N.leb_le in H1. apply N.leb_le in H2.
  assert (E1 : (9 <=? JS.code c)%N && (JS.code c <=? 13)%N = false).
  { apply andb_false_iff. right. apply N.leb_gt. lia. }
  assert (E2 : (JS.code c =? 32)%N = false) by (apply N.eqb_neq; lia).
  assert (E3 : (JS.code c =? 160)%N = false) by (apply N.eqb_neq; lia).
  assert (E4 : (JS.code c =? 45)%N = false) by (apply N.eqb_neq; lia).
  assert (E5 : (JS.code c =? 43)%N = false) by (apply N.eqb_neq; lia).
  assert (E6 : (JS.code c =? 120)%N = false) by (apply N.eqb_neq; lia).
  assert (E7 : (JS.code c =? 88)%N = false) by (apply N.eqb_neq; lia).
  rewrite E1, E2, E3, E4, E5, E6, E7. cbn [orb].
  repeat split; try reflexivity; [apply andb_false_r|].
  exists (Z.of_N (JS.code c) - 48).
  destruct (Z.ltb_spec (Z.of_N (JS.code c) - 48) 10); [|lia].
  split; [reflexivity | lia].
Qed.

Lemma resolutionMatch_sound (log g1 g2 : string) :
  resolutionMatch log = Some (g1, g2) ->
  exists pre post,
    log = pre +:+ g1 +:+ "x" +:+ g2 +:+ post
    /\ allDigits g1 /\ (2 <= String.length g1 <= 5)%nat
    /\ allDigits g2 /\ (2 <= String.length g2 <= 5)%nat.
Proof.
  induction log as [|c log IH]; cbn [resolutionMatch]; intros H.
  - destruct (matchHere "") as [m|] eqn:E; [|discriminate].
    injection H as ->. apply matchHere_sound in E as (post & E & ?).
    exists "", post. split; [exact E | assumption].
  - destruct (matchHere (String c log)) as [m|] eqn:E.
    + injection H as ->. apply matchHere_sound in E as (post & E & ?).
      exists "", post. split; [exact E | assumption].
    + destruct (IH H) as (pre & post & -> & ?).
      exists (String c pre), post. split; [reflexivity | assumption].
Qed.

Lemma resolutionMatch_complete (pre g1 g2 post : string) :
  noDigit pre ->
  allDigits g1 -> (2 <= String.length g1 <= 5)%nat ->
  allDigits g2 -> (2 <= String.length g2 <= 5)%nat ->
  stopsDigits post ->
  resolutionMatch (pre +:+ g1 +:+ "x" +:+ g2 +:+ post) = Some (g1, g2).
Proof.
  intros Hpre Hd1 Hl1 Hd2 Hl2 Hpost.
  assert (Hhere : matchHere (g1 +:+ "x" +:+ g2 +:+ post) = Some (g1, g2)).
  { unfold matchHere. apply group_exact; try assumption; [reflexivity|].
    change ("x" +:+ g2 +:+ post) with (String "x" (g2 +:+ post)).
    unfold xThenGroup. rewrite Ascii.eqb_refl.
    now rewrite (group_exact stop g2 post tt Hd2 Hl2 Hpost eq_refl). }
  induction pre as [|c pre IH].
  - change ("" +:+ ?s) with s.
    destruct (g1 +:+ "x" +:+ g2 +:+ post); cbn [resolutionMatch]; now rewrite Hhere.
  - inversion Hpre as [|? ? Hc Hp]; subst.
    rewrite append_cons. cbn [resolutionMatch].
    rewrite (matchHere_not_on_other _ _ Hc). now apply IH.
Qed.

Lemma resolutionMatch_none (log : string) :
  noDigit log -> resolutionMatch log = None.
Proof.
  induction log as [|c log IH]; intros H; [reflexivity|].
  inversion H as [|? ? Hc Hl]; subst. cbn [resolutionMatch].
  rewrite (matchHere_not_on_other _ _ Hc). now apply IH.
Qed.

Lemma readDigits_bounds (g : string) :
  allDigits g ->
  forall acc, 0 <= acc ->
    exists v, JS.readDigits 10 (Some acc) g = Some v
              /\ acc * 10 ^ Z.of_nat (String.length g) <= v
                 < (acc + 1) * 10 ^ Z.of_nat (String.length g).
Proof.
  induction g as [|c g IH]; intros H acc Hacc.
  - exists acc. split; [reflexivity|]. cbn. lia.
  - inversion H as [|? ? Hc Hg]; subst.
    destruct (digit_facts c Hc) as (_ & _ & _ & _ & _ & d & Hd & Hr).
    cbn [JS.readDigits]. rewrite Hd.
    destruct (IH Hg (acc * 10 + d) ltac:(lia)) as (v & Hv & Hb).
    exists v. split; [exact Hv|].
    cbn [String.length]. rewrite Nat2Z.inj_succ, Z.pow_succ_r by lia.
    assert (0 < 10 ^ Z.of_nat (String.length g)) by (apply Z.pow_pos_nonneg; lia).
    nia.
Qed.

Lemma mathInt_group (g : string) :
  allDigits g -> (2 <= String.length g <= 5)%nat ->
  exists v, JS.mathInt g = Some v /\ 0 <= v < 100000.
Proof.
  intros H Hl. destruct g as [|c g]; [cbn in Hl; lia|].
  inversion H as [|? ? Hc Hg]; subst.
  destruct (digit_facts c Hc) as (Hs & H45 & H43 & _ & _ & d & Hd & Hr).
  unfold JS.mathInt. cbn [JS.trimStart]. rewrite Hs, H45, H43.
  assert (E : JS.readMagnitude (String c g) = JS.readDigits 10 None (String c g)).
  { unfold JS.readMagnitude. destruct g as [|x g]; [reflexivity|].
    inversion Hg as [|? ? Hx _]; subst.
    destruct (digit_facts x Hx) as (_ & _ & _ & HX & _).
    rewrite HX. now rewrite andb_false_r. }
  rewrite E. cbn [JS.readDigits]. rewrite Hd.
  destruct (readDigits_bounds g Hg d ltac:(lia)) as (v & Hv & Hb).
  exists v. split; [exact Hv|]. cbn [String.length] in Hl.
  assert (Hp : 0 < 10 ^ Z.of_nat (String.length g) <= 10 ^ 4).
  { split; [apply Z.pow_pos_nonneg; lia|]. apply Z.pow_le_mono_r; lia. }
  change (10 ^ 4) with 10000 in Hp. nia.
Qed.

Lemma parseInt_group (g : string) :
  allDigits g -> (2 <= String.length g <= 5)%nat ->
  exists v, JS.parseInt g = Some v /\ 0 <= v < 100000.
Proof.
  intros H Hl. destruct (mathInt_group g H Hl) as (v & Hv & Hb).
  exists v. split; [|exact Hb].
  unfold JS.parseInt. rewrite Hv. cbn [option_map].
  rewrite integer_exact; [reflexivity | lia].
Qed.

Lemma log_without_digits_leaves_the_custom_size (log : string)
    (c : VideoConverter.Component) :
  noDigit log -> seedFromLog log c = c.
Proof. intros H. unfold seedFromLog. now rewrite (resolutionMatch_none log H). Qed.

(** X17.  Seeding the custom size from the log either finds no size and
    leaves the form as it is (always so for a log without digits), or
    finds in the log two groups of two to five digits with an [x] between
    them, and sets the custom width and height to the two numbers, both
    below 100000, and, for a positive height, the aspect ratio to their
    quotient (the double nearest to it); format, resolution choice and
    codec are not touched. *)
Theorem probe_reads_a_size_or_changes_nothing
    (log : string) (c : VideoConverter.Component) :
  ((resolutionMatch log = None /\ seedFromLog log c = c)
   \/ exists g1 g2 pre post w h,
        resolutionMatch log = Some (g1, g2)
        /\ log = pre +:+ g1 +:+ "x" +:+ g2 +:+ post
        /\ allDigits g1 /\ (2 <= String.length g1 <= 5)%nat
        /\ allDigits g2 /\ (2 <= String.length g2 <= 5)%nat
        /\ JS.parseInt g1 = Some w /\ 0 <= w < 100000
        /\ JS.parseInt g2 = Some h /\ 0 <= h < 100000
        /\ VideoConverter.customWidth (seedFromLog log c) = w
        /\ VideoConverter.customHeight (seedFromLog log c) = h
        /\ (0 < h -> VideoConverter.aspectRatio (seedFromLog log c)
                      = Double.fl (inject_Z w / inject_Z h))
        /\ VideoConverter.outputFormat (seedFromLog log c) = VideoConverter.outputFormat c
        /\ VideoConverter.resolution (seedFromLog log c) = VideoConverter.resolution c
        /\ VideoConverter.codec (seedFromLog log c) = VideoConverter.codec c)
  /\ (noDigit log -> seedFromLog log c = c).
Proof.
  split; [|apply log_without_digits_leaves_the_custom_size].
  destruct (resolutionMatch log) as [[g1 g2]|] eqn:Hm.
  - right.
    destruct (resolutionMatch_sound _ _ _ Hm)
      as (pre & post & E & Hd1 & Hl1 & Hd2 & Hl2).
    destruct (parseInt_group g1 Hd1 Hl1) as (w & Hw & Hbw).
    destruct (parseInt_group g2 Hd2 Hl2) as (h & Hh & Hbh).
    exists g1, g2, pre, post, w, h. unfold seedFromLog. rewrite Hm, Hw, Hh.
    repeat split; try assumption; lia.
  - left. split; [reflexivity|]. unfold seedFromLog. now rewrite Hm.
Qed.


(** X18.  When the log is some text without digits, then two to five
    digits, the letter x, two to five digits, and what follows does not
    begin with a digit, the probe finds exactly these two groups and seeds
    the custom width and the custom height from them, and, for a positive
    height, the aspect ratio with their quotient (the double nearest to
    it). *)
Theorem probe_finds_the_size_after_text_without_digits
    (pre g1 g2 post : string) (c : VideoConverter.Component) :
  noDigit pre ->
  allDigits g1 -> (2 <= String.length g1 <= 5)%nat ->
  allDigits g2 -> (2 <= String.length g2 <= 5)%nat ->
  stopsDigits post ->
  resolutionMatch (pre +:+ g1 +:+ "x" +:+ g2 +:+ post) = Some (g1, g2)
  /\ exists w h,
       JS.parseInt g1 = Some w /\ JS.parseInt g2 = Some h
       /\ VideoConverter.customWidth
            (seedFromLog (pre +:+ g1 +:+ "x" +:+ g2 +:+ post) c) = w
       /\ VideoConverter.customHeight
            (seedFromLog (pre +:+ g1 +:+ "x" +:+ g2 +:+ post) c) = h
       /\ (0 < h ->
             seedFromLog (pre +:+ g1 +:+ "x" +:+ g2 +:+ post) c
             = VideoConverter.setCustomHeight h
                 (VideoConverter.setCustomWidth w
                    (setAspectRatio (Double.fl (inject_Z w / inject_Z h)) c))).
Proof.
  intros Hpre Hd1 Hl1 Hd2 Hl2 Hpost.
  pose proof (resolutionMatch_complete pre g1 g2 post Hpre Hd1 Hl1 Hd2 Hl2 Hpost) as Hm.
  split; [exact Hm|].
  destruct (parseInt_group g1 Hd1 Hl1) as (w & Hw & _).
  destruct (parseInt_group g2 Hd2 Hl2) as (h & Hh & _).
  exists w, h. unfold seedFromLog. rewrite Hm, Hw, Hh.
  repeat split.
Qed.

Lemma probe_finds_the_size_after_text_without_digits_witness :
  resolutionMatch "Video: yuv, 1280x720 [SAR" = Some ("1280", "720")
  /\ exists w h,
       JS.parseInt "1280" = Some w /\ JS.parseInt "720" = Some h
       /\ VideoConverter.customWidth
            (seedFromLog "Video: yuv, 1280x720 [SAR" (video 1920 1080)) = w
       /\ VideoConverter.customHeight
            (seedFromLog "Video: yuv, 1280x720 [SAR" (video 1920 1080)) = h
       /\ (0 < h ->
             seedFromLog "Video: yuv, 1280x720 [SAR" (video 1920 1080)
             = VideoConverter.setCustomHeight h
                 (VideoConverter.setCustomWidth w
                    (setAspectRatio (Double.fl (inject_Z w / inject_Z h))
                       (video 1920 1080)))).
Proof.
  apply (probe_finds_the_size_after_text_without_digits
           "Video: yuv, " "1280" "720" " [SAR" (video 1920 1080)).
  - repeat constructor.
  - repeat constructor.
  - cbn; lia.
  - repeat constructor.
  - cbn; lia.
  - reflexivity.
Defined.


(** X19.  Once the custom size has been seeded with a width and a height
    that are both positive (and at most 2^25), entering the seeded width
    again, or the seeded height again, leaves the form as it is: the
    double-precision recomputation of the other dimension rounds to the
    seeded one. *)
Theorem retyping_a_probed_dimension_changes_nothing
    (w h : Z) (c : VideoConverter.Component) :
  0 < w <= 2 ^ 25 -> 0 < h <= 2 ^ 25 ->
  VideoConverter.handleWidthChange (JS.toString w)
    (VideoConverter.setCustomHeight h
       (VideoConverter.setCustomWidth w
          (setAspectRatio (Double.fl (inject_Z w / inject_Z h)) c)))
  = VideoConverter.setCustomHeight h
      (VideoConverter.setCustomWidth w
         (setAspectRatio (Double.fl (inject_Z w / inject_Z h)) c))
  /\ VideoConverter.handleHeightChange (JS.toString h)
       (VideoConverter.setCustomHeight h
          (VideoConverter.setCustomWidth w
             (setAspectRatio (Double.fl (inject_Z w / inject_Z h)) c)))
     = VideoConverter.setCustomHeight h
         (VideoConverter.setCustomWidth w
            (setAspectRatio (Double.fl (inject_Z w / inject_Z h)) c)).
Proof.
  intros Hw Hh.
  pose proof (restore_height w h Hw Hh) as Ew.
  pose proof (restore_width w h Hw Hh) as Eh.
  unfold VideoConverter.handleWidthChange, VideoConverter.handleHeightChange.
  rewrite (parseIntOrZero_Some _ _ (proj1 (parseInt_toString w ltac:(lia)))).
  rewrite (parseIntOrZero_Some _ _ (proj1 (parseInt_toString h ltac:(lia)))).
  destruct (Z.ltb_spec 0 w); [|lia]. destruct (Z.ltb_spec 0 h); [|lia].
  unfold VideoConverter.setCustomHeight, VideoConverter.setCustomWidth, setAspectRatio.
  cbn [VideoConverter.aspectRatio VideoConverter.customWidth
       VideoConverter.customHeight VideoConverter.outputFormat
       VideoConverter.resolution VideoConverter.codec].
  rewrite Ew, Eh. split; reflexivity.
Qed.

Lemma retyping_a_probed_dimension_changes_nothing_witness :
  VideoConverter.handleWidthChange "1280"
    (VideoConverter.setCustomHeight 720
       (VideoConverter.setCustomWidth 1280
          (setAspectRatio (Double.fl (inject_Z 1280 / inject_Z 720))
             (video 1920 1080))))
  = VideoConverter.setCustomHeight 720
      (VideoConverter.setCustomWidth 1280
         (setAspectRatio (Double.fl (inject_Z 1280 / inject_Z 720))
            (video 1920 1080))).
Proof.
  exact (proj1 (retyping_a_probed_dimension_changes_nothing 1280 720
                  (video 1920 1080) ltac:(lia) ltac:(lia))).
Defined.

